(** * A limit order book with price-time priority: model and properties

    Shallow embedding of [src/orderbook.cpp]: the [Order], [OrderModify],
    [Trade] and [Orderbook] classes, followed by the invariants of the book
    and the properties of its public operations ([AddOrder], [CancelOrder],
    [MatchOrder], [Size], [GetOrderInfos]).

    Modelling conventions.
    - [Price] is [std::int32_t]: a [Z]; prices are only compared.
    - [Quantity] is [std::uint32_t] and [OrderId] is [std::uint64_t]: an [N].
      The only arithmetic that can leave the 32-bit range is the running sum
      of [GetOrderInfos], whose wrap-around is written out.
    - [std::map<Price, OrderPointers, Compare>] is an association list kept in
      the order of [Compare]; [begin()] is its head.
    - [std::unordered_map<OrderId, OrderEntry>] is a [gmap].
    - An [Order] object is shared (through [std::shared_ptr]) by its price
      level queue and by its entry of the index: [Fill] through one is seen
      through the other.  Queues and index both hold the record, and a
      mutation made through a queue is written to the index entry of the same
      identifier as well: [AddOrder] enters an order only under an
      identifier that is absent from the index, and every removal takes the
      order out of its queue and out of the index, so the entry of an
      identifier is the object queued under it ([consistent] below).  The
      iterator of an [OrderEntry] designates the list node holding the same
      pointer; erasing through it removes the order of that identifier from
      the queue.
    - A C++ reference keeps denoting the value it was bound to ([bid], [ask],
      [order], [existingOrder] are read after the container slot they were
      taken from has been erased); a reference to the queue of an erased
      level reads as an empty queue.
    - Exceptions ([std::logic_error] of [Fill], [std::out_of_range] of
      [map::at]) and loops are explicit: operations return a [result]. *)

From Stdlib Require Import ZArith NArith Lia List Bool Sorting.Sorted.
From stdpp Require Import base option list gmap numbers sorting.

Set Default Proof Using "Type".
Local Open Scope Z_scope.

(* ===================================================================== *)
(** ** Basic types *)

Inductive OrderType := GoodTillCancel | FillandKill.

Inductive Side := Buy | Sell.

#[export] Instance OrderType_eq_dec : EqDecision OrderType.
Proof. solve_decision. Defined.

#[export] Instance Side_eq_dec : EqDecision Side.
Proof. solve_decision. Defined.

Abbreviation Price := Z (only parsing).
Abbreviation Quantity := N (only parsing).
Abbreviation OrderId := N (only parsing).

(** Reduction of a natural number to [std::uint32_t]. *)
Definition Quantity_wrap (n : N) : Quantity := (n mod 2 ^ 32)%N.

Definition OrderType_eqb (a b : OrderType) : bool :=
  match a, b with
  | GoodTillCancel, GoodTillCancel | FillandKill, FillandKill => true
  | _, _ => false
  end.

(* ===================================================================== *)
(** ** Outcomes of an operation *)

Inductive exception :=
  | logic_error (orderId : OrderId)   (* thrown by Order::Fill *)
  | out_of_range.                     (* thrown by std::map::at *)

Inductive result (A : Type) :=
  | Ok (a : A)
  | Throw (e : exception)
  | OutOfFuel.

Arguments Ok {A} a.
Arguments Throw {A} e.
Arguments OutOfFuel {A}.

Definition result_bind {A B} (f : A → result B) (r : result A) : result B :=
  match r with
  | Ok a => f a
  | Throw e => Throw e
  | OutOfFuel => OutOfFuel
  end.

#[export] Instance result_mbind : MBind result := @result_bind.
#[export] Instance result_mret : MRet result := @Ok.

(* ===================================================================== *)
(** ** struct LevelInfo, class OrderbookLevelInfos *)

Module LevelInfo.
Record t := mk { price_ : Price; quantity_ : Quantity }.
End LevelInfo.

Abbreviation LevelInfos := (list LevelInfo.t) (only parsing).

Module OrderbookLevelInfos.
Record t := mk { bids_ : LevelInfos; asks_ : LevelInfos }.
Definition GetBids (i : t) : LevelInfos := bids_ i.
Definition GetAsks (i : t) : LevelInfos := asks_ i.
End OrderbookLevelInfos.

(* ===================================================================== *)
(** ** class Order *)

Module Order.
Record t := mk {
  orderType_ : OrderType;
  orderId_ : OrderId;
  side_ : Side;
  price_ : Price;
  initialQuantity_ : Quantity;
  remainingQuantity_ : Quantity
}.

(** The constructor: the remaining quantity starts at the initial one. *)
Definition new (orderType : OrderType) (orderId : OrderId) (side : Side)
    (price : Price) (quantity : Quantity) : t :=
  mk orderType orderId side price quantity quantity.

#[export] Instance eq_dec : EqDecision t.
Proof. solve_decision. Defined.

Definition GetOrderId (o : t) : OrderId := orderId_ o.
Definition GetSide (o : t) : Side := side_ o.
Definition GetPrice (o : t) : Price := price_ o.
Definition GetOrderType (o : t) : OrderType := orderType_ o.
Definition GetInitialQuantity (o : t) : Quantity := initialQuantity_ o.
Definition GetRemainingQuantity (o : t) : Quantity := remainingQuantity_ o.
(** The subtraction is in [Quantity]. *)
Definition GetFilledQuantity (o : t) : Quantity :=
  Quantity_wrap (GetInitialQuantity o + 2 ^ 32 - GetRemainingQuantity o).
Definition IsFilled (o : t) : bool := (GetRemainingQuantity o =? 0)%N.

(** [Fill]: the object after the call, or the exception. *)
Definition Fill (quantity : Quantity) (o : t) : result t :=
  if (GetRemainingQuantity o <? quantity)%N
  then Throw (logic_error (GetOrderId o))
  else Ok (mk (orderType_ o) (orderId_ o) (side_ o) (price_ o)
             (initialQuantity_ o) (remainingQuantity_ o - quantity)%N).
End Order.

Abbreviation OrderPointers := (list Order.t) (only parsing).

(* ===================================================================== *)
(** ** class OrderModify *)

Module OrderModify.
Record t := mk {
  orderId_ : OrderId;
  price_ : Price;
  side_ : Side;
  quantity_ : Quantity
}.

(** The constructor takes (orderId, side, price, quantity). *)
Definition new (orderId : OrderId) (side : Side) (price : Price)
    (quantity : Quantity) : t :=
  mk orderId price side quantity.

Definition GetOrderId (m : t) : OrderId := orderId_ m.
Definition GetSide (m : t) : Side := side_ m.
Definition GetPrice (m : t) : Price := price_ m.
Definition GetQuantity (m : t) : Quantity := quantity_ m.

Definition ToOrderPointer (type : OrderType) (m : t) : Order.t :=
  Order.new type (GetOrderId m) (GetSide m) (GetPrice m) (GetQuantity m).
End OrderModify.

(* ===================================================================== *)
(** ** struct TradeInfo, class Trade *)

Module TradeInfo.
Record t := mk { orderId_ : OrderId; price_ : Price; quantity_ : Quantity }.
End TradeInfo.

Module Trade.
Record t := mk { bidTrade_ : TradeInfo.t; askTrade_ : TradeInfo.t }.
Definition GetBidTrade (x : t) : TradeInfo.t := bidTrade_ x.
Definition GetAskTrade (x : t) : TradeInfo.t := askTrade_ x.
End Trade.

Abbreviation Trades := (list Trade.t) (only parsing).

(* ===================================================================== *)
(** ** std::map<Price, OrderPointers, Compare> *)

Module PriceMap.
Definition t := list (Price * list Order.t).

(** [*m.begin()] *)
Definition begin (m : t) : option (Price * list Order.t) := head m.

(** The mapped queue of [price], if the key is present. *)
Fixpoint find (price : Price) (m : t) : option (list Order.t) :=
  match m with
  | [] => None
  | (k, q) :: m' => if price =? k then Some q else find price m'
  end.

(** [m.erase(price)] *)
Fixpoint erase (price : Price) (m : t) : t :=
  match m with
  | [] => []
  | (k, q) :: m' => if price =? k then m' else (k, q) :: erase price m'
  end.

(** In-place update, through a reference, of the queue mapped to an
    existing key; nothing happens when the key is absent. *)
Fixpoint update (price : Price) (f : list Order.t → list Order.t) (m : t) : t :=
  match m with
  | [] => []
  | (k, q) :: m' =>
      if price =? k then (k, f q) :: m' else (k, q) :: update price f m'
  end.

Section WithCompare.
(** [comp a b]: key [a] is ordered before key [b]. *)
Variable comp : Price → Price → bool.

(** [f] applied in place to [m[price]]: [operator[]] creates the key,
    with an empty queue and at its place in the order, when absent. *)
Fixpoint subscript (price : Price) (f : list Order.t → list Order.t) (m : t) : t :=
  match m with
  | [] => [(price, f [])]
  | (k, q) :: m' =>
      if comp price k then (price, f []) :: (k, q) :: m'
      else if comp k price then (k, q) :: subscript price f m'
      else (k, f q) :: m'
  end.
End WithCompare.

(** [std::greater<Price>] and [std::less<Price>]. *)
Definition greater (a b : Price) : bool := b <? a.
Definition less (a b : Price) : bool := a <? b.
End PriceMap.

(* ===================================================================== *)
(** ** class Orderbook *)

Module Orderbook.
Record t := mk {
  bids_ : PriceMap.t;              (* ordered by std::greater *)
  asks_ : PriceMap.t;              (* ordered by std::less *)
  orders_ : gmap N Order.t
}.

(** The default-constructed book. *)
Definition init : t := mk [] [] ∅.

(** What a reference to the queue of level [price] reads. *)
Definition queue (price : Price) (m : PriceMap.t) : list Order.t :=
  default [] (PriceMap.find price m).

Definition CanMatch (side : Side) (price : Price) (s : t) : bool :=
  match side with
  | Buy =>
      match PriceMap.begin (asks_ s) with
      | None => false
      | Some (bestAsk, _) => bestAsk <=? price
      end
  | Sell =>
      match PriceMap.begin (bids_ s) with
      | None => false
      | Some (bestBid, _) => price <=? bestBid
      end
  end.

(** [orders.erase(iterator)]: the node of the cancelled order leaves the
    queue. *)
Fixpoint erase_at (orderId : OrderId) (orders : list Order.t) : list Order.t :=
  match orders with
  | [] => []
  | o :: orders' =>
      if (Order.GetOrderId o =? orderId)%N then orders'
      else o :: erase_at orderId orders'
  end.

(** One side of [CancelOrder]: [m.at(price)], erase through the iterator,
    drop the level when its queue is empty. *)
Definition cancel_in (orderId : OrderId) (price : Price) (m : PriceMap.t)
    : result PriceMap.t :=
  match PriceMap.find price m with
  | None => Throw out_of_range
  | Some _ =>
      let m := PriceMap.update price (erase_at orderId) m in
      if bool_decide (queue price m = [])
      then Ok (PriceMap.erase price m)
      else Ok m
  end.

Definition CancelOrder (orderId : OrderId) (s : t) : result t :=
  match orders_ s !! orderId with
  | None => Ok s
  | Some order =>
      let orders := delete orderId (orders_ s) in
      match Order.GetSide order with
      | Sell =>
          asks ← cancel_in orderId (Order.GetPrice order) (asks_ s);
          Ok (mk (bids_ s) asks orders)
      | Buy =>
          bids ← cancel_in orderId (Order.GetPrice order) (bids_ s);
          Ok (mk bids (asks_ s) orders)
      end
  end.

(** The front object of a queue after a mutation of it. *)
Definition set_front (o : Order.t) (q : list Order.t) : list Order.t :=
  match q with
  | [] => []
  | _ :: q' => o :: q'
  end.

(** The index entry of a mutated object shows the mutation. *)
Definition shared (o : Order.t) (orders : gmap N Order.t) : gmap N Order.t :=
  alter (λ _, o) (Order.GetOrderId o) orders.

(** The body of the inner loop of [MatchOrders]. *)
Definition match_front (bidPrice askPrice : Price) (s : t) (trades : list Trade.t)
    : result (t * list Trade.t) :=
  match queue bidPrice (bids_ s), queue askPrice (asks_ s) with
  | bid :: _, ask :: _ =>
      let quantity :=
        N.min (Order.GetRemainingQuantity bid) (Order.GetRemainingQuantity ask) in
      bid ← Order.Fill quantity bid;
      ask ← Order.Fill quantity ask;
      let bids := PriceMap.update bidPrice (set_front bid) (bids_ s) in
      let asks := PriceMap.update askPrice (set_front ask) (asks_ s) in
      let orders := shared ask (shared bid (orders_ s)) in
      let '(bids, orders) :=
        if Order.IsFilled bid
        then (PriceMap.update bidPrice (drop 1) bids,
              delete (Order.GetOrderId bid) orders)
        else (bids, orders) in
      let '(asks, orders) :=
        if Order.IsFilled ask
        then (PriceMap.update askPrice (drop 1) asks,
              delete (Order.GetOrderId ask) orders)
        else (asks, orders) in
      let bids :=
        if bool_decide (queue bidPrice bids = [])
        then PriceMap.erase bidPrice bids else bids in
      let asks :=
        if bool_decide (queue askPrice asks = [])
        then PriceMap.erase askPrice asks else asks in
      Ok (mk bids asks orders,
          trades ++
          [Trade.mk
             (TradeInfo.mk (Order.GetOrderId bid) (Order.GetPrice bid) quantity)
             (TradeInfo.mk (Order.GetOrderId ask) (Order.GetPrice ask) quantity)])
  | _, _ => Ok (s, trades)
  end.

(** The inner loop: [while (bids.size() && asks.size())]. *)
Fixpoint match_level (fuel : nat) (bidPrice askPrice : Price) (s : t)
    (trades : list Trade.t) : result (t * list Trade.t) :=
  match fuel with
  | O => OutOfFuel
  | S fuel' =>
      match queue bidPrice (bids_ s), queue askPrice (asks_ s) with
      | _ :: _, _ :: _ =>
          '(s', trades') ← match_front bidPrice askPrice s trades;
          match_level fuel' bidPrice askPrice s' trades'
      | _, _ => Ok (s, trades)
      end
  end.

(** Iterations the inner loop can need: each one pops an order. *)
Definition level_fuel (bidPrice askPrice : Price) (s : t) : nat :=
  S (length (queue bidPrice (bids_ s)) + length (queue askPrice (asks_ s))).

(** The outer loop: [while (true)]. *)
Fixpoint match_loop (fuel : nat) (s : t) (trades : list Trade.t)
    : result (t * list Trade.t) :=
  match fuel with
  | O => OutOfFuel
  | S fuel' =>
      match PriceMap.begin (bids_ s), PriceMap.begin (asks_ s) with
      | Some (bidPrice, _), Some (askPrice, _) =>
          if bidPrice <? askPrice then Ok (s, trades)
          else
            '(s', trades') ←
              match_level (level_fuel bidPrice askPrice s) bidPrice askPrice s trades;
            match_loop fuel' s' trades'
      | _, _ => Ok (s, trades)
      end
  end.

(** Iterations the outer loop can need: each one erases a level. *)
Definition loop_fuel (s : t) : nat :=
  S (length (bids_ s) + length (asks_ s)).

(** The fill-and-kill check on the front order of the best level of one
    side; [m] is that side. *)
Definition sweep (m : PriceMap.t) (s : t) : result t :=
  match PriceMap.begin m with
  | Some (_, order :: _) =>
      match Order.GetOrderType order with
      | FillandKill => CancelOrder (Order.GetOrderId order) s
      | GoodTillCancel => Ok s
      end
  | _ => Ok s
  end.

Definition MatchOrders (s : t) : result (list Trade.t * t) :=
  '(s, trades) ← match_loop (loop_fuel s) s [];
  s ← sweep (bids_ s) s;
  s ← sweep (asks_ s) s;
  Ok (trades, s).

(** [orders.push_back(order)] *)
Definition push_back (order : Order.t) (orders : list Order.t) : list Order.t :=
  orders ++ [order].

(** [orders_.insert({id, entry})]: an existing key is kept. *)
Definition index_insert (order : Order.t) (orders : gmap N Order.t) : gmap N Order.t :=
  match orders !! Order.GetOrderId order with
  | Some _ => orders
  | None => <[Order.GetOrderId order := order]> orders
  end.

(** Lines 294-316 of [AddOrder]: the order joins the tail of the queue of
    its price on its side, and the index. *)
Definition insert (order : Order.t) (s : t) : t :=
  let '(bids, asks) :=
    match Order.GetSide order with
    | Buy => (PriceMap.subscript PriceMap.greater (Order.GetPrice order)
                (push_back order) (bids_ s), asks_ s)
    | Sell => (bids_ s, PriceMap.subscript PriceMap.less (Order.GetPrice order)
                (push_back order) (asks_ s))
    end in
  mk bids asks (index_insert order (orders_ s)).

Definition AddOrder (order : Order.t) (s : t) : result (list Trade.t * t) :=
  if bool_decide (is_Some (orders_ s !! Order.GetOrderId order)) then Ok ([], s)
  else if OrderType_eqb (Order.GetOrderType order) FillandKill
          && negb (CanMatch (Order.GetSide order) (Order.GetPrice order) s)
  then Ok ([], s)
  else MatchOrders (insert order s).

(** Modification of an order. *)
Definition MatchOrder (order : OrderModify.t) (s : t) : result (list Trade.t * t) :=
  match orders_ s !! OrderModify.GetOrderId order with
  | None => Ok ([], s)
  | Some existingOrder =>
      s ← CancelOrder (OrderModify.GetOrderId order) s;
      AddOrder (OrderModify.ToOrderPointer (Order.GetOrderType existingOrder) order) s
  end.

Definition Size (s : t) : nat := size (orders_ s).

(** The accumulation of [CreateLevelInfos], in [Quantity]. *)
Definition CreateLevelInfos (price : Price) (orders : list Order.t) : LevelInfo.t :=
  LevelInfo.mk price
    (fold_left
       (λ runningSum order,
          Quantity_wrap (runningSum + Order.GetRemainingQuantity order))
       orders 0%N).

Definition GetOrderInfos (s : t) : OrderbookLevelInfos.t :=
  OrderbookLevelInfos.mk
    (map (λ '(price, orders), CreateLevelInfos price orders) (bids_ s))
    (map (λ '(price, orders), CreateLevelInfos price orders) (asks_ s)).
End Orderbook.

(* ===================================================================== *)
(** ** Sequences of public operations *)

Inductive Op :=
  | Submit (orderType : OrderType) (orderId : OrderId) (side : Side)
      (price : Price) (quantity : Quantity)
  | Cancel (orderId : OrderId)
  | Modify (orderId : OrderId) (side : Side) (price : Price) (quantity : Quantity).

Definition step (op : Op) (s : Orderbook.t) : result (list Trade.t * Orderbook.t) :=
  match op with
  | Submit orderType orderId side price quantity =>
      Orderbook.AddOrder (Order.new orderType orderId side price quantity) s
  | Cancel orderId =>
      s ← Orderbook.CancelOrder orderId s; Ok ([], s)
  | Modify orderId side price quantity =>
      Orderbook.MatchOrder (OrderModify.new orderId side price quantity) s
  end.

Fixpoint run (ops : list Op) (s : Orderbook.t) : result Orderbook.t :=
  match ops with
  | [] => Ok s
  | op :: ops' => '(_, s') ← step op s; run ops' s'
  end.

(** The states of a book driven through its public operations. *)
Definition reachable (s : Orderbook.t) : Prop :=
  ∃ ops, run ops Orderbook.init = Ok s.


(* ===================================================================== *)
(** ** Vocabulary of the properties *)

(** The orders resting on one side, best level first, each level in
    arrival order; the orders of the book. *)
Definition side_orders (m : PriceMap.t) : list Order.t := mjoin (m.*2).

Definition book_orders (s : Orderbook.t) : list Order.t :=
  side_orders (Orderbook.bids_ s) ++ side_orders (Orderbook.asks_ s).

Definition ids (l : list Order.t) : list N := Order.GetOrderId <$> l.

(** The side of the book an order of side [sd] rests on, and the queue of
    a price level of it (absent when the level does not exist). *)
Definition side_map (sd : Side) (s : Orderbook.t) : PriceMap.t :=
  match sd with
  | Buy => Orderbook.bids_ s
  | Sell => Orderbook.asks_ s
  end.

Definition level (sd : Side) (price : Price) (s : Orderbook.t) : option (list Order.t) :=
  PriceMap.find price (side_map sd s).

(** Priority order of the keys of each side. *)
Definition before (sd : Side) (a b : Price) : Prop :=
  match sd with
  | Buy => b < a
  | Sell => a < b
  end.

(** The comparison object of each side. *)
Definition comp_of (sd : Side) : Price → Price → bool :=
  match sd with
  | Buy => PriceMap.greater
  | Sell => PriceMap.less
  end.

(** A level holds at least one order, and only orders of its side and
    price. *)
Definition level_ok (sd : Side) (e : Price * list Order.t) : Prop :=
  e.2 ≠ [] ∧ Forall (λ o, Order.GetSide o = sd ∧ Order.GetPrice o = e.1) e.2.

Definition side_wf (sd : Side) (m : PriceMap.t) : Prop :=
  StronglySorted (before sd) (m.*1) ∧ Forall (level_ok sd) m.

(** The index holds exactly the orders [l], each under its identifier, and
    no two of them share an identifier. *)
Definition consistent (l : list Order.t) (orders : gmap N Order.t) : Prop :=
  NoDup (ids l)
  ∧ ∀ i o, orders !! i = Some o ↔ o ∈ l ∧ Order.GetOrderId o = i.

Definition book_wf (s : Orderbook.t) : Prop :=
  side_wf Buy (Orderbook.bids_ s) ∧ side_wf Sell (Orderbook.asks_ s)
  ∧ consistent (book_orders s) (Orderbook.orders_ s).

(** The best bid is below the best ask. *)
Definition uncrossed (s : Orderbook.t) : Prop :=
  match Orderbook.bids_ s, Orderbook.asks_ s with
  | (bidPrice, _) :: _, (askPrice, _) :: _ => bidPrice < askPrice
  | _, _ => True
  end.

(** No bid level is at or above an ask level. *)
Definition all_uncrossed (s : Orderbook.t) : Prop :=
  ∀ bidPrice askPrice,
    bidPrice ∈ (Orderbook.bids_ s).*1 → askPrice ∈ (Orderbook.asks_ s).*1 →
    bidPrice < askPrice.

Definition other (sd : Side) : Side :=
  match sd with
  | Buy => Sell
  | Sell => Buy
  end.

Definition is_gtc (o : Order.t) : Prop := Order.GetOrderType o = GoodTillCancel.

(** Every order of a side is good-till-cancel, the front order of the best
    level possibly excepted. *)
Definition gtc_behind_front (m : PriceMap.t) : Prop :=
  Forall is_gtc (drop 1 (side_orders m)).

(** The state between two public operations. *)
Definition book_inv (s : Orderbook.t) : Prop :=
  book_wf s ∧ uncrossed s ∧ Forall is_gtc (book_orders s).

(** The object an order becomes when [Fill] returns. *)
Definition filled_by (quantity : Quantity) (o : Order.t) : Order.t :=
  Order.mk (Order.orderType_ o) (Order.orderId_ o) (Order.side_ o)
    (Order.price_ o) (Order.initialQuantity_ o)
    (Order.remainingQuantity_ o - quantity)%N.

(** The best level of a side after its front order [o] has been filled:
    [o] stays in front unless it is filled, and the level goes with its
    last order. *)
Definition front_after (o : Order.t) : list Order.t :=
  if Order.IsFilled o then [] else [o].

Definition settle (price : Price) (o : Order.t) (q : list Order.t)
    (m : PriceMap.t) : PriceMap.t :=
  if Order.IsFilled o
  then match q with [] => m | _ :: _ => (price, q) :: m end
  else (price, o :: q) :: m.

Definition settle_index (bid ask : Order.t) (orders : gmap N Order.t)
    : gmap N Order.t :=
  let orders := Orderbook.shared ask (Orderbook.shared bid orders) in
  let orders :=
    if Order.IsFilled bid then delete (Order.GetOrderId bid) orders else orders in
  if Order.IsFilled ask then delete (Order.GetOrderId ask) orders else orders.

(** A level as it is left in its map: dropped when its queue is empty. *)
Definition level_entry (price : Price) (q : list Order.t) : PriceMap.t :=
  match q with
  | [] => []
  | _ :: _ => [(price, q)]
  end.

(** The book with the side [sd] replaced by [m] and [orderId] out of the
    index. *)
Definition cancelled (sd : Side) (m : PriceMap.t) (orderId : OrderId)
    (s : Orderbook.t) : Orderbook.t :=
  match sd with
  | Buy => Orderbook.mk m (Orderbook.asks_ s) (delete orderId (Orderbook.orders_ s))
  | Sell => Orderbook.mk (Orderbook.bids_ s) m (delete orderId (Orderbook.orders_ s))
  end.

Definition trade_of (bid ask : Order.t) (quantity : Quantity) : Trade.t :=
  Trade.mk
    (TradeInfo.mk (Order.GetOrderId bid) (Order.GetPrice bid) quantity)
    (TradeInfo.mk (Order.GetOrderId ask) (Order.GetPrice ask) quantity).

(** A run of the matching loop: each step is one execution of the body of
    the inner loop, on the front orders of the two best levels, which
    cross. *)
Inductive matching : Orderbook.t → list Trade.t → Orderbook.t → Prop :=
  | matching_done s : matching s [] s
  | matching_fill s bidPrice bid bids rb askPrice ask asks ra s1 t ts s2 :
      Orderbook.bids_ s = (bidPrice, bid :: bids) :: rb →
      Orderbook.asks_ s = (askPrice, ask :: asks) :: ra →
      askPrice ≤ bidPrice →
      Orderbook.match_front bidPrice askPrice s [] = Ok (s1, [t]) →
      matching s1 ts s2 →
      matching s (t :: ts) s2.

(* ===================================================================== *)
(** ** Vocabulary of the claims *)

(** An outcome other than the exception of [Order::Fill]. *)
Definition no_logic_error {A} (r : result A) : Prop :=
  ∀ orderId, r ≠ Throw (logic_error orderId).

(** Modification as the specification words it: cancel the live order,
    then submit a fresh order with the same identifier, the time-in-force
    of the cancelled order, and the supplied side, price and quantity; no
    trade and no change for an identifier that is not live. *)
Definition cancel_then_submit (orderId : OrderId) (side : Side) (price : Price)
    (quantity : Quantity) (s : Orderbook.t) : result (list Trade.t * Orderbook.t) :=
  match Orderbook.orders_ s !! orderId with
  | None => Ok ([], s)
  | Some cancelledOrder =>
      s1 ← Orderbook.CancelOrder orderId s;
      Orderbook.AddOrder
        (Order.new (Order.GetOrderType cancelledOrder) orderId side price quantity) s1
  end.

(** A submission of side [sd] at [price] cannot cross: the opposite side
    is empty, or its best price is out of reach. *)
Definition cannot_cross (sd : Side) (price : Price) (s : Orderbook.t) : Prop :=
  match sd with
  | Buy =>
      match Orderbook.asks_ s with
      | [] => True
      | (bestAsk, _) :: _ => price < bestAsk
      end
  | Sell =>
      match Orderbook.bids_ s with
      | [] => True
      | (bestBid, _) :: _ => bestBid < price
      end
  end.

(** The live orders of one side at one price, from the index. *)
Definition live_at (sd : Side) (price : Price) (s : Orderbook.t) : list Order.t :=
  filter (λ o, Order.GetSide o = sd ∧ Order.GetPrice o = price)
    ((map_to_list (Orderbook.orders_ s)).*2).

(** Sum of remaining quantities, as a natural number. *)
Definition total_remaining (l : list Order.t) : N :=
  foldr (λ o acc, (Order.GetRemainingQuantity o + acc)%N) 0%N l.

Definition side_infos (sd : Side) (i : OrderbookLevelInfos.t) : list LevelInfo.t :=
  match sd with
  | Buy => OrderbookLevelInfos.GetBids i
  | Sell => OrderbookLevelInfos.GetAsks i
  end.

(** The record of a trade for the order of side [sd]. *)
Definition side_trade (sd : Side) (t : Trade.t) : TradeInfo.t :=
  match sd with
  | Buy => Trade.GetBidTrade t
  | Sell => Trade.GetAskTrade t
  end.

(** Quantity the trades [ts] took from the order [orderId] of side [sd]. *)
Definition filled_on (sd : Side) (orderId : OrderId) (ts : list Trade.t) : N :=
  foldr
    (λ t acc,
       if (TradeInfo.orderId_ (side_trade sd t) =? orderId)%N
       then (TradeInfo.quantity_ (side_trade sd t) + acc)%N
       else acc)
    0%N ts.

(** The identifiers queued at a price level of a side, in queue order. *)
Definition level_ids (sd : Side) (price : Price) (s : Orderbook.t) : list N :=
  ids (default [] (level sd price s)).

(** The identifier an operation is about. *)
Definition op_id (op : Op) : OrderId :=
  match op with
  | Submit _ orderId _ _ _ => orderId
  | Cancel orderId => orderId
  | Modify orderId _ _ _ => orderId
  end.

(** A submission or modification with a positive quantity. *)
Definition positive_quantity (op : Op) : Prop :=
  match op with
  | Submit _ _ _ _ quantity => (0 < quantity)%N
  | Cancel _ => True
  | Modify _ _ _ quantity => (0 < quantity)%N
  end.

(* ===================================================================== *)
(** ** Concrete books *)

(** A bid of 10 at 100, hit by a fill-and-kill sell of 4. *)
Definition ops_hit : list Op :=
  [Submit GoodTillCancel 1 Buy 100 10; Submit FillandKill 2 Sell 100 4].

Definition book_hit : Orderbook.t :=
  Orderbook.mk
    [(100, [Order.mk GoodTillCancel 1 Buy 100 10 6])] []
    {[ 1%N := Order.mk GoodTillCancel 1 Buy 100 10 6 ]}.

(** A resting order of quantity zero. *)
Definition ops_zero : list Op := [Submit GoodTillCancel 1 Buy 100 0].

Definition book_zero : Orderbook.t :=
  Orderbook.mk
    [(100, [Order.mk GoodTillCancel 1 Buy 100 0 0])] []
    {[ 1%N := Order.mk GoodTillCancel 1 Buy 100 0 0 ]}.

(** Two bids of 2^31 at the same price. *)
Definition ops_large : list Op :=
  [Submit GoodTillCancel 1 Buy 100 2147483648;
   Submit GoodTillCancel 2 Buy 100 2147483648].

Definition book_large : Orderbook.t :=
  Orderbook.mk
    [(100, [Order.mk GoodTillCancel 1 Buy 100 2147483648 2147483648;
            Order.mk GoodTillCancel 2 Buy 100 2147483648 2147483648])] []
    (<[ 2%N := Order.mk GoodTillCancel 2 Buy 100 2147483648 2147483648 ]>
       {[ 1%N := Order.mk GoodTillCancel 1 Buy 100 2147483648 2147483648 ]}).

(* ===================================================================== *)
(** ** Vocabulary of the further properties *)

(** The executed quantities of a sequence of trades, added up. *)
Definition trades_quantity (ts : list Trade.t) : N :=
  foldr (λ t acc, (TradeInfo.quantity_ (Trade.GetBidTrade t) + acc)%N) 0%N ts.

(** A price [own] of the side [sd] does not reach a price [opp] of the
    opposite side. *)
Definition apart (sd : Side) (own opp : Price) : Prop :=
  match sd with
  | Buy => own < opp
  | Sell => opp < own
  end.

(** The orders an operation constructs satisfy [P]; a modification
    constructs its order with the type of the order it replaces. *)
Definition op_submits (P : Order.t → Prop) (op : Op) : Prop :=
  match op with
  | Submit orderType orderId side price quantity =>
      P (Order.new orderType orderId side price quantity)
  | Cancel _ => True
  | Modify orderId side price quantity =>
      ∀ orderType, P (Order.new orderType orderId side price quantity)
  end.

(** The quantity of an operation is a [std::uint32_t]. *)
Definition quantity_in_range (op : Op) : Prop :=
  match op with
  | Submit _ _ _ _ quantity => (quantity < 2 ^ 32)%N
  | Cancel _ => True
  | Modify _ _ _ quantity => (quantity < 2 ^ 32)%N
  end.

(** An order is what became of another through fills: same type,
    identifier, side, price and initial quantity, and no more remaining
    quantity. *)
Definition fills_of (x x' : Order.t) : Prop :=
  Order.GetOrderType x' = Order.GetOrderType x
  ∧ Order.GetOrderId x' = Order.GetOrderId x
  ∧ Order.GetSide x' = Order.GetSide x
  ∧ Order.GetPrice x' = Order.GetPrice x
  ∧ Order.GetInitialQuantity x' = Order.GetInitialQuantity x
  ∧ (Order.GetRemainingQuantity x' ≤ Order.GetRemainingQuantity x)%N.

(* ===================================================================== *)
(** ** Further concrete books *)

(** The book [book_hit] after a sell of 4 at 100 under the identifier 2,
    and the trade of that sell. *)
Definition book_hit_sold : Orderbook.t :=
  Orderbook.mk
    [(100, [Order.mk GoodTillCancel 1 Buy 100 10 2])] []
    {[ 1%N := Order.mk GoodTillCancel 1 Buy 100 10 2 ]}.

Definition trades_hit_sold : list Trade.t :=
  [Trade.mk (TradeInfo.mk 1 100 4) (TradeInfo.mk 2 100 4)].

(** A bid at 100 and an ask at 102. *)
Definition ops_spread : list Op :=
  [Submit GoodTillCancel 1 Buy 100 5; Submit GoodTillCancel 2 Sell 102 5].

Definition book_spread : Orderbook.t :=
  Orderbook.mk
    [(100, [Order.mk GoodTillCancel 1 Buy 100 5 5])]
    [(102, [Order.mk GoodTillCancel 2 Sell 102 5 5])]
    (<[ 2%N := Order.mk GoodTillCancel 2 Sell 102 5 5 ]>
       {[ 1%N := Order.mk GoodTillCancel 1 Buy 100 5 5 ]}).

(** Two bids, the later one at the better price; the book after a sell of
    8 at 100 under the identifier 3, and the trades of that sell. *)
Definition ops_levels : list Op :=
  [Submit GoodTillCancel 1 Buy 100 5; Submit GoodTillCancel 2 Buy 101 5].

Definition book_levels : Orderbook.t :=
  Orderbook.mk
    [(101, [Order.mk GoodTillCancel 2 Buy 101 5 5]);
     (100, [Order.mk GoodTillCancel 1 Buy 100 5 5])] []
    (<[ 2%N := Order.mk GoodTillCancel 2 Buy 101 5 5 ]>
       {[ 1%N := Order.mk GoodTillCancel 1 Buy 100 5 5 ]}).

Definition book_levels_sold : Orderbook.t :=
  Orderbook.mk
    [(100, [Order.mk GoodTillCancel 1 Buy 100 5 2])] []
    {[ 1%N := Order.mk GoodTillCancel 1 Buy 100 5 2 ]}.

Definition trades_levels_sold : list Trade.t :=
  [Trade.mk (TradeInfo.mk 2 101 5) (TradeInfo.mk 3 100 5);
   Trade.mk (TradeInfo.mk 1 100 3) (TradeInfo.mk 3 100 3)].

(** The book [book_spread] after a fill-and-kill sell of 9 at 100 under
    the identifier 3, and the trade of that sell. *)
Definition book_spread_sold : Orderbook.t :=
  Orderbook.mk
    [] [(102, [Order.mk GoodTillCancel 2 Sell 102 5 5])]
    {[ 2%N := Order.mk GoodTillCancel 2 Sell 102 5 5 ]}.

Definition trades_spread_sold : list Trade.t :=
  [Trade.mk (TradeInfo.mk 1 100 5) (TradeInfo.mk 3 100 5)].

(* ===================================================================== *)
(** ** The result monad *)

Lemma bind_Ok {A B} (f : A → result B) (a : A) : (Ok a ≫= f) = f a.
Proof. reflexivity. Qed.

Lemma bind_Ok_inv {A B} (f : A → result B) (r : result A) (b : B) :
  (r ≫= f) = Ok b → ∃ a, r = Ok a ∧ f a = Ok b.
Proof. destruct r as [a| |]; simpl; [eauto | done | done]. Qed.

Lemma bind_logic_error_inv {A B} (f : A → result B) (r : result A) i :
  (r ≫= f) = Throw (logic_error i) →
  r = Throw (logic_error i) ∨ ∃ a, r = Ok a ∧ f a = Throw (logic_error i).
Proof. destruct r as [a| |]; simpl; [eauto | intros [= ->]; eauto | done]. Qed.

(* ===================================================================== *)
(** ** Facts about the price maps *)

Lemma find_not_key price (m : PriceMap.t) :
  price ∉ m.*1 → PriceMap.find price m = None.
Proof.
  induction m as [|[k q] m IH]; simpl; [done |].
  intros Hn. destruct (Z.eqb_spec price k) as [->|Hne].
  - exfalso. apply Hn. left.
  - apply IH. intros Hin. apply Hn. by right.
Qed.

Lemma find_Some_elem price q (m : PriceMap.t) :
  PriceMap.find price m = Some q → (price, q) ∈ m.
Proof.
  induction m as [|[k q'] m IH]; simpl; [done |].
  destruct (Z.eqb_spec price k) as [->|Hne].
  - intros [= ->]. left.
  - intros H. right. auto.
Qed.

Lemma elem_find price q (m : PriceMap.t) :
  NoDup (m.*1) → (price, q) ∈ m → PriceMap.find price m = Some q.
Proof.
  induction m as [|[k q'] m IH]; simpl.
  - intros _ H. by apply elem_of_nil in H.
  - intros Hnd Hin. apply NoDup_cons in Hnd as [Hk Hnd].
    apply elem_of_cons in Hin as [[= <- <-]|Hin].
    + by rewrite Z.eqb_refl.
    + destruct (Z.eqb_spec price k) as [->|Hne]; [|by apply IH].
      exfalso. apply Hk. apply list_elem_of_fmap. by exists (k, q).
Qed.

Lemma sorted_NoDup sd (l : list Z) : StronglySorted (before sd) l → NoDup l.
Proof.
  induction 1 as [|a l Hs IH Hall]; constructor; [|done].
  intros Hin. rewrite Forall_forall in Hall. specialize (Hall _ Hin).
  destruct sd; simpl in Hall; lia.
Qed.

Lemma update_keys price f (m : PriceMap.t) : (PriceMap.update price f m).*1 = m.*1.
Proof.
  induction m as [|[k q] m IH]; [done |]. simpl.
  destruct (price =? k); csimpl; [done | by rewrite IH].
Qed.

Lemma match_front_eq bidPrice bid bids rb askPrice ask asks ra orders trades :
  let quantity :=
    N.min (Order.GetRemainingQuantity bid) (Order.GetRemainingQuantity ask) in
  let bid' := filled_by quantity bid in
  let ask' := filled_by quantity ask in
  Orderbook.match_front bidPrice askPrice
    (Orderbook.mk ((bidPrice, bid :: bids) :: rb) ((askPrice, ask :: asks) :: ra) orders)
    trades
  = Ok (Orderbook.mk (settle bidPrice bid' bids rb) (settle askPrice ask' asks ra)
          (settle_index bid' ask' orders),
        trades ++ [trade_of bid ask quantity]).
Proof.
  intros quantity bid' ask'.
  unfold Orderbook.match_front, Orderbook.queue. simpl.
  rewrite !Z.eqb_refl. simpl.
  unfold Order.Fill.
  assert (Hb : (Order.GetRemainingQuantity bid <? quantity)%N = false)
    by (apply N.ltb_ge; unfold quantity; lia).
  assert (Ha : (Order.GetRemainingQuantity ask <? quantity)%N = false)
    by (apply N.ltb_ge; unfold quantity; lia).
  fold quantity. rewrite Hb, Ha. simpl.
  fold (filled_by quantity bid) (filled_by quantity ask). fold bid' ask'.
  unfold settle, settle_index, trade_of.
  destruct (Order.IsFilled bid'), (Order.IsFilled ask'); simpl;
    rewrite ?Z.eqb_refl; simpl;
    destruct bids, asks; simpl; rewrite ?Z.eqb_refl; simpl; reflexivity.
Qed.

(* ===================================================================== *)
(** ** The index against the queues *)

Lemma consistent_perm l l' orders :
  l ≡ₚ l' → consistent l orders → consistent l' orders.
Proof.
  intros Hp [Hnd Hix]. split.
  - unfold ids in *. by rewrite <- Hp.
  - intros i o. rewrite Hix. by rewrite Hp.
Qed.

Lemma consistent_lookup l orders o :
  consistent l orders → o ∈ l → orders !! Order.GetOrderId o = Some o.
Proof. intros [_ Hix] Hin. by apply Hix. Qed.

Lemma consistent_id_inj l orders a b :
  consistent l orders → a ∈ l → b ∈ l →
  Order.GetOrderId a = Order.GetOrderId b → a = b.
Proof.
  intros Hc Ha Hb Hid.
  pose proof (consistent_lookup _ _ _ Hc Ha) as H1.
  pose proof (consistent_lookup _ _ _ Hc Hb) as H2.
  rewrite Hid in H1. congruence.
Qed.

Lemma consistent_head_fresh x l orders :
  consistent (x :: l) orders → Order.GetOrderId x ∉ ids l.
Proof. intros [Hnd _]. unfold ids in Hnd. csimpl in Hnd. by apply NoDup_cons in Hnd as [? _]. Qed.

Lemma consistent_alter x x' l orders :
  Order.GetOrderId x' = Order.GetOrderId x →
  consistent (x :: l) orders →
  consistent (x' :: l) (Orderbook.shared x' orders).
Proof.
  intros Hid Hc. pose proof (consistent_head_fresh _ _ _ Hc) as Hfresh.
  destruct Hc as [Hnd Hix]. split.
  - unfold ids in *. csimpl in *. by rewrite Hid.
  - intros i o. unfold Orderbook.shared. rewrite Hid.
    destruct (decide (i = Order.GetOrderId x)) as [->|Hne].
    + rewrite lookup_alter_eq.
      assert (Hx : orders !! Order.GetOrderId x = Some x) by (apply Hix; split; [left | done]).
      rewrite Hx. simpl. split.
      * intros [= <-]. split; [left | done].
      * intros [Hin Hio]. apply elem_of_cons in Hin as [->|Hin]; [done |].
        exfalso. apply Hfresh. rewrite <- Hio. by apply list_elem_of_fmap_2.
    + rewrite lookup_alter_ne by done. rewrite Hix. split.
      * intros [Hin Hio]. split; [|done].
        apply elem_of_cons in Hin as [->|Hin]; [done | by right].
      * intros [Hin Hio]. split; [|done].
        apply elem_of_cons in Hin as [->|Hin]; [congruence | by right].
Qed.

Lemma consistent_delete x l orders :
  consistent (x :: l) orders →
  consistent l (delete (Order.GetOrderId x) orders).
Proof.
  intros Hc. pose proof (consistent_head_fresh _ _ _ Hc) as Hfresh.
  destruct Hc as [Hnd Hix]. split.
  - unfold ids in *. csimpl in *. by apply NoDup_cons in Hnd as [_ ?].
  - intros i o. destruct (decide (i = Order.GetOrderId x)) as [->|Hne].
    + rewrite lookup_delete_eq. split; [done |].
      intros [Hin Hio]. exfalso. apply Hfresh. rewrite <- Hio.
      by apply list_elem_of_fmap_2.
    + rewrite lookup_delete_ne by done. rewrite Hix. split.
      * intros [Hin Hio]. split; [|done].
        apply elem_of_cons in Hin as [->|Hin]; [done | done].
      * intros [Hin Hio]. split; [by right | done].
Qed.

Lemma consistent_insert x l orders :
  orders !! Order.GetOrderId x = None →
  consistent l orders →
  consistent (x :: l) (Orderbook.index_insert x orders).
Proof.
  intros Hnone [Hnd Hix]. unfold Orderbook.index_insert. rewrite Hnone. split.
  - unfold ids in *. csimpl. apply NoDup_cons. split; [|done].
    intros Hin. apply list_elem_of_fmap in Hin as (y & Hy & Hin).
    assert (orders !! Order.GetOrderId x = Some y) by (apply Hix; done).
    congruence.
  - intros i o. destruct (decide (i = Order.GetOrderId x)) as [->|Hne].
    + rewrite lookup_insert_eq. split.
      * intros [= <-]. split; [left | done].
      * intros [Hin Hio]. apply elem_of_cons in Hin as [->|Hin]; [done |].
        assert (orders !! Order.GetOrderId x = Some o) by (apply Hix; done).
        congruence.
    + rewrite lookup_insert_ne by done. rewrite Hix. split.
      * intros [Hin Hio]. split; [by right | done].
      * intros [Hin Hio]. split; [|done].
        apply elem_of_cons in Hin as [->|Hin]; [congruence | done].
Qed.

(* ===================================================================== *)
(** ** One step of matching *)

Lemma side_orders_cons p q (m : PriceMap.t) :
  side_orders ((p, q) :: m) = q ++ side_orders m.
Proof. reflexivity. Qed.

Lemma side_orders_app (m1 m2 : PriceMap.t) :
  side_orders (m1 ++ m2) = side_orders m1 ++ side_orders m2.
Proof. unfold side_orders. by rewrite fmap_app, join_app. Qed.

Lemma side_orders_settle p o q m :
  side_orders (settle p o q m) = front_after o ++ q ++ side_orders m.
Proof.
  unfold settle, front_after. destruct (Order.IsFilled o); [|done].
  by destruct q.
Qed.

Lemma settle_cons p o q m x l :
  front_after o ++ q = x :: l → settle p o q m = (p, x :: l) :: m.
Proof.
  unfold settle, front_after. destruct (Order.IsFilled o); simpl.
  - intros ->. done.
  - intros [= <- <-]. done.
Qed.

Lemma settle_nil p o q m :
  front_after o ++ q = [] → settle p o q m = m.
Proof.
  unfold settle, front_after. destruct (Order.IsFilled o); simpl; [|done].
  by intros ->.
Qed.

Lemma side_wf_cons sd p q m :
  side_wf sd ((p, q) :: m)
  ↔ side_wf sd m ∧ Forall (before sd p) (m.*1) ∧ level_ok sd (p, q).
Proof.
  unfold side_wf. csimpl. split.
  - intros [Hs Hl]. apply StronglySorted_inv in Hs as [Hs Hall].
    apply Forall_cons in Hl as [Hpq Hl]. done.
  - intros [[Hs Hl] [Hall Hpq]]. split; [by constructor | by constructor].
Qed.

Lemma side_wf_head_fresh sd p q m :
  side_wf sd ((p, q) :: m) → p ∉ m.*1.
Proof.
  intros [Hs _]. apply sorted_NoDup in Hs. csimpl in Hs.
  by apply NoDup_cons in Hs as [? _].
Qed.

Lemma filled_by_id quantity o :
  Order.GetOrderId (filled_by quantity o) = Order.GetOrderId o.
Proof. reflexivity. Qed.

Lemma filled_by_type quantity o :
  Order.GetOrderType (filled_by quantity o) = Order.GetOrderType o.
Proof. reflexivity. Qed.

Lemma side_wf_settle sd p o o' q m :
  Order.GetSide o' = Order.GetSide o → Order.GetPrice o' = Order.GetPrice o →
  side_wf sd ((p, o :: q) :: m) → side_wf sd (settle p o' q m).
Proof.
  intros Hsd Hpr Hwf. apply side_wf_cons in Hwf as (Hm & Hall & Hne & Hq).
  simpl in Hq. apply Forall_cons in Hq as [Ho Hq].
  destruct (front_after o' ++ q) as [|x l] eqn:E.
  - by rewrite (settle_nil _ _ _ _ E).
  - rewrite (settle_cons _ _ _ _ _ _ E). apply side_wf_cons.
    split; [done |]. split; [done |]. split; [done |]. simpl. rewrite <- E.
    apply Forall_app. split; [|done].
    unfold front_after. destruct (Order.IsFilled o'); [constructor |].
    constructor; [|constructor]. by rewrite Hsd, Hpr.
Qed.

Lemma consistent_settle bid bid' ask ask' lb la orders :
  Order.GetOrderId bid' = Order.GetOrderId bid →
  Order.GetOrderId ask' = Order.GetOrderId ask →
  consistent ((bid :: lb) ++ ask :: la) orders →
  consistent ((front_after bid' ++ lb) ++ front_after ask' ++ la)
    (settle_index bid' ask' orders).
Proof.
  intros Hb Ha Hc.
  assert (H0 : consistent (bid :: ask :: lb ++ la) orders).
  { eapply consistent_perm; [|exact Hc]. simpl. constructor.
    symmetry. apply Permutation_middle. }
  apply (consistent_alter _ bid') in H0; [|done].
  assert (H1 : consistent (ask :: bid' :: lb ++ la) (Orderbook.shared bid' orders)).
  { eapply consistent_perm; [|exact H0]. apply perm_swap. }
  apply (consistent_alter _ ask') in H1; [|done].
  unfold settle_index, front_after.
  destruct (Order.IsFilled bid') eqn:Eb.
  - assert (H2 : consistent (bid' :: ask' :: lb ++ la)
                   (Orderbook.shared ask' (Orderbook.shared bid' orders))).
    { eapply consistent_perm; [|exact H1]. apply perm_swap. }
    apply consistent_delete in H2.
    destruct (Order.IsFilled ask') eqn:Ea.
    + apply consistent_delete in H2. done.
    + eapply consistent_perm; [|exact H2]. simpl. apply Permutation_middle.
  - destruct (Order.IsFilled ask') eqn:Ea.
    + apply consistent_delete in H1. done.
    + eapply consistent_perm; [|exact H1]. simpl.
      etrans; [apply perm_swap |]. constructor. apply Permutation_middle.
Qed.

(** The state one step of matching leads to. *)
Lemma match_front_step s bidPrice bid bids rb askPrice ask asks ra trades :
  Orderbook.bids_ s = (bidPrice, bid :: bids) :: rb →
  Orderbook.asks_ s = (askPrice, ask :: asks) :: ra →
  let quantity :=
    N.min (Order.GetRemainingQuantity bid) (Order.GetRemainingQuantity ask) in
  Orderbook.match_front bidPrice askPrice s trades
  = Ok (Orderbook.mk
          (settle bidPrice (filled_by quantity bid) bids rb)
          (settle askPrice (filled_by quantity ask) asks ra)
          (settle_index (filled_by quantity bid) (filled_by quantity ask)
             (Orderbook.orders_ s)),
        trades ++ [trade_of bid ask quantity]).
Proof.
  destruct s as [b a o]. simpl. intros -> ->. apply match_front_eq.
Qed.

Lemma match_front_wf s bidPrice bid bids rb askPrice ask asks ra trades s1 trades1 :
  Orderbook.bids_ s = (bidPrice, bid :: bids) :: rb →
  Orderbook.asks_ s = (askPrice, ask :: asks) :: ra →
  Orderbook.match_front bidPrice askPrice s trades = Ok (s1, trades1) →
  book_wf s → book_wf s1.
Proof.
  intros Hb Ha Hm (Hwb & Hwa & Hc).
  rewrite (match_front_step _ _ _ _ _ _ _ _ _ _ Hb Ha) in Hm.
  injection Hm as <- <-. rewrite Hb in Hwb. rewrite Ha in Hwa.
  split; [|split]; simpl.
  - by eapply side_wf_settle; [| |exact Hwb].
  - by eapply side_wf_settle; [| |exact Hwa].
  - unfold book_orders in *. simpl. rewrite Hb, Ha in Hc.
    rewrite !side_orders_settle. rewrite !side_orders_cons in Hc.
    apply consistent_settle with (bid := bid) (ask := ask); done.
Qed.

(* ===================================================================== *)
(** ** The matching loops *)

Lemma queue_head p q (m : PriceMap.t) : Orderbook.queue p ((p, q) :: m) = q.
Proof. unfold Orderbook.queue. simpl. by rewrite Z.eqb_refl. Qed.

Lemma queue_not_key p (m : PriceMap.t) : p ∉ m.*1 → Orderbook.queue p m = [].
Proof. intros H. unfold Orderbook.queue. by rewrite find_not_key. Qed.

Lemma match_level_exit n bidPrice askPrice s trades :
  Orderbook.queue bidPrice (Orderbook.bids_ s) = []
  ∨ Orderbook.queue askPrice (Orderbook.asks_ s) = [] →
  Orderbook.match_level (S n) bidPrice askPrice s trades = Ok (s, trades).
Proof.
  intros [H|H]; simpl; rewrite H; [done |].
  by destruct (Orderbook.queue bidPrice (Orderbook.bids_ s)).
Qed.

Lemma matching_app s ts1 s1 ts2 s2 :
  matching s ts1 s1 → matching s1 ts2 s2 → matching s (ts1 ++ ts2) s2.
Proof.
  induction 1 as [|s bp bid bids rb ap ask asks ra s1 t ts s3 Hb Ha Hle Hm Hrest IH];
    intros H2; [done |].
  simpl. eapply matching_fill; eauto.
Qed.

Lemma front_after_length o : (length (front_after o) ≤ 1)%nat.
Proof. unfold front_after. destruct (Order.IsFilled o); simpl; lia. Qed.

(** The executed quantity is the minimum of the two: one of the two front
    orders is filled. *)
Lemma min_fills bid ask :
  let quantity :=
    N.min (Order.GetRemainingQuantity bid) (Order.GetRemainingQuantity ask) in
  front_after (filled_by quantity bid) = []
  ∨ front_after (filled_by quantity ask) = [].
Proof.
  intros quantity. unfold front_after, Order.IsFilled, filled_by. simpl.
  unfold Order.GetRemainingQuantity in *.
  destruct (N.le_ge_cases (Order.remainingQuantity_ bid) (Order.remainingQuantity_ ask)).
  - left. replace (_ =? 0)%N with true; [done |].
    symmetry. apply N.eqb_eq. unfold quantity. lia.
  - right. replace (_ =? 0)%N with true; [done |].
    symmetry. apply N.eqb_eq. unfold quantity. lia.
Qed.

Lemma settle_length p o q m :
  (length (settle p o q m) ≤ S (length m))%nat.
Proof.
  unfold settle. destruct (Order.IsFilled o); [destruct q|]; simpl; lia.
Qed.

Lemma match_level_run n :
  ∀ s bidPrice bid bids rb askPrice ask asks ra trades,
  book_wf s →
  Orderbook.bids_ s = (bidPrice, bid :: bids) :: rb →
  Orderbook.asks_ s = (askPrice, ask :: asks) :: ra →
  askPrice ≤ bidPrice →
  (length (bid :: bids) + length (ask :: asks) < n)%nat →
  ∃ s' ts,
    Orderbook.match_level n bidPrice askPrice s trades = Ok (s', trades ++ ts)
    ∧ matching s ts s' ∧ ts ≠ [] ∧ book_wf s'
    ∧ (length (Orderbook.bids_ s') + length (Orderbook.asks_ s')
       < length (Orderbook.bids_ s) + length (Orderbook.asks_ s))%nat.
Proof.
  induction n as [|n IH]; intros s bp bid bids rb ap ask asks ra trades
    Hwf Hb Ha Hle Hn; [simpl in Hn; lia |].
  pose proof (match_front_step s _ _ _ _ _ _ _ _ trades Hb Ha) as Hstep.
  pose proof (match_front_step s _ _ _ _ _ _ _ _ [] Hb Ha) as Hstep0.
  simpl in Hstep, Hstep0.
  set (quantity := N.min (Order.GetRemainingQuantity bid)
                     (Order.GetRemainingQuantity ask)) in *.
  set (bid' := filled_by quantity bid) in *.
  set (ask' := filled_by quantity ask) in *.
  set (s1 := Orderbook.mk _ _ _) in *.
  set (t := trade_of bid ask quantity) in *.
  assert (Hwf1 : book_wf s1) by (eapply match_front_wf; eauto).
  assert (Hfb : bp ∉ rb.*1).
  { destruct Hwf as (Hwb & _). rewrite Hb in Hwb. by eapply side_wf_head_fresh. }
  assert (Hfa : ap ∉ ra.*1).
  { destruct Hwf as (_ & Hwa & _). rewrite Ha in Hwa. by eapply side_wf_head_fresh. }
  assert (Hunfold : Orderbook.match_level (S n) bp ap s trades
                    = Orderbook.match_level n bp ap s1 (trades ++ [t])).
  { simpl. rewrite Hb, Ha, !queue_head. by rewrite Hstep. }
  rewrite Hunfold.
  assert (Hone : matching s [t] s1).
  { eapply matching_fill; eauto. constructor. }
  destruct n as [|n]; [simpl in Hn; lia |].
  pose proof (min_fills bid ask) as Hmin. simpl in Hmin.
  fold quantity in Hmin. fold bid' ask' in Hmin.
  pose proof (front_after_length bid') as Hlb.
  pose proof (front_after_length ask') as Hla.
  destruct (front_after bid' ++ bids) as [|x lb] eqn:Eb.
  { (* the bid level is exhausted *)
    exists s1, [t]. split; [|split; [done | split; [done | split; [done |]]]].
    - apply match_level_exit. left. simpl.
      rewrite (settle_nil _ _ _ _ Eb). by apply queue_not_key.
    - simpl. rewrite (settle_nil _ _ _ _ Eb). rewrite Hb, Ha. simpl.
      pose proof (settle_length ap ask' asks ra). lia. }
  destruct (front_after ask' ++ asks) as [|y la] eqn:Ea.
  { (* the ask level is exhausted *)
    exists s1, [t]. split; [|split; [done | split; [done | split; [done |]]]].
    - apply match_level_exit. right. simpl.
      rewrite (settle_nil _ _ _ _ Ea). by apply queue_not_key.
    - simpl. rewrite (settle_nil _ _ _ _ Ea). rewrite Hb, Ha. simpl.
      pose proof (settle_length bp bid' bids rb). lia. }
  (* both levels still hold an order: the loop goes on *)
  assert (Hb1 : Orderbook.bids_ s1 = (bp, x :: lb) :: rb)
    by (simpl; by apply settle_cons).
  assert (Ha1 : Orderbook.asks_ s1 = (ap, y :: la) :: ra)
    by (simpl; by apply settle_cons).
  assert (Hlen : (length (x :: lb) + length (y :: la) < S n)%nat).
  { rewrite <- Eb, <- Ea. rewrite !length_app. simpl in Hn.
    destruct Hmin as [E|E]; rewrite E in *; simpl in *; lia. }
  destruct (IH s1 _ _ _ _ _ _ _ _ (trades ++ [t]) Hwf1 Hb1 Ha1 Hle Hlen)
    as (s' & ts & Hrun & Hmt & _ & Hwf' & Hlv).
  exists s', (t :: ts). split; [|split; [|split; [done | split; [done |]]]].
  - rewrite Hrun. by rewrite <- app_assoc.
  - by apply (matching_app _ [t] s1).
  - rewrite Hb1, Ha1 in Hlv. rewrite Hb, Ha. simpl in *. lia.
Qed.

Lemma uncrossed_nil_l s : Orderbook.bids_ s = [] → uncrossed s.
Proof. unfold uncrossed. by intros ->. Qed.

Lemma uncrossed_nil_r s : Orderbook.asks_ s = [] → uncrossed s.
Proof. unfold uncrossed. intros ->. by destruct (Orderbook.bids_ s) as [|[]]. Qed.

Lemma side_wf_front sd p q m :
  side_wf sd ((p, q) :: m) → ∃ o q', q = o :: q'.
Proof.
  intros H. apply side_wf_cons in H as (_ & _ & Hne & _). simpl in Hne.
  destruct q; [done | eauto].
Qed.

Lemma match_loop_S n s trades :
  Orderbook.match_loop (S n) s trades
  = match PriceMap.begin (Orderbook.bids_ s), PriceMap.begin (Orderbook.asks_ s) with
    | Some (bidPrice, _), Some (askPrice, _) =>
        if bidPrice <? askPrice then Ok (s, trades)
        else
          '(s', trades') ←
            Orderbook.match_level (Orderbook.level_fuel bidPrice askPrice s)
              bidPrice askPrice s trades;
          Orderbook.match_loop n s' trades'
    | _, _ => Ok (s, trades)
    end.
Proof. reflexivity. Qed.

Lemma match_loop_run n :
  ∀ s trades,
  book_wf s →
  (length (Orderbook.bids_ s) + length (Orderbook.asks_ s) < n)%nat →
  ∃ s' ts,
    Orderbook.match_loop n s trades = Ok (s', trades ++ ts)
    ∧ matching s ts s' ∧ book_wf s' ∧ uncrossed s'.
Proof.
  induction n as [|n IH]; intros s trades Hwf Hn; [lia |].
  rewrite match_loop_S.
  destruct (Orderbook.bids_ s) as [|[bp qb] rb] eqn:Hb.
  { exists s, []. rewrite app_nil_r. simpl.
    split; [done | split; [constructor | split; [done |]]].
    by apply uncrossed_nil_l. }
  destruct (Orderbook.asks_ s) as [|[ap qa] ra] eqn:Ha.
  { exists s, []. rewrite app_nil_r. simpl.
    split; [done | split; [constructor | split; [done |]]].
    by apply uncrossed_nil_r. }
  simpl PriceMap.begin. cbv beta iota.
  destruct (Z.ltb_spec bp ap) as [Hlt|Hge].
  { exists s, []. rewrite app_nil_r.
    split; [done | split; [constructor | split; [done |]]].
    unfold uncrossed. by rewrite Hb, Ha. }
  pose proof Hwf as (Hwb & Hwa & _). rewrite Hb in Hwb. rewrite Ha in Hwa.
  destruct (side_wf_front _ _ _ _ Hwb) as (bid & bids & ->).
  destruct (side_wf_front _ _ _ _ Hwa) as (ask & asks & ->).
  destruct (match_level_run (Orderbook.level_fuel bp ap s) s bp bid bids rb
              ap ask asks ra trades Hwf Hb Ha Hge)
    as (s1 & ts1 & Hrun1 & Hm1 & _ & Hwf1 & Hlv).
  { unfold Orderbook.level_fuel. rewrite Hb, Ha, !queue_head. lia. }
  rewrite Hrun1. simpl.
  destruct (IH s1 (trades ++ ts1) Hwf1) as (s2 & ts2 & Hrun2 & Hm2 & Hwf2 & Hu2).
  { rewrite Hb, Ha in Hlv. simpl in *. lia. }
  exists s2, (ts1 ++ ts2). rewrite Hrun2, <- app_assoc.
  split; [done | split; [by eapply matching_app | done]].
Qed.

(* ===================================================================== *)
(** ** Cancellation *)

Lemma find_app_not_key p (m1 m : PriceMap.t) :
  p ∉ m1.*1 → PriceMap.find p (m1 ++ m) = PriceMap.find p m.
Proof.
  induction m1 as [|[k q] m1 IH]; [done |]. csimpl. intros Hn.
  apply not_elem_of_cons in Hn as [Hne Hn].
  destruct (Z.eqb_spec p k); [done | by apply IH].
Qed.

Lemma update_app_not_key p f (m1 m : PriceMap.t) :
  p ∉ m1.*1 → PriceMap.update p f (m1 ++ m) = m1 ++ PriceMap.update p f m.
Proof.
  induction m1 as [|[k q] m1 IH]; [done |]. csimpl. intros Hn.
  apply not_elem_of_cons in Hn as [Hne Hn].
  destruct (Z.eqb_spec p k); [done | by rewrite IH].
Qed.

Lemma erase_app_not_key p (m1 m : PriceMap.t) :
  p ∉ m1.*1 → PriceMap.erase p (m1 ++ m) = m1 ++ PriceMap.erase p m.
Proof.
  induction m1 as [|[k q] m1 IH]; [done |]. csimpl. intros Hn.
  apply not_elem_of_cons in Hn as [Hne Hn].
  destruct (Z.eqb_spec p k); [done | by rewrite IH].
Qed.

Lemma erase_at_split i q1 o q2 :
  i ∉ ids q1 → Order.GetOrderId o = i →
  Orderbook.erase_at i (q1 ++ o :: q2) = q1 ++ q2.
Proof.
  intros Hn Hi. induction q1 as [|x q1 IH]; simpl.
  - by rewrite Hi, N.eqb_refl.
  - unfold ids in Hn. csimpl in Hn. apply not_elem_of_cons in Hn as [Hne Hn].
    destruct (N.eqb_spec (Order.GetOrderId x) i); [congruence |].
    by rewrite IH.
Qed.

Lemma cancel_in_split i p m1 q1 o q2 m2 :
  p ∉ m1.*1 → i ∉ ids q1 → Order.GetOrderId o = i →
  Orderbook.cancel_in i p (m1 ++ (p, q1 ++ o :: q2) :: m2)
  = Ok (m1 ++ level_entry p (q1 ++ q2) ++ m2).
Proof.
  intros Hp Hi Ho. unfold Orderbook.cancel_in.
  rewrite find_app_not_key by done. simpl. rewrite Z.eqb_refl.
  rewrite update_app_not_key by done. simpl. rewrite Z.eqb_refl.
  rewrite erase_at_split by done.
  unfold Orderbook.queue. rewrite find_app_not_key by done. simpl.
  rewrite Z.eqb_refl. simpl.
  case_bool_decide as E.
  - rewrite E. rewrite erase_app_not_key by done. simpl. by rewrite Z.eqb_refl.
  - destruct (q1 ++ q2); done.
Qed.

(** Where an order of a side rests. *)
Lemma side_wf_locate sd m o :
  side_wf sd m → NoDup (ids (side_orders m)) → o ∈ side_orders m →
  ∃ m1 q1 q2 m2,
    m = m1 ++ (Order.GetPrice o, q1 ++ o :: q2) :: m2
    ∧ (Order.GetPrice o ∉ m1.*1)
    ∧ (Order.GetOrderId o ∉ ids q1)
    ∧ Order.GetSide o = sd.
Proof.
  intros [Hs Hl] Hnd Hin. unfold side_orders in Hin.
  apply list_elem_of_join in Hin as (q & Ho & Hq).
  apply list_elem_of_fmap in Hq as ([k q'] & -> & Hkq). simpl in Ho.
  rewrite Forall_forall in Hl. destruct (Hl _ Hkq) as [_ Hall]. simpl in Hall.
  rewrite Forall_forall in Hall. destruct (Hall _ Ho) as [Hsd <-].
  apply list_elem_of_split in Hkq as (m1 & m2 & ->).
  apply list_elem_of_split in Ho as (q1 & q2 & ->).
  exists m1, q1, q2, m2. split; [done |]. split; [|split; [|done]].
  - apply sorted_NoDup in Hs. rewrite fmap_app in Hs. csimpl in Hs.
    apply NoDup_app in Hs as (_ & Hs & _). intros Hin. apply (Hs _ Hin). left.
  - rewrite side_orders_app, side_orders_cons in Hnd. unfold ids in *.
    rewrite !fmap_app in Hnd. apply NoDup_app in Hnd as (_ & _ & Hnd).
    apply NoDup_app in Hnd as (Hnd & _ & _). csimpl in Hnd.
    apply NoDup_app in Hnd as (_ & Hnd & _). intros Hin. apply (Hnd _ Hin). left.
Qed.

Lemma side_wf_drop sd m1 e m2 :
  side_wf sd (m1 ++ e :: m2) → side_wf sd (m1 ++ m2).
Proof.
  unfold side_wf. rewrite !fmap_app, !Forall_app. csimpl.
  rewrite !StronglySorted_app, Forall_cons, StronglySorted_cons.
  intros [(H1 & H2 & H3 & H4) (H5 & H6 & H7)].
  split; [|done]. split; [|done].
  intros x1 x2 Hx1 Hx2. apply H1; [done | by right].
Qed.

Lemma side_wf_replace sd m1 p q q' m2 :
  side_wf sd (m1 ++ (p, q) :: m2) → level_ok sd (p, q') →
  side_wf sd (m1 ++ (p, q') :: m2).
Proof.
  unfold side_wf. rewrite !fmap_app, !Forall_app. csimpl.
  rewrite !Forall_cons. naive_solver.
Qed.

Lemma side_wf_level_entry sd m1 p q q' m2 :
  side_wf sd (m1 ++ (p, q) :: m2) →
  Forall (λ o, Order.GetSide o = sd ∧ Order.GetPrice o = p) q' →
  side_wf sd (m1 ++ level_entry p q' ++ m2).
Proof.
  intros Hwf Hq'. destruct q' as [|x q']; simpl.
  - by eapply side_wf_drop.
  - eapply side_wf_replace; [done |]. split; done.
Qed.

Lemma side_wf_level sd m1 p q m2 :
  side_wf sd (m1 ++ (p, q) :: m2) → level_ok sd (p, q).
Proof.
  intros [_ Hl]. rewrite Forall_app, Forall_cons in Hl. naive_solver.
Qed.

Lemma side_orders_level_entry p q : side_orders (level_entry p q) = q.
Proof. destruct q; [done |]. unfold side_orders. simpl. by rewrite app_nil_r. Qed.

Lemma CancelOrder_unknown i s :
  Orderbook.orders_ s !! i = None → Orderbook.CancelOrder i s = Ok s.
Proof. intros H. unfold Orderbook.CancelOrder. by rewrite H. Qed.

Lemma side_orders_side sd m o :
  side_wf sd m → o ∈ side_orders m → Order.GetSide o = sd.
Proof.
  intros [_ Hl] Hin. unfold side_orders in Hin.
  apply list_elem_of_join in Hin as (q & Ho & Hq).
  apply list_elem_of_fmap in Hq as ([k q'] & -> & Hkq).
  rewrite Forall_forall in Hl. destruct (Hl _ Hkq) as [_ Hall].
  rewrite Forall_forall in Hall. by destruct (Hall _ Ho).
Qed.

Lemma book_orders_side sd s o :
  book_wf s → o ∈ book_orders s → Order.GetSide o = sd →
  o ∈ side_orders (side_map sd s).
Proof.
  intros (Hwb & Hwa & _) Hin Hsd. unfold book_orders in Hin.
  apply elem_of_app in Hin as [Hin|Hin].
  - pose proof (side_orders_side _ _ _ Hwb Hin) as Hb.
    rewrite Hb in Hsd. by subst sd.
  - pose proof (side_orders_side _ _ _ Hwa Hin) as Hb.
    rewrite Hb in Hsd. by subst sd.
Qed.

Lemma book_wf_side sd s : book_wf s → side_wf sd (side_map sd s).
Proof. intros (? & ? & _). by destruct sd. Qed.

Lemma book_wf_side_NoDup sd s : book_wf s → NoDup (ids (side_orders (side_map sd s))).
Proof.
  intros (_ & _ & Hnd & _). unfold book_orders, ids in *.
  rewrite fmap_app in Hnd. apply NoDup_app in Hnd as (? & _ & ?). by destruct sd.
Qed.

(** What [CancelOrder] does with a live order. *)
Lemma CancelOrder_live s i o :
  book_wf s → Orderbook.orders_ s !! i = Some o →
  ∃ m1 q1 q2 m2,
    side_map (Order.GetSide o) s = m1 ++ (Order.GetPrice o, q1 ++ o :: q2) :: m2
    ∧ (Order.GetPrice o ∉ m1.*1)
    ∧ Order.GetOrderId o = i
    ∧ Orderbook.CancelOrder i s
      = Ok (cancelled (Order.GetSide o)
              (m1 ++ level_entry (Order.GetPrice o) (q1 ++ q2) ++ m2) i s).
Proof.
  intros Hwf Hi. pose proof Hwf as (_ & _ & _ & Hix).
  apply Hix in Hi as Hin. destruct Hin as [Hin Hid].
  pose proof (book_orders_side (Order.GetSide o) _ _ Hwf Hin eq_refl) as Hside.
  destruct (side_wf_locate _ _ _ (book_wf_side _ _ Hwf)
              (book_wf_side_NoDup _ _ Hwf) Hside)
    as (m1 & q1 & q2 & m2 & Hm & Hp & Hq & _).
  exists m1, q1, q2, m2. split; [done |]. split; [done |]. split; [done |].
  unfold Orderbook.CancelOrder. rewrite Hi.
  destruct (Order.GetSide o) eqn:Hsd; simpl in Hm; rewrite Hm;
    rewrite cancel_in_split by (done || congruence); done.
Qed.

Lemma cancelled_wf s o m1 q1 q2 m2 :
  book_wf s →
  side_map (Order.GetSide o) s = m1 ++ (Order.GetPrice o, q1 ++ o :: q2) :: m2 →
  book_wf (cancelled (Order.GetSide o)
             (m1 ++ level_entry (Order.GetPrice o) (q1 ++ q2) ++ m2)
             (Order.GetOrderId o) s).
Proof.
  intros (Hwb & Hwa & Hc) Hm.
  assert (Hq : ∀ sd, side_wf sd (m1 ++ (Order.GetPrice o, q1 ++ o :: q2) :: m2) →
            side_wf sd (m1 ++ level_entry (Order.GetPrice o) (q1 ++ q2) ++ m2)).
  { intros sd Hwf. eapply side_wf_level_entry; [done |].
    apply side_wf_level in Hwf as [_ Hall]. simpl in Hall.
    rewrite Forall_app, Forall_cons in Hall. rewrite Forall_app. naive_solver. }
  unfold book_orders in Hc.
  destruct (Order.GetSide o); simpl in *; rewrite Hm in *;
    (split; [|split]); simpl; auto;
    unfold book_orders; simpl;
    rewrite ?side_orders_app, ?side_orders_cons, ?side_orders_level_entry in *;
    apply (consistent_delete o);
    (eapply consistent_perm; [|exact Hc]); solve_Permutation.
Qed.

Lemma CancelOrder_wf s i s' :
  book_wf s → Orderbook.CancelOrder i s = Ok s' → book_wf s'.
Proof.
  intros Hwf Hc. destruct (Orderbook.orders_ s !! i) as [o|] eqn:Hi.
  - destruct (CancelOrder_live _ _ _ Hwf Hi) as (m1 & q1 & q2 & m2 & Hm & _ & <- & Hr).
    rewrite Hr in Hc. injection Hc as <-. by apply cancelled_wf.
  - rewrite CancelOrder_unknown in Hc by done. by injection Hc as <-.
Qed.

Lemma CancelOrder_Ok s i :
  book_wf s → ∃ s', Orderbook.CancelOrder i s = Ok s'.
Proof.
  intros Hwf. destruct (Orderbook.orders_ s !! i) as [o|] eqn:Hi.
  - destruct (CancelOrder_live _ _ _ Hwf Hi) as (m1 & q1 & q2 & m2 & _ & _ & _ & Hr).
    eauto.
  - rewrite CancelOrder_unknown by done. eauto.
Qed.

Lemma CancelOrder_index s i s' :
  book_wf s → Orderbook.CancelOrder i s = Ok s' →
  Orderbook.orders_ s' = delete i (Orderbook.orders_ s).
Proof.
  intros Hwf Hc. destruct (Orderbook.orders_ s !! i) as [o|] eqn:Hi.
  - destruct (CancelOrder_live _ _ _ Hwf Hi) as (m1 & q1 & q2 & m2 & _ & _ & _ & Hr).
    rewrite Hr in Hc. injection Hc as <-. unfold cancelled.
    by destruct (Order.GetSide o).
  - rewrite CancelOrder_unknown in Hc by done. injection Hc as <-.
    by rewrite delete_id.
Qed.

Lemma book_wf_elem_side sd s x :
  book_wf s →
  x ∈ side_orders (side_map sd s) ↔ x ∈ book_orders s ∧ Order.GetSide x = sd.
Proof.
  intros Hwf. split.
  - intros Hin. split.
    + unfold book_orders. apply elem_of_app. destruct sd; [by left | by right].
    + eapply side_orders_side; [|done]. by apply book_wf_side.
  - intros [Hin Hsd]. by apply book_orders_side.
Qed.

(** The orders left by a cancellation: those of other identifiers. *)
Lemma CancelOrder_orders s i s' sd x :
  book_wf s → Orderbook.CancelOrder i s = Ok s' →
  x ∈ side_orders (side_map sd s')
  ↔ x ∈ side_orders (side_map sd s) ∧ Order.GetOrderId x ≠ i.
Proof.
  intros Hwf Hc. pose proof (CancelOrder_wf _ _ _ Hwf Hc) as Hwf'.
  pose proof (CancelOrder_index _ _ _ Hwf Hc) as Hix.
  rewrite !book_wf_elem_side by done.
  destruct Hwf as (_ & _ & _ & H1). destruct Hwf' as (_ & _ & _ & H2).
  split.
  - intros [Hin Hsd]. assert (Hl : Orderbook.orders_ s' !! Order.GetOrderId x = Some x)
      by (by apply H2).
    rewrite Hix in Hl. apply lookup_delete_Some in Hl as [Hne Hl].
    apply H1 in Hl as [Hl _]. done.
  - intros [[Hin Hsd] Hne]. split; [|done].
    assert (Hl : Orderbook.orders_ s' !! Order.GetOrderId x = Some x).
    { rewrite Hix. rewrite lookup_delete_ne by done. by apply H1. }
    by apply H2 in Hl as [Hl _].
Qed.

Lemma CancelOrder_keys s i s' sd :
  book_wf s → Orderbook.CancelOrder i s = Ok s' →
  (side_map sd s').*1 ⊆ (side_map sd s).*1.
Proof.
  intros Hwf Hc. destruct (Orderbook.orders_ s !! i) as [o|] eqn:Hi.
  - destruct (CancelOrder_live _ _ _ Hwf Hi) as (m1 & q1 & q2 & m2 & Hm & _ & _ & Hr).
    rewrite Hr in Hc. injection Hc as <-. unfold cancelled.
    destruct (Order.GetSide o), sd; simpl in *; try done; rewrite Hm;
      rewrite !fmap_app; csimpl; destruct (q1 ++ q2); csimpl; set_solver.
  - rewrite CancelOrder_unknown in Hc by done. by injection Hc as <-.
Qed.

(* ===================================================================== *)
(** ** Insertion *)

Lemma comp_of_before sd a b : comp_of sd a b = true ↔ before sd a b.
Proof. destruct sd; simpl; unfold PriceMap.greater, PriceMap.less; lia. Qed.

Lemma before_total sd a b : ¬ before sd a b → ¬ before sd b a → a = b.
Proof. destruct sd; simpl; lia. Qed.

Lemma before_trans sd a b c : before sd a b → before sd b c → before sd a c.
Proof. destruct sd; simpl; lia. Qed.

Lemma before_irrefl sd a : ¬ before sd a a.
Proof. destruct sd; simpl; lia. Qed.

(** [operator[]] on a map in order: the queue of an existing key is
    updated in place; a new key takes its place in the order. *)
Lemma subscript_spec sd p f m :
  StronglySorted (before sd) (m.*1) →
  (∃ m1 q m2, m = m1 ++ (p, q) :: m2 ∧ (p ∉ m1.*1)
     ∧ PriceMap.subscript (comp_of sd) p f m = m1 ++ (p, f q) :: m2)
  ∨ (∃ m1 m2, m = m1 ++ m2 ∧ (p ∉ m.*1)
     ∧ PriceMap.subscript (comp_of sd) p f m = m1 ++ (p, f []) :: m2
     ∧ StronglySorted (before sd) ((m1 ++ (p, f []) :: m2).*1)).
Proof.
  induction m as [|[k q] m IH]; intros Hs.
  - right. exists [], []. simpl. split; [done |]. split; [apply not_elem_of_nil |].
    split; [done |]. csimpl. repeat constructor.
  - csimpl in Hs. apply StronglySorted_cons in Hs as [Hall Hs]. simpl.
    destruct (comp_of sd p k) eqn:E1.
    { apply comp_of_before in E1. right. exists [], ((k, q) :: m). simpl.
      split; [done |]. split; [|split; [done |]].
      - csimpl. intros Hin. apply elem_of_cons in Hin as [->|Hin].
        + by apply before_irrefl in E1.
        + rewrite Forall_forall in Hall. specialize (Hall _ Hin).
          eapply before_irrefl, before_trans; eauto.
      - csimpl. apply StronglySorted_cons. split.
        + constructor; [done |]. eapply Forall_impl; [exact Hall |].
          intros x Hx. simpl in Hx. eapply before_trans; eauto.
        + by apply StronglySorted_cons. }
    destruct (comp_of sd k p) eqn:E2.
    { apply comp_of_before in E2.
      destruct (IH Hs) as [(m1 & q' & m2 & -> & Hn & Heq)|(m1 & m2 & -> & Hn & Heq & Hs')].
      - left. exists ((k, q) :: m1), q', m2. split; [done |]. split.
        + csimpl. apply not_elem_of_cons. split; [|done].
          intros ->. by apply before_irrefl in E2.
        + by rewrite Heq.
      - right. exists ((k, q) :: m1), m2. split; [done |]. split; [|split].
        + csimpl. apply not_elem_of_cons. split; [|done].
          intros ->. by apply before_irrefl in E2.
        + by rewrite Heq.
        + csimpl. apply StronglySorted_cons. split; [|done].
          rewrite fmap_app in *. csimpl. apply Forall_app in Hall as [H1 H2].
          apply Forall_app. split; [done |]. by constructor. }
    assert (p = k) as ->.
    { apply (before_total sd); rewrite <- comp_of_before; congruence. }
    left. exists [], q, m. simpl. split; [done |]. split; [apply not_elem_of_nil | done].
Qed.

Lemma level_ok_push sd p q o :
  Order.GetSide o = sd → Order.GetPrice o = p →
  (q = [] ∨ level_ok sd (p, q)) →
  level_ok sd (p, Orderbook.push_back o q).
Proof.
  intros Hsd Hp Hq. unfold Orderbook.push_back. split; simpl.
  - by destruct q.
  - apply Forall_app. split; [|by repeat constructor].
    destruct Hq as [->|[_ Hq]]; [constructor | done].
Qed.

Lemma subscript_push_wf sd o m :
  Order.GetSide o = sd → side_wf sd m →
  side_wf sd (PriceMap.subscript (comp_of sd) (Order.GetPrice o)
                (Orderbook.push_back o) m)
  ∧ side_orders (PriceMap.subscript (comp_of sd) (Order.GetPrice o)
                   (Orderbook.push_back o) m)
    ≡ₚ o :: side_orders m.
Proof.
  intros Hsd Hwf. pose proof Hwf as [Hs Hl].
  destruct (subscript_spec sd (Order.GetPrice o) (Orderbook.push_back o) m Hs)
    as [(m1 & q & m2 & -> & Hn & ->)|(m1 & m2 & -> & Hn & -> & Hs')].
  - split.
    + eapply side_wf_replace; [done |]. apply level_ok_push; [done | done |].
      right. by eapply side_wf_level.
    + rewrite !side_orders_app, !side_orders_cons. unfold Orderbook.push_back.
      solve_Permutation.
  - split.
    + split; [done |]. apply Forall_app in Hl as [H1 H2].
      apply Forall_app. split; [done |]. constructor; [|done].
      apply level_ok_push; auto.
    + rewrite !side_orders_app, !side_orders_cons. unfold Orderbook.push_back.
      simpl. solve_Permutation.
Qed.

Lemma insert_wf o s :
  Orderbook.orders_ s !! Order.GetOrderId o = None →
  book_wf s → book_wf (Orderbook.insert o s).
Proof.
  intros Hnone (Hwb & Hwa & Hc). unfold Orderbook.insert.
  destruct (Order.GetSide o) eqn:Hsd.
  - destruct (subscript_push_wf Buy o _ Hsd Hwb) as [Hw Hp].
    split; [done | split; [done |]]. simpl.
    eapply consistent_perm; [|by apply (consistent_insert o _ _ Hnone Hc)].
    unfold book_orders. simpl. simpl in Hp. rewrite Hp. done.
  - destruct (subscript_push_wf Sell o _ Hsd Hwa) as [Hw Hp].
    split; [done | split; [done |]]. simpl.
    eapply consistent_perm; [|by apply (consistent_insert o _ _ Hnone Hc)].
    unfold book_orders. simpl. simpl in Hp. rewrite Hp. solve_Permutation.
Qed.

(* ===================================================================== *)
(** ** Invariants of the matching run *)

Lemma matching_fill_inv s bidPrice bid bids rb askPrice ask asks ra s1 t :
  Orderbook.bids_ s = (bidPrice, bid :: bids) :: rb →
  Orderbook.asks_ s = (askPrice, ask :: asks) :: ra →
  Orderbook.match_front bidPrice askPrice s [] = Ok (s1, [t]) →
  let quantity :=
    N.min (Order.GetRemainingQuantity bid) (Order.GetRemainingQuantity ask) in
  s1 = Orderbook.mk
         (settle bidPrice (filled_by quantity bid) bids rb)
         (settle askPrice (filled_by quantity ask) asks ra)
         (settle_index (filled_by quantity bid) (filled_by quantity ask)
            (Orderbook.orders_ s))
  ∧ t = trade_of bid ask quantity.
Proof.
  intros Hb Ha Hm. rewrite (match_front_step _ _ _ _ _ _ _ _ _ _ Hb Ha) in Hm.
  simpl in Hm. by injection Hm as <- <-.
Qed.

Lemma matching_wf s ts s' : matching s ts s' → book_wf s → book_wf s'.
Proof.
  induction 1 as [|s bp bid bids rb ap ask asks ra s1 t ts s3 Hb Ha Hle Hm Hrest IH];
    [done |].
  intros Hwf. apply IH. eapply match_front_wf; eauto.
Qed.

Lemma gtc_behind_front_settle p o o' q m :
  gtc_behind_front ((p, o :: q) :: m) → gtc_behind_front (settle p o' q m).
Proof.
  unfold gtc_behind_front. rewrite side_orders_settle, side_orders_cons. simpl.
  rewrite drop_0. intros H. unfold front_after.
  destruct (Order.IsFilled o'); simpl; [by apply Forall_drop | by rewrite drop_0].
Qed.

Lemma matching_gtc s ts s' :
  matching s ts s' →
  gtc_behind_front (Orderbook.bids_ s) → gtc_behind_front (Orderbook.asks_ s) →
  gtc_behind_front (Orderbook.bids_ s') ∧ gtc_behind_front (Orderbook.asks_ s').
Proof.
  induction 1 as [|s bp bid bids rb ap ask asks ra s1 t ts s3 Hb Ha Hle Hm Hrest IH];
    [done |].
  intros Hgb Hga. destruct (matching_fill_inv _ _ _ _ _ _ _ _ _ _ _ Hb Ha Hm) as [-> _].
  rewrite Hb in Hgb. rewrite Ha in Hga.
  apply IH; simpl; by eapply gtc_behind_front_settle.
Qed.

(* ===================================================================== *)
(** ** Crossing *)

Lemma uncrossed_all s : book_wf s → uncrossed s → all_uncrossed s.
Proof.
  intros (Hwb & Hwa & _) Hu bp ap Hbp Hap. unfold uncrossed in Hu.
  destruct (Orderbook.bids_ s) as [|[bp0 qb] rb]; [by apply elem_of_nil in Hbp |].
  destruct (Orderbook.asks_ s) as [|[ap0 qa] ra]; [by apply elem_of_nil in Hap |].
  apply side_wf_cons in Hwb as (_ & Hallb & _).
  apply side_wf_cons in Hwa as (_ & Halla & _).
  rewrite Forall_forall in Hallb, Halla. csimpl in *.
  assert (bp ≤ bp0).
  { apply elem_of_cons in Hbp as [->|Hbp]; [lia |].
    specialize (Hallb _ Hbp). simpl in Hallb. lia. }
  assert (ap0 ≤ ap).
  { apply elem_of_cons in Hap as [->|Hap]; [lia |].
    specialize (Halla _ Hap). simpl in Halla. lia. }
  lia.
Qed.

Lemma all_uncrossed_uncrossed s : all_uncrossed s → uncrossed s.
Proof.
  intros H. unfold uncrossed.
  destruct (Orderbook.bids_ s) as [|[bp0 qb] rb] eqn:Hb; [done |].
  destruct (Orderbook.asks_ s) as [|[ap0 qa] ra] eqn:Ha; [done |].
  apply H; rewrite ?Hb, ?Ha; csimpl; left.
Qed.

Lemma CancelOrder_uncrossed s i s' :
  book_wf s → uncrossed s → Orderbook.CancelOrder i s = Ok s' → uncrossed s'.
Proof.
  intros Hwf Hu Hc. apply all_uncrossed_uncrossed.
  pose proof (uncrossed_all _ Hwf Hu) as Hall.
  intros bp ap Hbp Hap.
  apply (CancelOrder_keys _ _ _ Buy Hwf Hc) in Hbp.
  apply (CancelOrder_keys _ _ _ Sell Hwf Hc) in Hap.
  by apply Hall.
Qed.

(* ===================================================================== *)
(** ** The fill-and-kill sweep *)

Lemma CancelOrder_other_side s i o s' sd :
  book_wf s → Orderbook.orders_ s !! i = Some o →
  Orderbook.CancelOrder i s = Ok s' → Order.GetSide o ≠ sd →
  side_map sd s' = side_map sd s.
Proof.
  intros Hwf Hi Hc Hne.
  destruct (CancelOrder_live _ _ _ Hwf Hi) as (m1 & q1 & q2 & m2 & _ & _ & _ & Hr).
  rewrite Hr in Hc. injection Hc as <-. unfold cancelled.
  by destruct (Order.GetSide o), sd.
Qed.

Lemma side_map_other sd sd' : sd' ≠ sd → sd' = other sd.
Proof. by destruct sd, sd'. Qed.

Lemma sweep_spec sd s :
  book_wf s → gtc_behind_front (side_map sd s) →
  ∃ s', Orderbook.sweep (side_map sd s) s = Ok s'
    ∧ book_wf s'
    ∧ Forall is_gtc (side_orders (side_map sd s'))
    ∧ side_map (other sd) s' = side_map (other sd) s
    ∧ (∀ sd', (side_map sd' s').*1 ⊆ (side_map sd' s).*1).
Proof.
  intros Hwf Hg. unfold Orderbook.sweep.
  pose proof (book_wf_side sd _ Hwf) as Hws.
  destruct (side_map sd s) as [|[p q] r] eqn:Hm; simpl.
  { exists s. rewrite Hm. split; [done |]. split; [done |]. split; [constructor | done]. }
  destruct (side_wf_front _ _ _ _ Hws) as (o & q' & ->).
  unfold gtc_behind_front in Hg. rewrite side_orders_cons in Hg. simpl in Hg.
  rewrite drop_0 in Hg.
  destruct (Order.GetOrderType o) eqn:Ht.
  { exists s. rewrite Hm. split; [done |]. split; [done |]. split; [|done].
    rewrite side_orders_cons. simpl. by constructor. }
  assert (Hin : o ∈ side_orders (side_map sd s)).
  { rewrite Hm, side_orders_cons. left. }
  apply (book_wf_elem_side sd s o Hwf) in Hin as [Hin Hsd].
  assert (Hi : Orderbook.orders_ s !! Order.GetOrderId o = Some o).
  { destruct Hwf as (_ & _ & Hc). by eapply consistent_lookup. }
  destruct (CancelOrder_Ok s (Order.GetOrderId o) Hwf) as [s' Hc].
  exists s'. split; [done |]. split; [by eapply CancelOrder_wf |].
  split; [|split].
  - apply Forall_forall. intros x Hx.
    apply (CancelOrder_orders _ _ _ sd x Hwf Hc) in Hx as [Hx Hne].
    rewrite Hm, side_orders_cons in Hx. simpl in Hx.
    apply elem_of_cons in Hx as [->|Hx]; [done |].
    rewrite Forall_forall in Hg. by apply Hg.
  - eapply CancelOrder_other_side; eauto. rewrite Hsd. by destruct sd.
  - intros sd'. by eapply CancelOrder_keys.
Qed.

(* ===================================================================== *)
(** ** MatchOrders *)

Lemma MatchOrders_run s :
  book_wf s →
  ∃ s1 ts s2 s3,
    matching s ts s1 ∧ book_wf s1 ∧ uncrossed s1
    ∧ Orderbook.sweep (Orderbook.bids_ s1) s1 = Ok s2
    ∧ Orderbook.sweep (Orderbook.asks_ s2) s2 = Ok s3
    ∧ Orderbook.MatchOrders s = Ok (ts, s3)
    ∧ book_wf s3 ∧ uncrossed s3
    ∧ (gtc_behind_front (Orderbook.bids_ s) →
       gtc_behind_front (Orderbook.asks_ s) →
       Forall is_gtc (book_orders s3)).
Proof.
  intros Hwf.
  destruct (match_loop_run (Orderbook.loop_fuel s) s [] Hwf)
    as (s1 & ts & Hrun & Hm & Hwf1 & Hu1).
  { unfold Orderbook.loop_fuel. lia. }
  change ([] ++ ts) with ts in Hrun.
  assert (Hsw : ∀ sd s, book_wf s →
            ∃ s', Orderbook.sweep (side_map sd s) s = Ok s' ∧ book_wf s'
              ∧ (∀ sd', (side_map sd' s').*1 ⊆ (side_map sd' s).*1)
              ∧ (gtc_behind_front (side_map sd s) →
                 Forall is_gtc (side_orders (side_map sd s'))
                 ∧ side_map (other sd) s' = side_map (other sd) s)).
  { clear. intros sd s Hwf. unfold Orderbook.sweep.
    pose proof (book_wf_side sd _ Hwf) as Hws.
    destruct (side_map sd s) as [|[p q] r] eqn:Hm; simpl.
    { exists s. rewrite Hm. split; [done |]. split; [done |]. split; [done |].
      intros _. split; [constructor | done]. }
    destruct (side_wf_front _ _ _ _ Hws) as (o & q' & ->).
    destruct (Order.GetOrderType o) eqn:Ht.
    { exists s. rewrite Hm. split; [done |]. split; [done |]. split; [done |].
      intros Hg. split; [|done]. unfold gtc_behind_front in Hg.
      rewrite side_orders_cons in *. simpl in *. rewrite drop_0 in Hg.
      by constructor. }
    destruct (CancelOrder_Ok s (Order.GetOrderId o) Hwf) as [s' Hc].
    exists s'. split; [done |]. split; [by eapply CancelOrder_wf |].
    split; [intros sd'; by eapply CancelOrder_keys |].
    intros Hg. rewrite <- Hm in Hg.
    destruct (sweep_spec sd s Hwf Hg) as (s'' & Hs & _ & H1 & H2 & _).
    unfold Orderbook.sweep in Hs. rewrite Hm in Hs. simpl in Hs.
    rewrite Ht, Hc in Hs. injection Hs as <-. done. }
  destruct (Hsw Buy s1 Hwf1) as (s2 & Hs2 & Hwf2 & Hk2 & Hg2).
  destruct (Hsw Sell s2 Hwf2) as (s3 & Hs3 & Hwf3 & Hk3 & Hg3).
  simpl in Hs2, Hs3.
  exists s1, ts, s2, s3. split; [done |]. split; [done |]. split; [done |].
  split; [done |]. split; [done |]. split.
  { unfold Orderbook.MatchOrders. rewrite Hrun. simpl. rewrite Hs2. simpl.
    rewrite Hs3. done. }
  split; [done |]. split.
  { apply all_uncrossed_uncrossed. pose proof (uncrossed_all _ Hwf1 Hu1) as Hall.
    intros bp ap Hbp Hap.
    apply (Hk3 Buy), (Hk2 Buy) in Hbp. apply (Hk3 Sell), (Hk2 Sell) in Hap.
    by apply Hall. }
  intros Hgb Hga.
  destruct (matching_gtc _ _ _ Hm Hgb Hga) as [Hgb1 Hga1].
  destruct (Hg2 Hgb1) as [Hb2 Ha2]. simpl in Hb2, Ha2.
  rewrite <- Ha2 in Hga1. destruct (Hg3 Hga1) as [Ha3 Hb3]. simpl in Ha3, Hb3.
  unfold book_orders. apply Forall_app. split; [|done]. by rewrite Hb3.
Qed.

(* ===================================================================== *)
(** ** The public operations keep the invariant *)

Lemma insert_side o s :
  side_map (Order.GetSide o) (Orderbook.insert o s)
  = PriceMap.subscript (comp_of (Order.GetSide o)) (Order.GetPrice o)
      (Orderbook.push_back o) (side_map (Order.GetSide o) s).
Proof. unfold Orderbook.insert. by destruct (Order.GetSide o). Qed.

Lemma insert_other_side o s :
  side_map (other (Order.GetSide o)) (Orderbook.insert o s)
  = side_map (other (Order.GetSide o)) s.
Proof. unfold Orderbook.insert. by destruct (Order.GetSide o). Qed.

Lemma insert_index o s :
  Orderbook.orders_ (Orderbook.insert o s)
  = Orderbook.index_insert o (Orderbook.orders_ s).
Proof. unfold Orderbook.insert. by destruct (Order.GetSide o). Qed.

(** The best price of the opposite side, when an order can match. *)
Lemma CanMatch_true sd p s :
  Orderbook.CanMatch sd p s = true ↔
  ∃ best q r, side_map (other sd) s = (best, q) :: r
              ∧ (best = p ∨ before (other sd) best p).
Proof.
  unfold Orderbook.CanMatch. destruct sd; simpl.
  - destruct (Orderbook.asks_ s) as [|[k q] r]; simpl.
    + split; [done | by intros (? & ? & ? & ? & _)].
    + rewrite Z.leb_le. split.
      * intros H. exists k, q, r. split; [done | lia].
      * intros (? & ? & ? & [= <- <- <-] & H). lia.
  - destruct (Orderbook.bids_ s) as [|[k q] r]; simpl.
    + split; [done | by intros (? & ? & ? & ? & _)].
    + rewrite Z.leb_le. split.
      * intros H. exists k, q, r. split; [done | lia].
      * intros (? & ? & ? & [= <- <- <-] & H). lia.
Qed.

(** An order that can match an uncrossed book opens a level in front of
    its side. *)
Lemma insert_front o s :
  uncrossed s →
  Orderbook.CanMatch (Order.GetSide o) (Order.GetPrice o) s = true →
  side_map (Order.GetSide o) (Orderbook.insert o s)
  = (Order.GetPrice o, [o]) :: side_map (Order.GetSide o) s.
Proof.
  intros Hu Hc. rewrite insert_side.
  apply CanMatch_true in Hc as (best & q & r & Hm & Hbest).
  unfold uncrossed in Hu.
  destruct (Order.GetSide o); simpl in *; rewrite Hm in Hu.
  - destruct (Orderbook.bids_ s) as [|[k q'] r']; [done |]. simpl.
    unfold PriceMap.greater. replace (k <? Order.GetPrice o) with true; [done |].
    symmetry. apply Z.ltb_lt. lia.
  - destruct (Orderbook.bids_ s) as [|[k q'] r']; [done |].
    injection Hm as -> -> ->. simpl.
    destruct (Orderbook.asks_ s) as [|[k' q''] r'']; [done |]. simpl.
    unfold PriceMap.less. replace (Order.GetPrice o <? k') with true; [done |].
    symmetry. apply Z.ltb_lt. lia.
Qed.

Lemma Forall_gtc_behind_front m : Forall is_gtc (side_orders m) → gtc_behind_front m.
Proof. apply Forall_drop. Qed.

Lemma book_inv_sides s sd :
  book_inv s → Forall is_gtc (side_orders (side_map sd s)).
Proof.
  intros (_ & _ & Hg). unfold book_orders in Hg.
  apply Forall_app in Hg as [? ?]. by destruct sd.
Qed.

Lemma insert_gtc_behind_front o s sd :
  book_inv s →
  (Order.GetOrderType o = FillandKill →
   Orderbook.CanMatch (Order.GetSide o) (Order.GetPrice o) s = true) →
  gtc_behind_front (side_map sd (Orderbook.insert o s)).
Proof.
  intros Hinv Hfak. pose proof Hinv as (Hwf & Hu & _).
  destruct (decide (sd = Order.GetSide o)) as [->|Hne].
  - destruct (Order.GetOrderType o) eqn:Ht.
    + apply Forall_gtc_behind_front. rewrite insert_side.
      destruct (subscript_push_wf _ o _ eq_refl (book_wf_side (Order.GetSide o) _ Hwf))
        as [_ Hp].
      rewrite Hp. constructor; [done |]. by apply book_inv_sides.
    + rewrite insert_front by auto. unfold gtc_behind_front.
      rewrite side_orders_cons. simpl. rewrite drop_0. by apply book_inv_sides.
  - assert (sd = other (Order.GetSide o)) as -> by (by destruct sd, (Order.GetSide o)).
    rewrite insert_other_side. apply Forall_gtc_behind_front. by apply book_inv_sides.
Qed.

Lemma AddOrder_fresh o s :
  Orderbook.orders_ s !! Order.GetOrderId o = None →
  (Order.GetOrderType o = FillandKill →
   Orderbook.CanMatch (Order.GetSide o) (Order.GetPrice o) s = true) →
  Orderbook.AddOrder o s = Orderbook.MatchOrders (Orderbook.insert o s).
Proof.
  intros Hnone Hfak. unfold Orderbook.AddOrder.
  rewrite bool_decide_eq_false_2 by (rewrite Hnone; by intros [? ?]).
  destruct (Order.GetOrderType o); simpl; [done |].
  by rewrite Hfak.
Qed.

Lemma AddOrder_cases o s :
  Orderbook.AddOrder o s = Ok ([], s)
  ∨ (Orderbook.orders_ s !! Order.GetOrderId o = None
     ∧ (Order.GetOrderType o = FillandKill →
        Orderbook.CanMatch (Order.GetSide o) (Order.GetPrice o) s = true)
     ∧ Orderbook.AddOrder o s = Orderbook.MatchOrders (Orderbook.insert o s)).
Proof.
  destruct (Orderbook.orders_ s !! Order.GetOrderId o) as [x|] eqn:Hi.
  { left. unfold Orderbook.AddOrder. rewrite Hi.
    by rewrite bool_decide_eq_true_2 by eauto. }
  destruct (Order.GetOrderType o) eqn:Ht.
  { right. split; [done |]. split; [done |]. apply AddOrder_fresh; [done |].
    by rewrite Ht. }
  destruct (Orderbook.CanMatch (Order.GetSide o) (Order.GetPrice o) s) eqn:Hc.
  { right. split; [done |]. split; [done |]. by apply AddOrder_fresh. }
  left. unfold Orderbook.AddOrder.
  rewrite bool_decide_eq_false_2 by (rewrite Hi; by intros [? ?]).
  by rewrite Ht, Hc.
Qed.

Lemma AddOrder_inv o s :
  book_inv s →
  ∃ ts s', Orderbook.AddOrder o s = Ok (ts, s') ∧ book_inv s'.
Proof.
  intros Hinv. destruct (AddOrder_cases o s) as [H|(Hnone & Hfak & ->)]; [by eauto |].
  pose proof Hinv as (Hwf & Hu & Hg).
  destruct (MatchOrders_run _ (insert_wf o s Hnone Hwf))
    as (s1 & ts & s2 & s3 & _ & _ & _ & _ & _ & Hr & Hwf3 & Hu3 & Hg3).
  exists ts, s3. split; [done |]. split; [done |]. split; [done |].
  apply Hg3.
  - by apply (insert_gtc_behind_front o s Buy).
  - by apply (insert_gtc_behind_front o s Sell).
Qed.

Lemma CancelOrder_inv i s :
  book_inv s →
  ∃ s', Orderbook.CancelOrder i s = Ok s' ∧ book_inv s'.
Proof.
  intros (Hwf & Hu & Hg). destruct (CancelOrder_Ok s i Hwf) as [s' Hc].
  exists s'. split; [done |]. split; [by eapply CancelOrder_wf |].
  split; [by eapply CancelOrder_uncrossed |].
  apply Forall_forall. intros x Hx. rewrite Forall_forall in Hg. apply Hg.
  unfold book_orders in *. rewrite elem_of_app in *.
  destruct Hx as [Hx|Hx]; [left | right].
  - by apply (CancelOrder_orders _ _ _ Buy x Hwf Hc) in Hx as [Hx _].
  - by apply (CancelOrder_orders _ _ _ Sell x Hwf Hc) in Hx as [Hx _].
Qed.

Lemma MatchOrder_inv m s :
  book_inv s →
  ∃ ts s', Orderbook.MatchOrder m s = Ok (ts, s') ∧ book_inv s'.
Proof.
  intros Hinv. unfold Orderbook.MatchOrder.
  destruct (Orderbook.orders_ s !! OrderModify.GetOrderId m) as [e|]; [|by eauto].
  destruct (CancelOrder_inv (OrderModify.GetOrderId m) s Hinv) as (s1 & -> & Hinv1).
  simpl. by apply AddOrder_inv.
Qed.

Lemma step_inv op s :
  book_inv s → ∃ ts s', step op s = Ok (ts, s') ∧ book_inv s'.
Proof.
  intros Hinv. destruct op as [ty i sd p q|i|i sd p q]; simpl.
  - by apply AddOrder_inv.
  - destruct (CancelOrder_inv i s Hinv) as (s' & -> & ?). simpl. eauto.
  - by apply MatchOrder_inv.
Qed.

Lemma init_inv : book_inv Orderbook.init.
Proof.
  assert (Hs : ∀ sd, side_wf sd []) by (intros sd; split; constructor).
  split; [|split; [done | constructor]].
  split; [apply Hs | split; [apply Hs |]].
  split; [constructor |].
  intros i o. unfold Orderbook.init. simpl. rewrite lookup_empty. split; [done |].
  intros [H _]. by apply elem_of_nil in H.
Qed.

Lemma run_inv ops : ∀ s s', book_inv s → run ops s = Ok s' → book_inv s'.
Proof.
  induction ops as [|op ops IH]; intros s s' Hinv Hrun; simpl in Hrun.
  - by injection Hrun as <-.
  - destruct (step_inv op s Hinv) as (ts & s1 & Hs & Hinv1).
    rewrite Hs in Hrun. simpl in Hrun. eauto.
Qed.

Lemma reachable_inv s : reachable s → book_inv s.
Proof. intros [ops Hrun]. eapply run_inv; [apply init_inv | done]. Qed.

Lemma run_total ops : ∀ s, book_inv s → ∃ s', run ops s = Ok s'.
Proof.
  induction ops as [|op ops IH]; intros s Hinv; simpl; [by eauto |].
  destruct (step_inv op s Hinv) as (ts & s1 & -> & Hinv1). simpl. eauto.
Qed.

(* ===================================================================== *)
(** ** The exception of Fill *)

Lemma no_logic_error_Ok {A} (a : A) : no_logic_error (Ok a).
Proof. by intros i. Qed.

Lemma no_logic_error_bind {A B} (r : result A) (f : A → result B) :
  no_logic_error r → (∀ a, r = Ok a → no_logic_error (f a)) →
  no_logic_error (r ≫= f).
Proof.
  intros Hr Hf i H. apply bind_logic_error_inv in H as [H|(a & Ha & H)].
  - by apply (Hr i).
  - by apply (Hf a Ha i).
Qed.

(** [Fill] is called with the minimum of the two remaining quantities. *)
Lemma Fill_min_l bid ask :
  Order.Fill (N.min (Order.GetRemainingQuantity bid) (Order.GetRemainingQuantity ask)) bid
  = Ok (filled_by
          (N.min (Order.GetRemainingQuantity bid) (Order.GetRemainingQuantity ask)) bid).
Proof.
  unfold Order.Fill.
  replace (_ <? _)%N with false; [done |]. symmetry. apply N.ltb_ge. lia.
Qed.

Lemma Fill_min_r bid ask :
  Order.Fill (N.min (Order.GetRemainingQuantity bid) (Order.GetRemainingQuantity ask)) ask
  = Ok (filled_by
          (N.min (Order.GetRemainingQuantity bid) (Order.GetRemainingQuantity ask)) ask).
Proof.
  unfold Order.Fill.
  replace (_ <? _)%N with false; [done |]. symmetry. apply N.ltb_ge. lia.
Qed.

Lemma match_front_returns bidPrice askPrice s trades :
  ∃ r, Orderbook.match_front bidPrice askPrice s trades = Ok r.
Proof.
  unfold Orderbook.match_front.
  destruct (Orderbook.queue bidPrice (Orderbook.bids_ s)) as [|bid bids]; [by eauto |].
  destruct (Orderbook.queue askPrice (Orderbook.asks_ s)) as [|ask asks]; [by eauto |].
  rewrite Fill_min_l. simpl. rewrite Fill_min_r. simpl.
  destruct (Order.IsFilled _), (Order.IsFilled _); eauto.
Qed.

Lemma match_level_no_logic_error n :
  ∀ bidPrice askPrice s trades,
  no_logic_error (Orderbook.match_level n bidPrice askPrice s trades).
Proof.
  induction n as [|n IH]; intros bp ap s trades; simpl; [done |].
  destruct (Orderbook.queue bp (Orderbook.bids_ s)); [apply no_logic_error_Ok |].
  destruct (Orderbook.queue ap (Orderbook.asks_ s)); [apply no_logic_error_Ok |].
  destruct (match_front_returns bp ap s trades) as [[s1 t1] ->]. simpl. apply IH.
Qed.

Lemma match_loop_no_logic_error n :
  ∀ s trades, no_logic_error (Orderbook.match_loop n s trades).
Proof.
  induction n as [|n IH]; intros s trades; [done |]. rewrite match_loop_S.
  destruct (PriceMap.begin (Orderbook.bids_ s)) as [[bp ?]|]; [|apply no_logic_error_Ok].
  destruct (PriceMap.begin (Orderbook.asks_ s)) as [[ap ?]|]; [|apply no_logic_error_Ok].
  destruct (bp <? ap); [apply no_logic_error_Ok |].
  apply no_logic_error_bind; [apply match_level_no_logic_error |].
  intros [s1 t1] _. apply IH.
Qed.

Lemma CancelOrder_no_logic_error i s :
  no_logic_error (Orderbook.CancelOrder i s).
Proof.
  unfold Orderbook.CancelOrder, Orderbook.cancel_in.
  destruct (Orderbook.orders_ s !! i) as [o|]; [|apply no_logic_error_Ok].
  destruct (Order.GetSide o);
    destruct (PriceMap.find _ _); simpl; try done;
    case_bool_decide; by simpl.
Qed.

Lemma sweep_no_logic_error m s : no_logic_error (Orderbook.sweep m s).
Proof.
  unfold Orderbook.sweep.
  destruct (PriceMap.begin m) as [[? [|o ?]]|]; try apply no_logic_error_Ok.
  destruct (Order.GetOrderType o); [apply no_logic_error_Ok |].
  apply CancelOrder_no_logic_error.
Qed.

Lemma MatchOrders_no_logic_error s : no_logic_error (Orderbook.MatchOrders s).
Proof.
  unfold Orderbook.MatchOrders.
  apply no_logic_error_bind; [apply match_loop_no_logic_error |].
  intros [s1 ts] _.
  apply no_logic_error_bind; [apply sweep_no_logic_error |]. intros s2 _.
  apply no_logic_error_bind; [apply sweep_no_logic_error |]. intros s3 _.
  apply no_logic_error_Ok.
Qed.

Lemma AddOrder_no_logic_error o s : no_logic_error (Orderbook.AddOrder o s).
Proof.
  unfold Orderbook.AddOrder.
  case_bool_decide; [apply no_logic_error_Ok |].
  destruct (_ && _); [apply no_logic_error_Ok |].
  apply MatchOrders_no_logic_error.
Qed.

Lemma step_no_logic_error op s : no_logic_error (step op s).
Proof.
  destruct op as [ty i sd p q|i|i sd p q]; simpl.
  - apply AddOrder_no_logic_error.
  - apply no_logic_error_bind; [apply CancelOrder_no_logic_error |].
    intros ? _. apply no_logic_error_Ok.
  - unfold Orderbook.MatchOrder.
    destruct (Orderbook.orders_ s !! _); [|apply no_logic_error_Ok].
    apply no_logic_error_bind; [apply CancelOrder_no_logic_error |].
    intros ? _. apply AddOrder_no_logic_error.
Qed.

(* ===================================================================== *)
(** ** Properties of the orders kept by the operations *)

Section OrdersKept.
Variable P : Order.t → Prop.
Hypothesis P_fill :
  ∀ quantity o, P o → Order.IsFilled (filled_by quantity o) = false →
                P (filled_by quantity o).

Lemma front_after_kept quantity o : P o → Forall P (front_after (filled_by quantity o)).
Proof using P_fill.
  intros Ho. unfold front_after.
  destruct (Order.IsFilled (filled_by quantity o)) eqn:E; [constructor |].
  constructor; [by apply P_fill | constructor].
Qed.

Lemma matching_kept s ts s' :
  matching s ts s' → Forall P (book_orders s) → Forall P (book_orders s').
Proof using P_fill.
  induction 1 as [|s bp bid bids rb ap ask asks ra s1 t ts s3 Hb Ha Hle Hm Hrest IH];
    [done |].
  intros HP. apply IH.
  destruct (matching_fill_inv _ _ _ _ _ _ _ _ _ _ _ Hb Ha Hm) as [-> _].
  unfold book_orders in *. simpl. rewrite Hb, Ha in HP.
  rewrite !side_orders_settle. rewrite !side_orders_cons in HP.
  rewrite !Forall_app in *. rewrite !Forall_cons in HP.
  destruct HP as [[[Hbid Hbids] Hrb] [[Hask Hasks] Hra]].
  repeat split; try done; by apply front_after_kept.
Qed.

Lemma CancelOrder_kept s i s' :
  book_wf s → Orderbook.CancelOrder i s = Ok s' →
  Forall P (book_orders s) → Forall P (book_orders s').
Proof.
  intros Hwf Hc HP. apply Forall_forall. intros x Hx.
  rewrite Forall_forall in HP. apply HP.
  unfold book_orders in *. rewrite elem_of_app in *.
  destruct Hx as [Hx|Hx]; [left | right].
  - by apply (CancelOrder_orders _ _ _ Buy x Hwf Hc) in Hx as [Hx _].
  - by apply (CancelOrder_orders _ _ _ Sell x Hwf Hc) in Hx as [Hx _].
Qed.

Lemma sweep_kept m s s' :
  book_wf s → Orderbook.sweep m s = Ok s' →
  Forall P (book_orders s) → Forall P (book_orders s').
Proof.
  intros Hwf Hs HP. unfold Orderbook.sweep in Hs.
  destruct (PriceMap.begin m) as [[? [|o ?]]|]; try (by injection Hs as <-).
  destruct (Order.GetOrderType o); [by injection Hs as <- |].
  by eapply CancelOrder_kept.
Qed.

Lemma sweep_wf m s s' :
  book_wf s → Orderbook.sweep m s = Ok s' → book_wf s'.
Proof.
  intros Hwf Hs. unfold Orderbook.sweep in Hs.
  destruct (PriceMap.begin m) as [[? [|o ?]]|]; try (by injection Hs as <-).
  destruct (Order.GetOrderType o); [by injection Hs as <- |].
  by eapply CancelOrder_wf.
Qed.

Lemma MatchOrders_kept s ts s' :
  book_wf s → Orderbook.MatchOrders s = Ok (ts, s') →
  Forall P (book_orders s) → Forall P (book_orders s').
Proof using P_fill.
  intros Hwf Hm HP.
  destruct (MatchOrders_run s Hwf)
    as (s1 & ts1 & s2 & s3 & Hrun & Hwf1 & _ & Hs2 & Hs3 & Hr & _).
  rewrite Hr in Hm. injection Hm as <- <-.
  eapply sweep_kept; [|exact Hs3 |].
  - by eapply sweep_wf.
  - eapply sweep_kept; [done | exact Hs2 |]. by eapply matching_kept.
Qed.

Lemma insert_kept o s :
  book_wf s → P o → Forall P (book_orders s) →
  Forall P (book_orders (Orderbook.insert o s)).
Proof.
  intros Hwf Ho HP. unfold book_orders in *. apply Forall_app in HP as [HB HS].
  pose proof (insert_side o s) as H1. pose proof (insert_other_side o s) as H2.
  destruct (subscript_push_wf _ o _ eq_refl (book_wf_side (Order.GetSide o) _ Hwf))
    as [_ Hp].
  rewrite <- H1 in Hp.
  destruct (Order.GetSide o); simpl in *; apply Forall_app;
    rewrite ?H2, ?Hp; split; try done; by constructor.
Qed.

Lemma AddOrder_kept o s ts s' :
  book_wf s → P o → Orderbook.AddOrder o s = Ok (ts, s') →
  Forall P (book_orders s) → Forall P (book_orders s').
Proof using P_fill.
  intros Hwf Ho Ha HP.
  destruct (AddOrder_cases o s) as [H|(Hnone & _ & H)]; rewrite H in Ha.
  - by injection Ha as <- <-.
  - eapply MatchOrders_kept; [|exact Ha |].
    + by apply insert_wf.
    + by apply insert_kept.
Qed.
End OrdersKept.

(** Orders with a positive remaining quantity. *)
Lemma positive_fill quantity o :
  Order.GetRemainingQuantity o ≠ 0%N →
  Order.IsFilled (filled_by quantity o) = false →
  Order.GetRemainingQuantity (filled_by quantity o) ≠ 0%N.
Proof. intros _ H. unfold Order.IsFilled in H. by apply N.eqb_neq in H. Qed.

Lemma step_positive op s ts s' :
  book_inv s → positive_quantity op → step op s = Ok (ts, s') →
  Forall (λ o, Order.GetRemainingQuantity o ≠ 0%N) (book_orders s) →
  Forall (λ o, Order.GetRemainingQuantity o ≠ 0%N) (book_orders s').
Proof.
  intros Hinv Hpos Hs HP. pose proof Hinv as (Hwf & _).
  destruct op as [ty i sd p q|i|i sd p q]; simpl in *.
  - eapply (AddOrder_kept _ positive_fill); [done | | exact Hs | done].
    simpl. lia.
  - apply bind_Ok_inv in Hs as (s1 & Hc & [= <- <-]).
    by eapply CancelOrder_kept.
  - unfold Orderbook.MatchOrder in Hs.
    destruct (Orderbook.orders_ s !! _) as [e|]; [|by injection Hs as <- <-].
    apply bind_Ok_inv in Hs as (s1 & Hc & Ha).
    eapply (AddOrder_kept _ positive_fill); [ | | exact Ha | ].
    + by eapply CancelOrder_wf.
    + simpl. lia.
    + by eapply CancelOrder_kept.
Qed.

Lemma run_positive ops :
  ∀ s s', book_inv s → Forall positive_quantity ops → run ops s = Ok s' →
  Forall (λ o, Order.GetRemainingQuantity o ≠ 0%N) (book_orders s) →
  Forall (λ o, Order.GetRemainingQuantity o ≠ 0%N) (book_orders s').
Proof.
  induction ops as [|op ops IH]; intros s s' Hinv Hpos Hrun HP; simpl in Hrun.
  - by injection Hrun as <-.
  - apply Forall_cons in Hpos as [Hop Hpos].
    destruct (step_inv op s Hinv) as (ts & s1 & Hs & Hinv1).
    rewrite Hs in Hrun. simpl in Hrun.
    eapply IH; [exact Hinv1 | done | done |].
    by apply (step_positive op s ts s1).
Qed.

(* ===================================================================== *)
(** ** Crossing submissions *)

Lemma cannot_cross_CanMatch sd p s :
  cannot_cross sd p s ↔ Orderbook.CanMatch sd p s = false.
Proof.
  unfold cannot_cross, Orderbook.CanMatch. destruct sd; simpl.
  - destruct (Orderbook.asks_ s) as [|[k q] r]; simpl; [done |].
    rewrite Z.leb_gt. done.
  - destruct (Orderbook.bids_ s) as [|[k q] r]; simpl; [done |].
    rewrite Z.leb_gt. done.
Qed.

Lemma matching_nil_inv s s' : matching s [] s' → s' = s.
Proof. by inversion 1. Qed.

Lemma insert_crossed o s :
  uncrossed s →
  Orderbook.CanMatch (Order.GetSide o) (Order.GetPrice o) s = true →
  ¬ uncrossed (Orderbook.insert o s).
Proof.
  intros Hu Hc Hu'. pose proof (insert_front o s Hu Hc) as Hf.
  pose proof (insert_other_side o s) as Ho.
  apply CanMatch_true in Hc as (best & q & r & Hm & Hbest).
  unfold uncrossed in Hu'.
  destruct (Order.GetSide o); simpl in *; rewrite Hf, Ho, Hm in Hu'; lia.
Qed.

(** A submission that can match trades. *)
Lemma AddOrder_crossing_trades o s ts s' :
  book_inv s →
  Orderbook.orders_ s !! Order.GetOrderId o = None →
  Orderbook.CanMatch (Order.GetSide o) (Order.GetPrice o) s = true →
  Orderbook.AddOrder o s = Ok (ts, s') → ts ≠ [].
Proof.
  intros (Hwf & Hu & _) Hnone Hc Ha ->.
  rewrite AddOrder_fresh in Ha by done.
  destruct (MatchOrders_run _ (insert_wf o s Hnone Hwf))
    as (s1 & ts & s2 & s3 & Hm & _ & Hu1 & _ & _ & Hr & _).
  rewrite Hr in Ha. injection Ha as -> ->.
  apply matching_nil_inv in Hm as ->. by apply (insert_crossed o s).
Qed.

(* ===================================================================== *)
(** ** The snapshot *)

Lemma Quantity_wrap_add_l a b :
  Quantity_wrap (Quantity_wrap a + b) = Quantity_wrap (a + b).
Proof. unfold Quantity_wrap. by rewrite N.Div0.add_mod_idemp_l. Qed.

Lemma accumulate_wrap l a :
  fold_left
    (λ runningSum order, Quantity_wrap (runningSum + Order.GetRemainingQuantity order))
    l (Quantity_wrap a)
  = Quantity_wrap (a + total_remaining l).
Proof.
  revert a. induction l as [|o l IH]; intros a; simpl.
  - by rewrite N.add_0_r.
  - rewrite Quantity_wrap_add_l, IH. f_equal. lia.
Qed.

Lemma CreateLevelInfos_quantity price orders :
  LevelInfo.quantity_ (Orderbook.CreateLevelInfos price orders)
  = Quantity_wrap (total_remaining orders).
Proof.
  unfold Orderbook.CreateLevelInfos. simpl.
  change 0%N with (Quantity_wrap 0) at 1. by rewrite accumulate_wrap.
Qed.

Lemma total_remaining_perm l l' :
  l ≡ₚ l' → total_remaining l = total_remaining l'.
Proof. induction 1; simpl; lia. Qed.

Lemma level_elem sd m p q x :
  side_wf sd m → (p, q) ∈ m →
  x ∈ q ↔ x ∈ side_orders m ∧ Order.GetPrice x = p.
Proof.
  intros Hwf Hpq. pose proof Hwf as [Hs Hl]. split.
  - intros Hx. split.
    + unfold side_orders. apply list_elem_of_join. exists q. split; [done |].
      apply list_elem_of_fmap. by exists (p, q).
    + rewrite Forall_forall in Hl. destruct (Hl _ Hpq) as [_ Hall].
      rewrite Forall_forall in Hall. by destruct (Hall _ Hx).
  - intros [Hx Hp]. unfold side_orders in Hx.
    apply list_elem_of_join in Hx as (q' & Hx & Hq').
    apply list_elem_of_fmap in Hq' as ([k q''] & -> & Hkq). simpl in Hx.
    rewrite Forall_forall in Hl. destruct (Hl _ Hkq) as [_ Hall].
    rewrite Forall_forall in Hall. destruct (Hall _ Hx) as [_ Hk]. simpl in Hk.
    assert (k = p) as -> by congruence.
    apply (sorted_NoDup sd) in Hs.
    pose proof (elem_find _ _ _ Hs Hpq) as H1.
    pose proof (elem_find _ _ _ Hs Hkq) as H2. congruence.
Qed.

Lemma level_NoDup (m : PriceMap.t) p q :
  NoDup (ids (side_orders m)) → (p, q) ∈ m → NoDup q.
Proof.
  intros Hnd Hpq. apply list_elem_of_split in Hpq as (m1 & m2 & ->).
  rewrite side_orders_app, side_orders_cons in Hnd. unfold ids in Hnd.
  rewrite !fmap_app in Hnd. apply NoDup_app in Hnd as (_ & _ & Hnd).
  apply NoDup_app in Hnd as (Hnd & _ & _). by apply NoDup_fmap_1 in Hnd.
Qed.

Lemma live_at_elem sd p s x :
  book_wf s →
  x ∈ live_at sd p s
  ↔ x ∈ side_orders (side_map sd s) ∧ Order.GetPrice x = p.
Proof.
  intros Hwf. unfold live_at. rewrite list_elem_of_filter.
  rewrite (book_wf_elem_side sd s x Hwf). destruct Hwf as (_ & _ & _ & Hix).
  split.
  - intros [[Hsd Hp] Hx]. apply list_elem_of_fmap in Hx as ([i y] & -> & Hiy).
    apply elem_of_map_to_list in Hiy. apply Hix in Hiy as [Hy _]. done.
  - intros [[Hx Hsd] Hp]. split; [done |].
    apply list_elem_of_fmap. exists (Order.GetOrderId x, x). split; [done |].
    apply elem_of_map_to_list. by apply Hix.
Qed.

Lemma live_at_NoDup sd p s : book_wf s → NoDup (live_at sd p s).
Proof.
  intros (_ & _ & _ & Hix). unfold live_at. apply NoDup_filter.
  apply NoDup_fmap_2_strong; [|apply NoDup_map_to_list].
  intros [i x] [j y] Hx Hy Heq. simpl in Heq. subst y.
  apply elem_of_map_to_list in Hx, Hy.
  apply Hix in Hx as [_ <-]. apply Hix in Hy as [_ <-]. done.
Qed.

(** The queue of a level holds the live orders of its side and price. *)
Lemma level_live sd s p q :
  book_wf s → (p, q) ∈ side_map sd s → q ≡ₚ live_at sd p s.
Proof.
  intros Hwf Hpq. apply NoDup_Permutation.
  - eapply level_NoDup; [|done]. by apply book_wf_side_NoDup.
  - by apply live_at_NoDup.
  - intros x. rewrite live_at_elem by done.
    apply (level_elem sd); [by apply book_wf_side | done].
Qed.

Lemma side_infos_eq sd s :
  side_infos sd (Orderbook.GetOrderInfos s)
  = (λ e, Orderbook.CreateLevelInfos e.1 e.2) <$> side_map sd s.
Proof.
  unfold Orderbook.GetOrderInfos. destruct sd; simpl;
    apply map_ext; by intros [? ?].
Qed.

Lemma infos_sorted sd (m : PriceMap.t) :
  StronglySorted (before sd) (m.*1) →
  StronglySorted (λ a b, before sd (LevelInfo.price_ a) (LevelInfo.price_ b))
    ((λ e, Orderbook.CreateLevelInfos e.1 e.2) <$> m).
Proof.
  induction m as [|[p q] m IH]; csimpl; [constructor |].
  intros Hs. apply StronglySorted_cons in Hs as [Hall Hs].
  apply StronglySorted_cons. split; [|by apply IH].
  rewrite Forall_fmap. rewrite Forall_fmap in Hall.
  eapply Forall_impl; [exact Hall |]. by intros [? ?].
Qed.

(* ===================================================================== *)
(** ** The trades of a run *)

(** Every trade of a run is made by one step, on the front orders of the
    best levels of the state the trades before it lead to. *)
Lemma matching_split s ts s' :
  matching s ts s' →
  ∀ pre t post, ts = pre ++ t :: post →
  ∃ mid bidPrice bid bids rb askPrice ask asks ra,
    matching s pre mid
    ∧ Orderbook.bids_ mid = (bidPrice, bid :: bids) :: rb
    ∧ Orderbook.asks_ mid = (askPrice, ask :: asks) :: ra
    ∧ askPrice ≤ bidPrice
    ∧ t = trade_of bid ask
            (N.min (Order.GetRemainingQuantity bid) (Order.GetRemainingQuantity ask)).
Proof.
  induction 1 as [|s bp bid bids rb ap ask asks ra s1 t0 ts s3 Hb Ha Hle Hm Hrest IH];
    intros pre t post Heq.
  - by destruct pre.
  - destruct pre as [|t1 pre]; simpl in Heq; injection Heq as -> ->.
    + exists s, bp, bid, bids, rb, ap, ask, asks, ra.
      split; [constructor |]. split; [done |]. split; [done |]. split; [done |].
      by destruct (matching_fill_inv _ _ _ _ _ _ _ _ _ _ _ Hb Ha Hm) as [_ ->].
    + destruct (IH pre t post eq_refl)
        as (mid & bp' & bid' & bids' & rb' & ap' & ask' & asks' & ra' & Hpre & H).
      exists mid, bp', bid', bids', rb', ap', ask', asks', ra'. split; [|done].
      eapply matching_fill; eauto.
Qed.

Lemma front_price sd s p o q r :
  book_wf s → side_map sd s = (p, o :: q) :: r →
  Order.GetPrice o = p ∧ Order.GetSide o = sd
  ∧ Orderbook.orders_ s !! Order.GetOrderId o = Some o.
Proof.
  intros Hwf Hm. pose proof (book_wf_side sd s Hwf) as Hs. rewrite Hm in Hs.
  apply side_wf_cons in Hs as (_ & _ & _ & Hall). simpl in Hall.
  apply Forall_cons in Hall as [[Hsd Hp] _]. split; [done |]. split; [done |].
  destruct Hwf as (_ & _ & Hc). eapply consistent_lookup; [done |].
  unfold book_orders. apply elem_of_app.
  destruct sd; simpl in Hm; rewrite Hm, side_orders_cons; [left | right]; left.
Qed.

(* ===================================================================== *)
(** ** Time priority within a level *)

Lemma find_app p (m1 m2 : PriceMap.t) :
  PriceMap.find p (m1 ++ m2)
  = match PriceMap.find p m1 with
    | Some q => Some q
    | None => PriceMap.find p m2
    end.
Proof.
  induction m1 as [|[k q] m1 IH]; [done |]. simpl.
  by destruct (p =? k).
Qed.

Lemma find_cons_ne p k q (m : PriceMap.t) :
  p ≠ k → PriceMap.find p ((k, q) :: m) = PriceMap.find p m.
Proof. intros H. simpl. by destruct (Z.eqb_spec p k). Qed.

Lemma find_cons_eq p q (m : PriceMap.t) : PriceMap.find p ((p, q) :: m) = Some q.
Proof. simpl. by rewrite Z.eqb_refl. Qed.

Lemma find_settle_ne p p0 o q m :
  p ≠ p0 → PriceMap.find p (settle p0 o q m) = PriceMap.find p m.
Proof.
  intros H. unfold settle.
  destruct (Order.IsFilled o); [destruct q|]; by rewrite ?find_cons_ne.
Qed.

Lemma find_settle_eq p o q x l m :
  front_after o ++ q = x :: l →
  PriceMap.find p (settle p o q m) = Some (x :: l).
Proof. intros H. by rewrite (settle_cons _ _ _ _ _ _ H), find_cons_eq. Qed.

Lemma find_settle_behind p o q m :
  q ≠ [] → PriceMap.find p (settle p o q m) = Some (front_after o ++ q).
Proof.
  intros H. unfold settle, front_after.
  destruct (Order.IsFilled o); [destruct q|]; by rewrite ?find_cons_eq.
Qed.

Lemma find_elem_orders p q (m : PriceMap.t) x :
  PriceMap.find p m = Some q → x ∈ q → x ∈ side_orders m.
Proof.
  intros Hf Hx. apply find_Some_elem in Hf. unfold side_orders.
  apply list_elem_of_join. exists q. split; [done |].
  apply list_elem_of_fmap. by exists (p, q).
Qed.

(** One step of matching, seen from one side. *)
Lemma step_side_view sd s bidPrice bid bids rb askPrice ask asks ra s1 t :
  Orderbook.bids_ s = (bidPrice, bid :: bids) :: rb →
  Orderbook.asks_ s = (askPrice, ask :: asks) :: ra →
  Orderbook.match_front bidPrice askPrice s [] = Ok (s1, [t]) →
  ∃ p0 front q0 r0 quantity,
    side_map sd s = (p0, front :: q0) :: r0
    ∧ side_map sd s1 = settle p0 (filled_by quantity front) q0 r0
    ∧ side_trade sd t
      = TradeInfo.mk (Order.GetOrderId front) (Order.GetPrice front) quantity
    ∧ (quantity ≤ Order.GetRemainingQuantity front)%N.
Proof.
  intros Hb Ha Hm.
  destruct (matching_fill_inv _ _ _ _ _ _ _ _ _ _ _ Hb Ha Hm) as [-> ->].
  destruct sd; simpl.
  - exists bidPrice, bid, bids, rb. eexists. split; [done |]. split; [done |].
    split; [done |]. lia.
  - exists askPrice, ask, asks, ra. eexists. split; [done |]. split; [done |].
    split; [done |]. lia.
Qed.

(** The trades of a run name orders of the book. *)
Lemma matching_trade_ids sd s ts s' :
  matching s ts s' →
  ∀ t, t ∈ ts →
  TradeInfo.orderId_ (side_trade sd t) ∈ ids (side_orders (side_map sd s)).
Proof.
  induction 1 as [|s bp bid bids rb ap ask asks ra s1 t0 ts s3 Hb Ha Hle Hm Hrest IH];
    intros t Ht; [by apply elem_of_nil in Ht |].
  destruct (step_side_view sd _ _ _ _ _ _ _ _ _ _ _ Hb Ha Hm)
    as (p0 & front & q0 & r0 & quantity & Hs & Hs1 & Ht0 & _).
  rewrite Hs, side_orders_cons. unfold ids. csimpl.
  apply elem_of_cons in Ht as [->|Ht].
  - rewrite Ht0. left.
  - specialize (IH t Ht). rewrite Hs1, side_orders_settle in IH.
    unfold ids in IH. rewrite fmap_app in IH. apply elem_of_app in IH as [IH|IH].
    + unfold front_after in IH. destruct (Order.IsFilled _).
      * by apply elem_of_nil in IH.
      * apply list_elem_of_singleton in IH. rewrite IH. left.
    + by right.
Qed.

Lemma filled_on_absent sd i ts :
  (∀ t, t ∈ ts → TradeInfo.orderId_ (side_trade sd t) ≠ i) →
  filled_on sd i ts = 0%N.
Proof.
  induction ts as [|t ts IH]; intros H; [done |]. simpl.
  destruct (N.eqb_spec (TradeInfo.orderId_ (side_trade sd t)) i) as [E|_].
  - exfalso. apply (H t); [left | done].
  - apply IH. intros t' Ht'. apply H. by right.
Qed.

Lemma ids_elem x (l : list Order.t) : x ∈ l → Order.GetOrderId x ∈ ids l.
Proof. apply list_elem_of_fmap_2. Qed.

Lemma matching_fifo sd s ts s' :
  matching s ts s' → book_wf s →
  ∀ p l1 a l2 b l3 pre t post,
    level sd p s = Some (l1 ++ a :: l2 ++ b :: l3) →
    ts = pre ++ t :: post →
    TradeInfo.orderId_ (side_trade sd t) = Order.GetOrderId b →
    filled_on sd (Order.GetOrderId a) pre = Order.GetRemainingQuantity a.
Proof.
  induction 1 as [|s bp bid bids rb ap ask asks ra s1 t0 ts s3 Hb Ha Hle Hm Hrest IH];
    intros Hwf p l1 a l2 b l3 pre t post Hlv Heq Hid; [by destruct pre |].
  pose proof (match_front_wf _ _ _ _ _ _ _ _ _ _ _ _ Hb Ha Hm Hwf) as Hwf1.
  destruct (step_side_view sd _ _ _ _ _ _ _ _ _ _ _ Hb Ha Hm)
    as (p0 & front & q0 & r0 & quantity & Hs & Hs1 & Ht0 & Hq).
  pose proof (book_wf_side_NoDup sd s Hwf) as Hnd.
  rewrite Hs, side_orders_cons in Hnd. unfold ids in Hnd. csimpl in Hnd.
  apply NoDup_cons in Hnd as [Hfront Hnd]. fold (ids (q0 ++ side_orders r0)) in Hfront.
  unfold level in Hlv. rewrite Hs in Hlv.
  (* where the level of [a] and [b] is, against the level being matched *)
  assert (Hcase :
    (p ≠ p0 ∧ PriceMap.find p r0 = Some (l1 ++ a :: l2 ++ b :: l3))
    ∨ (p = p0 ∧ front :: q0 = l1 ++ a :: l2 ++ b :: l3)).
  { destruct (decide (p = p0)) as [->|Hne].
    - right. rewrite find_cons_eq in Hlv. by injection Hlv.
    - left. by rewrite find_cons_ne in Hlv. }
  assert (Hb_behind : Order.GetOrderId b ∈ ids (q0 ++ side_orders r0)).
  { unfold ids. rewrite fmap_app. apply elem_of_app.
    destruct Hcase as [[_ Hf]|[_ Hf]].
    - right. apply ids_elem. eapply find_elem_orders; [exact Hf |].
      rewrite !elem_of_app, !elem_of_cons, !elem_of_app, !elem_of_cons. tauto.
    - left. apply ids_elem. destruct l1 as [|x l1]; simpl in Hf; injection Hf as _ ->;
        rewrite ?elem_of_app, ?elem_of_cons, ?elem_of_app, ?elem_of_cons; tauto. }
  destruct pre as [|t1 pre]; simpl in Heq; injection Heq as -> ->.
  { (* the first trade cannot be on [b] *)
    exfalso. rewrite Ht0 in Hid. simpl in Hid. rewrite Hid in Hfront. done. }
  simpl. rewrite Ht0. simpl.
  destruct Hcase as [[Hne Hf]|[-> Hf]].
  - (* another level is being matched *)
    assert (Ha_behind : Order.GetOrderId a ∈ ids (q0 ++ side_orders r0)).
    { unfold ids. rewrite fmap_app. apply elem_of_app. right. apply ids_elem.
      eapply find_elem_orders; [exact Hf |].
      rewrite !elem_of_app, !elem_of_cons. tauto. }
    destruct (N.eqb_spec (Order.GetOrderId front) (Order.GetOrderId a)) as [E|_];
      [by rewrite E in Hfront |].
    eapply (IH Hwf1 p l1 a l2 b l3 pre t post); [|done | done].
    unfold level. by rewrite Hs1, find_settle_ne.
  - destruct l1 as [|x l1]; simpl in Hf; injection Hf as -> ->.
    + (* [a] is the front order *)
      rewrite N.eqb_refl.
      destruct (Order.IsFilled (filled_by quantity a)) eqn:Efill.
      * (* filled: no later trade is on [a] *)
        rewrite filled_on_absent.
        { unfold Order.IsFilled in Efill. apply N.eqb_eq in Efill.
          unfold filled_by, Order.GetRemainingQuantity in *. simpl in Efill. lia. }
        intros t' Ht' E.
        pose proof (matching_trade_ids sd _ _ _ Hrest t') as Hin.
        rewrite Hs1, side_orders_settle, E in Hin.
        unfold front_after in Hin. rewrite Efill in Hin. simpl in Hin.
        apply Hfront, Hin. rewrite elem_of_app. by left.
      * (* partly filled: stays in front *)
        assert (Hpre : filled_on sd (Order.GetOrderId a) pre
                       = Order.GetRemainingQuantity (filled_by quantity a)).
        { apply (IH Hwf1 p0 [] (filled_by quantity a) l2 b l3 pre t post);
            [|done | done].
          unfold level. rewrite Hs1. apply find_settle_eq.
          unfold front_after. by rewrite Efill. }
        rewrite Hpre.
        unfold filled_by, Order.GetRemainingQuantity in *. simpl. lia.
    + (* [a] is behind the front order *)
      assert (Ha_behind : Order.GetOrderId a
                          ∈ ids ((l1 ++ a :: l2 ++ b :: l3) ++ side_orders r0)).
      { unfold ids. rewrite fmap_app. apply elem_of_app. left.
        apply ids_elem. rewrite !elem_of_app, !elem_of_cons. tauto. }
      destruct (N.eqb_spec (Order.GetOrderId x) (Order.GetOrderId a)) as [E|_];
        [by rewrite E in Hfront |].
      eapply (IH Hwf1 p0 (front_after (filled_by quantity x) ++ l1) a l2 b l3 pre t post);
        [|done | done].
      unfold level. rewrite Hs1. rewrite <- app_assoc.
      apply find_settle_behind. by destruct l1.
Qed.

(* ===================================================================== *)
(** ** The queue of a level under the operations *)

Lemma insert_level sd p o s :
  book_wf s →
  level sd p (Orderbook.insert o s)
  = if decide (Order.GetSide o = sd ∧ Order.GetPrice o = p)
    then Some (default [] (level sd p s) ++ [o])
    else level sd p s.
Proof.
  intros Hwf. unfold level.
  destruct (decide (Order.GetSide o = sd)) as [<-|Hsd].
  2:{ rewrite decide_False by tauto.
      assert (sd = other (Order.GetSide o)) as -> by (by destruct sd, (Order.GetSide o)).
      by rewrite insert_other_side. }
  rewrite insert_side.
  destruct (book_wf_side (Order.GetSide o) s Hwf) as [Hs _].
  destruct (subscript_spec (Order.GetSide o) (Order.GetPrice o)
              (Orderbook.push_back o) _ Hs)
    as [(m1 & q & m2 & Hm & Hn & ->)|(m1 & m2 & Hm & Hn & -> & _)]; rewrite Hm.
  - rewrite !find_app. destruct (decide (p = Order.GetPrice o)) as [->|Hne].
    + rewrite decide_True by done. rewrite (find_not_key _ _ Hn), !find_cons_eq. done.
    + rewrite decide_False by (intros [_ ?]; congruence).
      by rewrite !find_cons_ne.
  - rewrite !find_app. destruct (decide (p = Order.GetPrice o)) as [->|Hne].
    + rewrite decide_True by done. rewrite Hm, fmap_app in Hn.
      apply not_elem_of_app in Hn as [Hn1 Hn2].
      by rewrite (find_not_key _ _ Hn1), find_cons_eq, (find_not_key _ _ Hn2).
    + rewrite decide_False by (intros [_ ?]; congruence).
      by rewrite find_cons_ne.
Qed.

Lemma level_ids_insert sd p o s :
  book_wf s →
  level_ids sd p (Orderbook.insert o s)
  `sublist_of` level_ids sd p s ++ [Order.GetOrderId o].
Proof.
  intros Hwf. unfold level_ids. rewrite insert_level by done.
  case_decide; simpl.
  - unfold ids. by rewrite fmap_app.
  - by apply sublist_inserts_r.
Qed.

Lemma find_settle p p0 o q m :
  p0 ∉ m.*1 →
  default [] (PriceMap.find p (settle p0 o q m))
  = if decide (p = p0) then front_after o ++ q
    else default [] (PriceMap.find p m).
Proof.
  intros Hn. case_decide as E.
  - subst p0. destruct (front_after o ++ q) as [|x l] eqn:Eq.
    + by rewrite (settle_nil _ _ _ _ Eq), find_not_key.
    + by rewrite (find_settle_eq _ _ _ _ _ _ Eq).
  - by rewrite find_settle_ne.
Qed.

Lemma front_after_ids_sublist o' o (q : list Order.t) :
  Order.GetOrderId o' = Order.GetOrderId o →
  ids (front_after o' ++ q) `sublist_of` ids (o :: q).
Proof.
  intros Hid. unfold front_after, ids. destruct (Order.IsFilled o'); csimpl.
  - by apply sublist_cons.
  - rewrite Hid. by apply sublist_skip.
Qed.

Lemma level_ids_matching sd p s ts s' :
  matching s ts s' → book_wf s →
  level_ids sd p s' `sublist_of` level_ids sd p s.
Proof.
  induction 1 as [|s bp bid bids rb ap ask asks ra s1 t0 ts s3 Hb Ha Hle Hm Hrest IH];
    intros Hwf; [done |].
  pose proof (match_front_wf _ _ _ _ _ _ _ _ _ _ _ _ Hb Ha Hm Hwf) as Hwf1.
  etrans; [by apply IH |].
  destruct (step_side_view sd _ _ _ _ _ _ _ _ _ _ _ Hb Ha Hm)
    as (p0 & front & q0 & r0 & quantity & Hs & Hs1 & _).
  pose proof (book_wf_side sd s Hwf) as Hside. rewrite Hs in Hside.
  unfold level_ids, level. rewrite Hs1, Hs.
  rewrite find_settle by (by eapply side_wf_head_fresh).
  case_decide as E.
  - subst p0. rewrite find_cons_eq. simpl. by apply front_after_ids_sublist.
  - by rewrite find_cons_ne.
Qed.

Lemma find_level_entry_eq p q :
  PriceMap.find p (level_entry p q) = match q with [] => None | _ :: _ => Some q end.
Proof. destruct q; [done |]. apply find_cons_eq. Qed.

Lemma find_level_entry_ne p p0 q :
  p ≠ p0 → PriceMap.find p (level_entry p0 q) = None.
Proof. intros H. destruct q; [done |]. unfold level_entry. by rewrite find_cons_ne. Qed.

Lemma level_ids_cancel sd p s i s' :
  book_wf s → Orderbook.CancelOrder i s = Ok s' →
  level_ids sd p s' `sublist_of` level_ids sd p s.
Proof.
  intros Hwf Hc. destruct (Orderbook.orders_ s !! i) as [o|] eqn:Hi.
  2:{ rewrite CancelOrder_unknown in Hc by done. by injection Hc as <-. }
  destruct (CancelOrder_live _ _ _ Hwf Hi) as (m1 & q1 & q2 & m2 & Hm & Hn & _ & Hr).
  rewrite Hr in Hc. injection Hc as <-.
  destruct (decide (sd = Order.GetSide o)) as [->|Hsd].
  2:{ unfold level_ids, level, cancelled.
      by destruct (Order.GetSide o), sd. }
  assert (Hmap : side_map (Order.GetSide o)
                   (cancelled (Order.GetSide o)
                      (m1 ++ level_entry (Order.GetPrice o) (q1 ++ q2) ++ m2) i s)
                 = m1 ++ level_entry (Order.GetPrice o) (q1 ++ q2) ++ m2).
  { unfold cancelled. by destruct (Order.GetSide o). }
  pose proof (book_wf_side (Order.GetSide o) s Hwf) as [Hs _].
  rewrite Hm in Hs. apply (sorted_NoDup (Order.GetSide o)) in Hs.
  rewrite fmap_app in Hs. csimpl in Hs.
  apply NoDup_app in Hs as (_ & _ & Hs). apply NoDup_cons in Hs as [Hn2 _].
  unfold level_ids, level. rewrite Hmap, Hm. rewrite !find_app.
  destruct (decide (p = Order.GetPrice o)) as [->|Hne].
  - rewrite (find_not_key _ _ Hn), find_cons_eq, find_level_entry_eq.
    destruct (q1 ++ q2) as [|x l] eqn:E.
    + rewrite (find_not_key _ _ Hn2). apply sublist_nil_l.
    + change (ids (x :: l) `sublist_of` ids (q1 ++ o :: q2)).
      rewrite <- E. unfold ids.
      rewrite !fmap_app. csimpl. apply sublist_app; [done |]. by apply sublist_cons.
  - by rewrite find_cons_ne, find_level_entry_ne.
Qed.

Lemma level_ids_sweep sd p m s s' :
  book_wf s → Orderbook.sweep m s = Ok s' →
  level_ids sd p s' `sublist_of` level_ids sd p s.
Proof.
  intros Hwf Hs. unfold Orderbook.sweep in Hs.
  destruct (PriceMap.begin m) as [[? [|o ?]]|]; try (by injection Hs as <-).
  destruct (Order.GetOrderType o); [by injection Hs as <- |].
  by eapply level_ids_cancel.
Qed.

Lemma level_ids_MatchOrders sd p s ts s' :
  book_wf s → Orderbook.MatchOrders s = Ok (ts, s') →
  level_ids sd p s' `sublist_of` level_ids sd p s.
Proof.
  intros Hwf Hm.
  destruct (MatchOrders_run s Hwf)
    as (s1 & ts1 & s2 & s3 & Hrun & Hwf1 & _ & Hs2 & Hs3 & Hr & _).
  rewrite Hr in Hm. injection Hm as <- <-.
  etrans; [eapply level_ids_sweep; [|exact Hs3]; by eapply sweep_wf |].
  etrans; [by eapply level_ids_sweep |].
  by eapply level_ids_matching.
Qed.

Lemma level_ids_AddOrder sd p o s ts s' :
  book_wf s → Orderbook.AddOrder o s = Ok (ts, s') →
  level_ids sd p s' `sublist_of` level_ids sd p s ++ [Order.GetOrderId o].
Proof.
  intros Hwf Ha.
  destruct (AddOrder_cases o s) as [H|(Hnone & _ & H)]; rewrite H in Ha.
  - injection Ha as <- <-. by apply sublist_inserts_r.
  - etrans; [eapply level_ids_MatchOrders; [|exact Ha]; by apply insert_wf |].
    by apply level_ids_insert.
Qed.

Lemma level_ids_step sd p op s ts s' :
  book_wf s → step op s = Ok (ts, s') →
  level_ids sd p s' `sublist_of` level_ids sd p s ++ [op_id op].
Proof.
  intros Hwf Hs. destruct op as [ty i sd' p' q|i|i sd' p' q]; simpl in *.
  - by apply (level_ids_AddOrder _ _ _ _ _ _ Hwf Hs).
  - apply bind_Ok_inv in Hs as (s1 & Hc & [= <- <-]).
    apply sublist_inserts_r. by eapply level_ids_cancel.
  - unfold Orderbook.MatchOrder in Hs. simpl in Hs.
    destruct (Orderbook.orders_ s !! i) as [e|].
    2:{ injection Hs as <- <-. by apply sublist_inserts_r. }
    apply bind_Ok_inv in Hs as (s1 & Hc & Ha).
    etrans; [eapply level_ids_AddOrder; [|exact Ha]; by eapply CancelOrder_wf |].
    simpl. apply sublist_app; [|done]. by eapply level_ids_cancel.
Qed.

(* ===================================================================== *)
(** ** Arrival order and queue order *)

Lemma filter_sublist_mono {A} (P : A → Prop) `{∀ x, Decision (P x)} (l1 l2 : list A) :
  l1 `sublist_of` l2 → filter P l1 `sublist_of` filter P l2.
Proof.
  induction 1 as [|x l1 l2 Hs IH|x l1 l2 Hs IH]; [done | |].
  - rewrite !filter_cons. case_decide; [by apply sublist_skip | done].
  - rewrite filter_cons. case_decide; [by apply sublist_cons | done].
Qed.

Lemma filter_ext_in {A} (P Q : A → Prop) `{∀ x, Decision (P x)} `{∀ x, Decision (Q x)}
    (l : list A) :
  (∀ x, x ∈ l → P x ↔ Q x) → filter P l = filter Q l.
Proof.
  induction l as [|x l IH]; intros Hpq; [done |].
  rewrite !filter_cons.
  assert (Hl : filter P l = filter Q l).
  { apply IH. intros y Hy. apply Hpq. by right. }
  destruct (decide (P x)) as [Hp|Hp], (decide (Q x)) as [Hq|Hq]; rewrite ?Hl; try done.
  - exfalso. apply Hq, Hpq; [left | done].
  - exfalso. apply Hp, Hpq; [left | done].
Qed.

Lemma filter_none {A} (P : A → Prop) `{∀ x, Decision (P x)} (l : list A) :
  (∀ x, x ∈ l → ¬ P x) → filter P l = [].
Proof.
  induction l as [|x l IH]; intros Hn; [done |].
  rewrite filter_cons_False by (apply Hn; left). apply IH.
  intros y Hy. apply Hn. by right.
Qed.

Lemma filter_cons_inv {A} (P : A → Prop) `{∀ x, Decision (P x)} (l : list A) y ys :
  filter P l = y :: ys →
  ∃ l1 l2, l = l1 ++ y :: l2 ∧ filter P l2 = ys.
Proof.
  induction l as [|x l IH]; [done |]. rewrite filter_cons.
  destruct (decide (P x)).
  - intros [= -> <-]. by exists [], l.
  - intros Hf. destruct (IH Hf) as (l1 & l2 & -> & Hl2). by exists (x :: l1), l2.
Qed.

Lemma sublist_pair {A} (l : list A) a b :
  l `sublist_of` [a; b] → a ≠ b → a ∈ l → b ∈ l → l = [a; b].
Proof.
  intros Hs Hne Ha Hb.
  apply sublist_cons_r in Hs as [Hs|(l' & -> & Hs)].
  - exfalso. apply sublist_cons_r in Hs as [Hs|(l' & -> & Hs)].
    + apply sublist_nil_r in Hs as ->. by apply elem_of_nil in Ha.
    + apply sublist_nil_r in Hs as ->. apply list_elem_of_singleton in Ha. done.
  - apply sublist_cons_r in Hs as [Hs|(l'' & -> & Hs)].
    + apply sublist_nil_r in Hs as ->. apply list_elem_of_singleton in Hb. done.
    + by apply sublist_nil_r in Hs as ->.
Qed.

(** The identifiers of a level are those of the live orders of its side
    and price. *)
Lemma level_ids_live sd p s i :
  book_wf s →
  i ∈ level_ids sd p s
  ↔ ∃ x, Orderbook.orders_ s !! i = Some x
         ∧ Order.GetSide x = sd ∧ Order.GetPrice x = p.
Proof.
  intros Hwf. pose proof (book_wf_side sd s Hwf) as Hside.
  pose proof Hwf as (_ & _ & _ & Hix). unfold level_ids, level. split.
  - intros Hi. destruct (PriceMap.find p (side_map sd s)) as [q|] eqn:Hf;
      [|by apply elem_of_nil in Hi].
    apply list_elem_of_fmap in Hi as (x & -> & Hx).
    apply find_Some_elem in Hf.
    apply (level_elem sd _ _ _ x Hside Hf) in Hx as [Hx Hp].
    apply (book_wf_elem_side sd s x Hwf) in Hx as [Hx Hsd].
    exists x. split; [by apply Hix | done].
  - intros (x & Hx & Hsd & Hp). apply Hix in Hx as [Hx <-].
    pose proof (book_orders_side sd s x Hwf Hx Hsd) as Hin.
    destruct (side_wf_locate _ _ _ Hside (book_wf_side_NoDup sd s Hwf) Hin)
      as (m1 & q1 & q2 & m2 & Hm & Hn & _).
    rewrite Hp in Hm, Hn.
    rewrite Hm, find_app, (find_not_key _ _ Hn), find_cons_eq. simpl.
    apply ids_elem. apply elem_of_app. right. left.
Qed.

Lemma level_ids_NoDup sd p s : book_wf s → NoDup (level_ids sd p s).
Proof.
  intros Hwf. unfold level_ids, level.
  destruct (PriceMap.find p (side_map sd s)) as [q|] eqn:Hf; [|constructor].
  apply find_Some_elem in Hf. apply list_elem_of_split in Hf as (m1 & m2 & Hm).
  pose proof (book_wf_side_NoDup sd s Hwf) as Hnd.
  rewrite Hm, side_orders_app, side_orders_cons in Hnd. unfold ids in *.
  rewrite !fmap_app in Hnd. apply NoDup_app in Hnd as (_ & _ & Hnd).
  by apply NoDup_app in Hnd as (Hnd & _ & _).
Qed.

Lemma run_level_ids (P : N → Prop) `{∀ x, Decision (P x)} sd p ops :
  ∀ s s', book_inv s → run ops s = Ok s' →
  Forall (λ op, ¬ P (op_id op)) ops →
  filter P (level_ids sd p s') `sublist_of` filter P (level_ids sd p s).
Proof.
  induction ops as [|op ops IH]; intros s s' Hinv Hrun Hops; simpl in Hrun.
  - by injection Hrun as <-.
  - apply Forall_cons in Hops as [Hop Hops].
    destruct (step_inv op s Hinv) as (ts & s1 & Hs & Hinv1).
    rewrite Hs in Hrun. simpl in Hrun.
    etrans; [by apply (IH s1 s') |].
    destruct Hinv as (Hwf & _).
    pose proof (level_ids_step sd p op s ts s1 Hwf Hs) as Hsub.
    apply (filter_sublist_mono P) in Hsub.
    rewrite filter_app, (filter_none P [op_id op]), app_nil_r in Hsub; [done |].
    intros x Hx. by apply list_elem_of_singleton in Hx as ->.
Qed.

(** The order of identifier [i], while no operation is about [i], keeps
    its side and its price. *)
Lemma identity_fill i sd p quantity o :
  (Order.GetOrderId o = i → Order.GetSide o = sd ∧ Order.GetPrice o = p) →
  Order.IsFilled (filled_by quantity o) = false →
  Order.GetOrderId (filled_by quantity o) = i →
  Order.GetSide (filled_by quantity o) = sd ∧ Order.GetPrice (filled_by quantity o) = p.
Proof. intros H _. exact H. Qed.

Lemma step_identity i sd p op s ts s' :
  book_inv s → op_id op ≠ i → step op s = Ok (ts, s') →
  Forall (λ o, Order.GetOrderId o = i → Order.GetSide o = sd ∧ Order.GetPrice o = p)
    (book_orders s) →
  Forall (λ o, Order.GetOrderId o = i → Order.GetSide o = sd ∧ Order.GetPrice o = p)
    (book_orders s').
Proof.
  intros (Hwf & _) Hop Hs HP.
  destruct op as [ty j sd' p' q|j|j sd' p' q]; simpl in *.
  - eapply (AddOrder_kept _ (identity_fill i sd p)); [done | | exact Hs | done].
    simpl. done.
  - apply bind_Ok_inv in Hs as (s1 & Hc & [= <- <-]).
    by eapply CancelOrder_kept.
  - unfold Orderbook.MatchOrder in Hs.
    destruct (Orderbook.orders_ s !! _) as [e|]; [|by injection Hs as <- <-].
    apply bind_Ok_inv in Hs as (s1 & Hc & Ha).
    eapply (AddOrder_kept _ (identity_fill i sd p)); [ | | exact Ha | ].
    + by eapply CancelOrder_wf.
    + simpl. done.
    + by eapply CancelOrder_kept.
Qed.

Lemma run_identity i sd p ops :
  ∀ s s', book_inv s → run ops s = Ok s' → Forall (λ op, op_id op ≠ i) ops →
  Forall (λ o, Order.GetOrderId o = i → Order.GetSide o = sd ∧ Order.GetPrice o = p)
    (book_orders s) →
  Forall (λ o, Order.GetOrderId o = i → Order.GetSide o = sd ∧ Order.GetPrice o = p)
    (book_orders s').
Proof.
  induction ops as [|op ops IH]; intros s s' Hinv Hrun Hops HP; simpl in Hrun.
  - by injection Hrun as <-.
  - apply Forall_cons in Hops as [Hop Hops].
    destruct (step_inv op s Hinv) as (ts & s1 & Hs & Hinv1).
    rewrite Hs in Hrun. simpl in Hrun.
    eapply IH; [exact Hinv1 | done | done |].
    by apply (step_identity i sd p op s ts s1).
Qed.

Lemma step_inv_Ok op s ts s' :
  book_inv s → step op s = Ok (ts, s') → book_inv s'.
Proof.
  intros Hinv Hs. destruct (step_inv op s Hinv) as (ts' & s'' & Hs' & Hinv').
  rewrite Hs in Hs'. by injection Hs' as -> ->.
Qed.

Lemma not_live_identity i sd p s :
  book_wf s → Orderbook.orders_ s !! i = None →
  Forall (λ o, Order.GetOrderId o = i → Order.GetSide o = sd ∧ Order.GetPrice o = p)
    (book_orders s).
Proof.
  intros (_ & _ & Hc) Hn. apply Forall_forall. intros x Hx Hid.
  rewrite <- Hid, (consistent_lookup _ _ _ Hc Hx) in Hn. done.
Qed.

Lemma not_live_level_ids i sd p s :
  book_wf s → Orderbook.orders_ s !! i = None → i ∉ level_ids sd p s.
Proof.
  intros Hwf Hn Hin. apply level_ids_live in Hin as (x & Hx & _); [|done].
  congruence.
Qed.

Lemma submit_identity ty i sd p q s ts s' :
  book_wf s → Orderbook.orders_ s !! i = None →
  step (Submit ty i sd p q) s = Ok (ts, s') →
  Forall (λ o, Order.GetOrderId o = i → Order.GetSide o = sd ∧ Order.GetPrice o = p)
    (book_orders s').
Proof.
  intros Hwf Hn Hs. simpl in Hs.
  eapply (AddOrder_kept _ (identity_fill i sd p)); [done | | exact Hs |].
  - simpl. done.
  - by apply not_live_identity.
Qed.

(** Two orders submitted one after the other on the same side at the same
    price, and not named by any operation since, are queued in that order
    as long as both are live. *)
Lemma arrival_order_is_queue_order s0 tyA idA tyB idB sd p qA qB ops1 ops2
    trA s1 s2 trB s3 s4 a b :
  book_inv s0 → idA ≠ idB →
  Orderbook.orders_ s0 !! idA = None →
  step (Submit tyA idA sd p qA) s0 = Ok (trA, s1) →
  run ops1 s1 = Ok s2 → Forall (λ op, op_id op ≠ idA) ops1 →
  Orderbook.orders_ s2 !! idB = None →
  step (Submit tyB idB sd p qB) s2 = Ok (trB, s3) →
  run ops2 s3 = Ok s4 →
  Forall (λ op, op_id op ≠ idA ∧ op_id op ≠ idB) ops2 →
  Orderbook.orders_ s4 !! idA = Some a →
  Orderbook.orders_ s4 !! idB = Some b →
  ∃ l1 l2 l3, level sd p s4 = Some (l1 ++ a :: l2 ++ b :: l3).
Proof.
  intros Hinv0 Hne HnA HsA Hrun1 Hops1 HnB HsB Hrun2 Hops2 Ha Hb.
  pose proof (step_inv_Ok _ _ _ _ Hinv0 HsA) as Hinv1.
  pose proof (run_inv _ _ _ Hinv1 Hrun1) as Hinv2.
  pose proof (step_inv_Ok _ _ _ _ Hinv2 HsB) as Hinv3.
  pose proof (run_inv _ _ _ Hinv3 Hrun2) as Hinv4.
  pose proof Hinv0 as (Hwf0 & _). pose proof Hinv2 as (Hwf2 & _).
  pose proof Hinv4 as (Hwf4 & _).
  assert (Hops2A : Forall (λ op, op_id op ≠ idA) ops2)
    by (eapply Forall_impl; [exact Hops2 | by intros ? [? _]]).
  assert (Hops2B : Forall (λ op, op_id op ≠ idB) ops2)
    by (eapply Forall_impl; [exact Hops2 | by intros ? [_ ?]]).
  (* both orders are still those submitted: same side, same price *)
  assert (HA4 : Forall (λ o, Order.GetOrderId o = idA →
                             Order.GetSide o = sd ∧ Order.GetPrice o = p)
                  (book_orders s4)).
  { eapply run_identity; [exact Hinv3 | exact Hrun2 | exact Hops2A |].
    eapply (step_identity idA sd p _ s2); [done | | exact HsB |]; [done |].
    eapply run_identity; [exact Hinv1 | exact Hrun1 | exact Hops1 |].
    by apply (submit_identity tyA idA sd p qA s0 trA s1). }
  assert (HB4 : Forall (λ o, Order.GetOrderId o = idB →
                             Order.GetSide o = sd ∧ Order.GetPrice o = p)
                  (book_orders s4)).
  { eapply run_identity; [exact Hinv3 | exact Hrun2 | exact Hops2B |].
    by apply (submit_identity tyB idB sd p qB s2 trB s3). }
  pose proof Hwf4 as (_ & _ & _ & Hix4).
  apply Hix4 in Ha as Ha'. destruct Ha' as [Hain Haid].
  apply Hix4 in Hb as Hb'. destruct Hb' as [Hbin Hbid].
  rewrite Forall_forall in HA4, HB4.
  destruct (HA4 a Hain Haid) as [Hasd Hap].
  destruct (HB4 b Hbin Hbid) as [Hbsd Hbp].
  assert (HinA : idA ∈ level_ids sd p s4) by (apply level_ids_live; eauto).
  assert (HinB : idB ∈ level_ids sd p s4) by (apply level_ids_live; eauto).
  (* the two identifiers, among those of the level, through the history *)
  set (PA := λ j : N, j = idA). set (PAB := λ j : N, j = idA ∨ j = idB).
  assert (H1 : filter PA (level_ids sd p s1) `sublist_of` [idA]).
  { pose proof (level_ids_step sd p _ s0 trA s1 Hwf0 HsA) as Hsub.
    apply (filter_sublist_mono PA) in Hsub. simpl in Hsub.
    rewrite filter_app, (filter_none PA (level_ids sd p s0)) in Hsub.
    - etrans; [exact Hsub |]. apply sublist_filter.
    - unfold PA. intros x Hx ->. by apply (not_live_level_ids idA sd p s0). }
  assert (H2 : filter PAB (level_ids sd p s2) `sublist_of` [idA]).
  { rewrite (filter_ext_in PAB PA).
    - etrans; [|exact H1]. apply (run_level_ids PA sd p ops1); [done | done |].
      eapply Forall_impl; [exact Hops1 | done].
    - intros x Hx. unfold PAB, PA. split; [|by left]. intros [?| ->]; [done |].
      exfalso. by apply (not_live_level_ids idB sd p s2). }
  assert (H3 : filter PAB (level_ids sd p s3) `sublist_of` [idA; idB]).
  { pose proof (level_ids_step sd p _ s2 trB s3 Hwf2 HsB) as Hsub.
    apply (filter_sublist_mono PAB) in Hsub. simpl in Hsub.
    rewrite filter_app in Hsub. etrans; [exact Hsub |].
    change [idA; idB] with ([idA] ++ [idB]). apply sublist_app; [done |].
    apply sublist_filter. }
  assert (H4 : filter PAB (level_ids sd p s4) = [idA; idB]).
  { apply sublist_pair; [|done | |].
    - etrans; [|exact H3]. apply (run_level_ids PAB sd p ops2); [done | done |].
      eapply Forall_impl; [exact Hops2 |]. intros op [? ?] [?|?]; done.
    - apply list_elem_of_filter. split; [by left | done].
    - apply list_elem_of_filter. split; [by right | done]. }
  apply filter_cons_inv in H4 as (x1 & r & Hl & Hr).
  apply filter_cons_inv in Hr as (x2 & x3 & -> & _).
  unfold level_ids in Hl.
  destruct (level sd p s4) as [q|] eqn:Hlv; [|by destruct x1].
  simpl in Hl. unfold ids in Hl.
  apply fmap_app_inv in Hl as (l1 & r & _ & Hr & ->). symmetry in Hr.
  apply fmap_cons_inv in Hr as (a' & r' & Ha'id & Hr' & ->). symmetry in Hr'.
  apply fmap_app_inv in Hr' as (l2 & r'' & _ & Hr'' & ->). symmetry in Hr''.
  apply fmap_cons_inv in Hr'' as (b' & l3 & Hb'id & _ & ->).
  assert (Hin : ∀ x, x ∈ l1 ++ a' :: l2 ++ b' :: l3 →
            Orderbook.orders_ s4 !! Order.GetOrderId x = Some x).
  { intros x Hx. apply Hix4. split; [|done].
    unfold level in Hlv. pose proof (find_elem_orders _ _ _ x Hlv Hx) as Hso.
    by apply (book_wf_elem_side sd s4 x Hwf4) in Hso as [? _]. }
  assert (a' = a) as ->.
  { assert (H : Orderbook.orders_ s4 !! Order.GetOrderId a' = Some a').
    { apply Hin. rewrite elem_of_app, elem_of_cons. tauto. }
    rewrite <- Ha'id in H. congruence. }
  assert (b' = b) as ->.
  { assert (H : Orderbook.orders_ s4 !! Order.GetOrderId b' = Some b').
    { apply Hin. rewrite !elem_of_app, !elem_of_cons, !elem_of_app, !elem_of_cons.
      tauto. }
    rewrite <- Hb'id in H. congruence. }
  by exists l1, l2, l3.
Qed.

(** The queue of a level is consumed from its front: a trade on an order
    comes after the trades that fill the orders queued ahead of it. *)
Lemma queue_order_is_fill_order sd p s l1 a l2 b l3 o trades s' :
  book_wf s →
  level sd p s = Some (l1 ++ a :: l2 ++ b :: l3) →
  Orderbook.AddOrder o s = Ok (trades, s') →
  ∀ pre t post, trades = pre ++ t :: post →
    TradeInfo.orderId_ (side_trade sd t) = Order.GetOrderId b →
    filled_on sd (Order.GetOrderId a) pre = Order.GetRemainingQuantity a.
Proof.
  intros Hwf Hlv Ha pre t post Heq Hid.
  destruct (AddOrder_cases o s) as [H|(Hnone & _ & H)]; rewrite H in Ha.
  { injection Ha as <- <-. by destruct pre. }
  pose proof (insert_wf o s Hnone Hwf) as Hwfi.
  destruct (MatchOrders_run _ Hwfi) as (s1 & ts & s2 & s3 & Hm & _ & _ & _ & _ & Hrun & _).
  rewrite Hrun in Ha. injection Ha as -> ->.
  assert (Hlvi : ∃ l3', level sd p (Orderbook.insert o s)
                        = Some (l1 ++ a :: l2 ++ b :: l3')).
  { rewrite insert_level by done. rewrite Hlv. case_decide; simpl.
    - exists (l3 ++ [o]). rewrite <- app_assoc. simpl. by rewrite <- app_assoc.
    - by exists l3. }
  destruct Hlvi as [l3' Hlvi].
  by eapply (matching_fifo sd _ _ _ Hm Hwfi p l1 a l2 b l3' pre t post).
Qed.

(* ===================================================================== *)
(** ** Concrete books are reachable *)

Lemma run_ops_hit : run ops_hit Orderbook.init = Ok book_hit.
Proof. vm_compute. reflexivity. Qed.

Lemma run_ops_zero : run ops_zero Orderbook.init = Ok book_zero.
Proof. vm_compute. reflexivity. Qed.

Lemma run_ops_large : run ops_large Orderbook.init = Ok book_large.
Proof. vm_compute. reflexivity. Qed.

(* ===================================================================== *)
(** ** The scenarios of the specification *)

Example scenario_A :
  ∃ s, step (Submit GoodTillCancel 1 Buy 100 10) Orderbook.init = Ok ([], s)
       ∧ Orderbook.Size s = 1%nat
       ∧ ∃ s', step (Submit GoodTillCancel 2 Sell 100 10) s
               = Ok ([Trade.mk (TradeInfo.mk 1 100 10) (TradeInfo.mk 2 100 10)], s')
               ∧ Orderbook.Size s' = 0%nat.
Proof.
  eexists. split; [vm_compute; reflexivity |]. split; [reflexivity |].
  eexists. split; [vm_compute; reflexivity | reflexivity].
Qed.

Example scenario_B :
  ∃ s, run [Submit GoodTillCancel 1 Buy 101 5] Orderbook.init = Ok s
       ∧ step (Submit GoodTillCancel 2 Sell 100 10) s
         = Ok ([Trade.mk (TradeInfo.mk 1 101 5) (TradeInfo.mk 2 100 5)],
               Orderbook.mk [] [(100, [Order.mk GoodTillCancel 2 Sell 100 10 5])]
                 {[ 2%N := Order.mk GoodTillCancel 2 Sell 100 10 5 ]}).
Proof. eexists. split; vm_compute; reflexivity. Qed.

Example scenario_C :
  step (Submit FillandKill 1 Sell 100 10) Orderbook.init = Ok ([], Orderbook.init).
Proof. vm_compute. reflexivity. Qed.

Example scenario_D :
  ∃ s, run [Submit GoodTillCancel 1 Buy 100 10; Cancel 1; Cancel 1] Orderbook.init
       = Ok s ∧ Orderbook.Size s = 0%nat.
Proof. eexists. split; [vm_compute; reflexivity | reflexivity]. Qed.

Example scenario_E :
  run [Submit GoodTillCancel 1 Buy 100 10; Modify 1 Buy 101 10] Orderbook.init
  = Ok (Orderbook.mk [(101, [Order.mk GoodTillCancel 1 Buy 101 10 10])] []
          {[ 1%N := Order.mk GoodTillCancel 1 Buy 101 10 10 ]}).
Proof. vm_compute. reflexivity. Qed.

(* ===================================================================== *)
(** ** Duplicate identifiers *)

(** C6: submitting an order whose identifier is live returns no trade and
    leaves the whole state (both sides and the index, hence [Size]) as it
    was. *)
Theorem duplicate_identifier_rejected (s : Orderbook.t) (order : Order.t) :
  is_Some (Orderbook.orders_ s !! Order.GetOrderId order) →
  Orderbook.AddOrder order s = Ok ([], s).
Proof.
  intros H. unfold Orderbook.AddOrder. by rewrite bool_decide_eq_true_2.
Qed.

Lemma duplicate_identifier_rejected_witness :
  Orderbook.AddOrder (Order.new GoodTillCancel 1 Sell 90 5) book_hit
  = Ok ([], book_hit).
Proof.
  apply (duplicate_identifier_rejected book_hit (Order.new GoodTillCancel 1 Sell 90 5)).
  vm_compute. eauto.
Defined.

(* ===================================================================== *)
(** ** The exception of Fill is never raised *)

(** C5: the matching loop fills both front orders by the minimum of their
    remaining quantities, so no public operation, on any state, ends with
    the [logic_error] of [Fill]; on a reachable state every public
    operation returns (it neither throws nor runs for ever). *)
Theorem fill_error_unreachable (op : Op) (s : Orderbook.t) :
  no_logic_error (step op s)
  ∧ (reachable s → ∃ trades s', step op s = Ok (trades, s')).
Proof.
  split; [apply step_no_logic_error |].
  intros Hr. destruct (step_inv op s (reachable_inv s Hr)) as (ts & s' & H & _).
  eauto.
Qed.

Lemma fill_error_unreachable_witness :
  no_logic_error (step (Submit GoodTillCancel 3 Sell 95 20) book_hit)
  ∧ ∃ trades s', step (Submit GoodTillCancel 3 Sell 95 20) book_hit = Ok (trades, s').
Proof.
  destruct (fill_error_unreachable (Submit GoodTillCancel 3 Sell 95 20) book_hit)
    as [H1 H2].
  split; [exact H1 |]. apply H2. exists ops_hit. vm_compute. reflexivity.
Defined.

(* ===================================================================== *)
(** ** No fill-and-kill order rests *)

(** C10: in every state reached through the public operations, every
    order of the queues and of the index is good-till-cancel. *)
Theorem no_resting_fill_and_kill (s : Orderbook.t) :
  reachable s →
  (∀ o, o ∈ book_orders s → Order.GetOrderType o = GoodTillCancel)
  ∧ (∀ i o, Orderbook.orders_ s !! i = Some o →
            Order.GetOrderType o = GoodTillCancel).
Proof.
  intros Hr. destruct (reachable_inv s Hr) as ((_ & _ & _ & Hix) & _ & Hg).
  rewrite Forall_forall in Hg. split; [done |].
  intros i o Hi. apply Hix in Hi as [Hin _]. by apply Hg.
Qed.

Lemma no_resting_fill_and_kill_witness :
  (∀ o, o ∈ book_orders book_hit → Order.GetOrderType o = GoodTillCancel)
  ∧ (∀ i o, Orderbook.orders_ book_hit !! i = Some o →
            Order.GetOrderType o = GoodTillCancel).
Proof.
  apply (no_resting_fill_and_kill book_hit).
  exists ops_hit. vm_compute. reflexivity.
Defined.

(* ===================================================================== *)
(** ** Modification *)

(** C9: [MatchOrder] on a live identifier is the cancellation of the order
    followed by the submission of a fresh order with the same identifier,
    the order type of the cancelled order and the supplied side, price and
    quantity: same trades, same state; on an identifier that is not live it
    returns no trade and the state as it was.  On a reachable state both
    steps return. *)
Theorem modify_is_cancel_then_submit (s : Orderbook.t) (orderId : OrderId)
    (side : Side) (price : Price) (quantity : Quantity) :
  Orderbook.MatchOrder (OrderModify.new orderId side price quantity) s
  = cancel_then_submit orderId side price quantity s
  ∧ (Orderbook.orders_ s !! orderId = None →
     Orderbook.MatchOrder (OrderModify.new orderId side price quantity) s
     = Ok ([], s))
  ∧ (reachable s →
     ∀ order, Orderbook.orders_ s !! orderId = Some order →
     ∃ s1 trades s2,
       Orderbook.CancelOrder orderId s = Ok s1
       ∧ Orderbook.AddOrder
           (Order.new (Order.GetOrderType order) orderId side price quantity) s1
         = Ok (trades, s2)
       ∧ Orderbook.MatchOrder (OrderModify.new orderId side price quantity) s
         = Ok (trades, s2)).
Proof.
  split; [reflexivity |]. split.
  - intros H. unfold Orderbook.MatchOrder. simpl. by rewrite H.
  - intros Hr order Hi. pose proof (reachable_inv s Hr) as Hinv.
    destruct (CancelOrder_inv orderId s Hinv) as (s1 & Hc & Hinv1).
    destruct (AddOrder_inv
                (Order.new (Order.GetOrderType order) orderId side price quantity)
                s1 Hinv1) as (ts & s2 & Ha & _).
    exists s1, ts, s2. split; [done |]. split; [done |].
    unfold Orderbook.MatchOrder. simpl. rewrite Hi, Hc. simpl. exact Ha.
Qed.

Lemma modify_is_cancel_then_submit_witness :
  ∃ s1 trades s2,
    Orderbook.CancelOrder 1 book_hit = Ok s1
    ∧ Orderbook.AddOrder (Order.new GoodTillCancel 1 Buy 101 10) s1 = Ok (trades, s2)
    ∧ Orderbook.MatchOrder (OrderModify.new 1 Buy 101 10) book_hit = Ok (trades, s2).
Proof.
  destruct (modify_is_cancel_then_submit book_hit 1 Buy 101 10) as (_ & _ & H).
  apply (H (ex_intro _ ops_hit run_ops_hit) (Order.mk GoodTillCancel 1 Buy 100 10 6)).
  vm_compute. reflexivity.
Defined.

(* ===================================================================== *)
(** ** Cancellation *)

(** C8: the cancellation of an identifier that is not in the index
    returns the state as it was, whatever the state.  On a reachable state
    [CancelOrder] returns; a second cancellation of the same identifier
    changes nothing more; and the cancellation of a live order takes
    exactly that order out of the queue of its price on its side (the level
    goes when its queue is left empty, the other levels and the other side
    stay) and out of the index. *)
Theorem cancel_idempotent_total (s : Orderbook.t) (orderId : OrderId) :
  (Orderbook.orders_ s !! orderId = None → Orderbook.CancelOrder orderId s = Ok s)
  ∧ (reachable s →
     ∃ s',
       Orderbook.CancelOrder orderId s = Ok s'
       ∧ Orderbook.CancelOrder orderId s' = Ok s'
       ∧ (∀ order, Orderbook.orders_ s !! orderId = Some order →
          ∃ m1 q1 q2 m2,
            side_map (Order.GetSide order) s
            = m1 ++ (Order.GetPrice order, q1 ++ order :: q2) :: m2
            ∧ s' = cancelled (Order.GetSide order)
                     (m1 ++ level_entry (Order.GetPrice order) (q1 ++ q2) ++ m2)
                     orderId s)).
Proof.
  split; [apply CancelOrder_unknown |].
  intros Hr. destruct (reachable_inv s Hr) as (Hwf & _ & _).
  destruct (CancelOrder_Ok s orderId Hwf) as [s' Hc].
  exists s'. split; [done |]. split.
  - apply CancelOrder_unknown. rewrite (CancelOrder_index _ _ _ Hwf Hc).
    apply lookup_delete_eq.
  - intros order Hi.
    destruct (CancelOrder_live _ _ _ Hwf Hi) as (m1 & q1 & q2 & m2 & Hm & _ & _ & Hr').
    exists m1, q1, q2, m2. split; [done |]. rewrite Hr' in Hc. by injection Hc.
Qed.

Lemma cancel_idempotent_total_witness :
  Orderbook.CancelOrder 7 book_hit = Ok book_hit
  ∧ ∃ s',
      Orderbook.CancelOrder 1 book_hit = Ok s'
      ∧ Orderbook.CancelOrder 1 s' = Ok s'
      ∧ (∀ order, Orderbook.orders_ book_hit !! 1%N = Some order →
         ∃ m1 q1 q2 m2,
           side_map (Order.GetSide order) book_hit
           = m1 ++ (Order.GetPrice order, q1 ++ order :: q2) :: m2
           ∧ s' = cancelled (Order.GetSide order)
                    (m1 ++ level_entry (Order.GetPrice order) (q1 ++ q2) ++ m2)
                    1 book_hit).
Proof.
  split.
  - apply (cancel_idempotent_total book_hit 7). vm_compute. reflexivity.
  - apply (cancel_idempotent_total book_hit 1).
    exists ops_hit. vm_compute. reflexivity.
Defined.

(* ===================================================================== *)
(** ** Orders with no remaining quantity *)

(** C4, as stated, fails: an order submitted with quantity zero that does
    not cross rests in its queue and in the index with remaining quantity
    zero. *)
Lemma zero_quantity_order_rests :
  run [Submit GoodTillCancel 1 Buy 100 0] Orderbook.init = Ok book_zero
  ∧ Order.new GoodTillCancel 1 Buy 100 0 ∈ book_orders book_zero
  ∧ Orderbook.orders_ book_zero !! 1%N = Some (Order.new GoodTillCancel 1 Buy 100 0)
  ∧ Order.GetRemainingQuantity (Order.new GoodTillCancel 1 Buy 100 0) = 0%N.
Proof.
  split; [vm_compute; reflexivity |]. split; [|split; [|reflexivity]].
  - unfold book_orders, book_zero. simpl. left.
  - vm_compute. reflexivity.
Qed.

(** C4, amended: in every state reached through submissions and
    modifications of positive quantity (and cancellations), no order of a
    queue or of the index has remaining quantity zero. *)
Theorem no_filled_order_rests (ops : list Op) (s : Orderbook.t) :
  Forall positive_quantity ops →
  run ops Orderbook.init = Ok s →
  (∀ o, o ∈ book_orders s → Order.GetRemainingQuantity o ≠ 0%N)
  ∧ (∀ i o, Orderbook.orders_ s !! i = Some o →
            Order.GetRemainingQuantity o ≠ 0%N).
Proof.
  intros Hpos Hrun.
  assert (HP : Forall (λ o, Order.GetRemainingQuantity o ≠ 0%N) (book_orders s)).
  { eapply run_positive; [apply init_inv | done | done | constructor]. }
  rewrite Forall_forall in HP. split; [done |].
  intros i o Hi.
  destruct (run_inv _ _ _ init_inv Hrun) as ((_ & _ & _ & Hix) & _).
  apply Hix in Hi as [Hin _]. by apply HP.
Qed.

Lemma no_filled_order_rests_witness :
  (∀ o, o ∈ book_orders book_hit → Order.GetRemainingQuantity o ≠ 0%N)
  ∧ (∀ i o, Orderbook.orders_ book_hit !! i = Some o →
            Order.GetRemainingQuantity o ≠ 0%N).
Proof.
  apply (no_filled_order_rests ops_hit book_hit).
  - unfold ops_hit. repeat constructor.
  - vm_compute. reflexivity.
Defined.

(* ===================================================================== *)
(** ** Rejection of fill-and-kill orders *)

(** C7, as stated, fails: a fill-and-kill order that can cross is rejected
    all the same, with no trade and no change of the state, when its
    identifier is live. *)
Lemma fill_and_kill_duplicate_rejected :
  run ops_hit Orderbook.init = Ok book_hit
  ∧ Orderbook.AddOrder (Order.new FillandKill 1 Sell 100 5) book_hit
    = Ok ([], book_hit)
  ∧ ¬ cannot_cross Sell 100 book_hit.
Proof.
  split; [vm_compute; reflexivity |]. split; [vm_compute; reflexivity |].
  unfold cannot_cross, book_hit. simpl. lia.
Qed.

(** C7, amended: a fill-and-kill submission whose identifier is not live
    is rejected (no trade, state unchanged) if and only if it cannot
    cross. *)
Theorem fill_and_kill_rejected_iff (s : Orderbook.t) (order : Order.t) :
  reachable s →
  Order.GetOrderType order = FillandKill →
  Orderbook.orders_ s !! Order.GetOrderId order = None →
  Orderbook.AddOrder order s = Ok ([], s)
  ↔ cannot_cross (Order.GetSide order) (Order.GetPrice order) s.
Proof.
  intros Hr Ht Hnone. pose proof (reachable_inv s Hr) as Hinv. split.
  - intros Ha. apply cannot_cross_CanMatch.
    destruct (Orderbook.CanMatch _ _ s) eqn:Hc; [|done].
    exfalso. by eapply (AddOrder_crossing_trades order s [] s).
  - intros Hc. apply cannot_cross_CanMatch in Hc. unfold Orderbook.AddOrder.
    rewrite bool_decide_eq_false_2 by (rewrite Hnone; by intros [? ?]).
    by rewrite Ht, Hc.
Qed.

Lemma fill_and_kill_rejected_iff_witness :
  Orderbook.AddOrder (Order.new FillandKill 2 Sell 101 5) book_hit = Ok ([], book_hit)
  ↔ cannot_cross Sell 101 book_hit.
Proof.
  apply (fill_and_kill_rejected_iff book_hit (Order.new FillandKill 2 Sell 101 5)).
  - exists ops_hit. vm_compute. reflexivity.
  - reflexivity.
  - vm_compute. reflexivity.
Defined.

(* ===================================================================== *)
(** ** The snapshot *)

(** C3, as stated, fails: the quantity of a level is accumulated in
    [Quantity], and two live bids of 2^31 at one price give a level of
    quantity 0, not the sum 2^32 of their remaining quantities. *)
Lemma snapshot_sum_wraps :
  run ops_large Orderbook.init = Ok book_large
  ∧ OrderbookLevelInfos.GetBids (Orderbook.GetOrderInfos book_large)
    = [LevelInfo.mk 100 0]
  ∧ total_remaining (live_at Buy 100 book_large) = 4294967296%N.
Proof.
  split; [vm_compute; reflexivity |]. split; vm_compute; reflexivity.
Qed.

(** C3, amended: [GetOrderInfos] is a function of the state (a [const]
    member: the book is not changed).  On a reachable state it lists each
    side in its priority order (bids by descending price, asks by ascending
    price), with one entry for each price at which the side has live
    orders; the quantity of an entry is the sum of the remaining quantities
    of the live orders of that side and price reduced modulo 2^32, hence
    that sum itself when it is below 2^32. *)
Theorem snapshot_levels (s : Orderbook.t) (sd : Side) :
  reachable s →
  let infos := side_infos sd (Orderbook.GetOrderInfos s) in
  StronglySorted (λ a b, before sd (LevelInfo.price_ a) (LevelInfo.price_ b)) infos
  ∧ (∀ price, (∃ li, li ∈ infos ∧ LevelInfo.price_ li = price)
              ↔ live_at sd price s ≠ [])
  ∧ (∀ li, li ∈ infos →
       LevelInfo.quantity_ li
       = Quantity_wrap (total_remaining (live_at sd (LevelInfo.price_ li) s)))
  ∧ (∀ li, li ∈ infos →
       (total_remaining (live_at sd (LevelInfo.price_ li) s) < 2 ^ 32)%N →
       LevelInfo.quantity_ li
       = total_remaining (live_at sd (LevelInfo.price_ li) s)).
Proof.
  intros Hr infos. destruct (reachable_inv s Hr) as (Hwf & _ & _).
  pose proof (book_wf_side sd s Hwf) as Hside.
  assert (Hq : ∀ li, li ∈ infos →
            LevelInfo.quantity_ li
            = Quantity_wrap (total_remaining (live_at sd (LevelInfo.price_ li) s))).
  { intros li Hli. unfold infos in Hli. rewrite side_infos_eq in Hli.
    apply list_elem_of_fmap in Hli as ([p q] & -> & Hpq).
    rewrite CreateLevelInfos_quantity. simpl.
    by rewrite (total_remaining_perm _ _ (level_live sd s p q Hwf Hpq)). }
  split; [|split; [|split]].
  - unfold infos. rewrite side_infos_eq. apply infos_sorted. by destruct Hside.
  - intros price. unfold infos. rewrite side_infos_eq. split.
    + intros (li & Hli & <-).
      apply list_elem_of_fmap in Hli as ([p q] & -> & Hpq). simpl.
      intros Hnil. pose proof (level_live sd s p q Hwf Hpq) as Hp.
      rewrite Hnil in Hp. apply Permutation_nil_r in Hp.
      destruct Hside as [_ Hl]. rewrite Forall_forall in Hl.
      by destruct (Hl _ Hpq) as [Hne _].
    + intros Hne. destruct (live_at sd price s) as [|x l] eqn:E; [done |].
      assert (Hx : x ∈ live_at sd price s) by (rewrite E; left).
      apply live_at_elem in Hx as [Hx Hp]; [|done].
      destruct (side_wf_locate _ _ _ Hside (book_wf_side_NoDup sd s Hwf) Hx)
        as (m1 & q1 & q2 & m2 & Hm & _).
      exists (Orderbook.CreateLevelInfos price (q1 ++ x :: q2)). split; [|done].
      apply list_elem_of_fmap. exists (price, q1 ++ x :: q2). split; [done |].
      rewrite Hm, Hp. apply elem_of_app. right. left.
  - exact Hq.
  - intros li Hli Hlt. rewrite (Hq li Hli). unfold Quantity_wrap.
    by apply N.mod_small.
Qed.

Lemma snapshot_levels_witness :
  let infos := side_infos Buy (Orderbook.GetOrderInfos book_hit) in
  StronglySorted (λ a b, before Buy (LevelInfo.price_ a) (LevelInfo.price_ b)) infos
  ∧ (∀ price, (∃ li, li ∈ infos ∧ LevelInfo.price_ li = price)
              ↔ live_at Buy price book_hit ≠ [])
  ∧ (∀ li, li ∈ infos →
       LevelInfo.quantity_ li
       = Quantity_wrap (total_remaining (live_at Buy (LevelInfo.price_ li) book_hit)))
  ∧ (∀ li, li ∈ infos →
       (total_remaining (live_at Buy (LevelInfo.price_ li) book_hit) < 2 ^ 32)%N →
       LevelInfo.quantity_ li
       = total_remaining (live_at Buy (LevelInfo.price_ li) book_hit)).
Proof.
  apply (snapshot_levels book_hit Buy).
  exists ops_hit. vm_compute. reflexivity.
Defined.

(* ===================================================================== *)
(** ** Price-time priority *)

(** C1: let A and B be submitted in this order on the same side at the
    same price (A under an identifier that is not live, then, after any
    operations that are not about A, B under another identifier that is not
    live), and let any operations follow that are about neither.  In the
    trades of a later submission of the opposite side, a trade on B comes
    only after trades on A that take the whole remaining quantity of A: A,
    when still live, is filled to zero before any quantity leaves B. *)
Theorem price_time_priority (s0 : Orderbook.t)
    (tyA : OrderType) (idA : OrderId) (tyB : OrderType) (idB : OrderId)
    (sd : Side) (p : Price) (qA qB : Quantity) (ops1 ops2 : list Op)
    (trA : list Trade.t) (s1 s2 : Orderbook.t)
    (trB : list Trade.t) (s3 s4 : Orderbook.t)
    (o : Order.t) (trades : list Trade.t) (s5 : Orderbook.t) (a : Order.t) :
  reachable s0 →
  idA ≠ idB →
  Orderbook.orders_ s0 !! idA = None →
  step (Submit tyA idA sd p qA) s0 = Ok (trA, s1) →
  run ops1 s1 = Ok s2 →
  Forall (λ op, op_id op ≠ idA) ops1 →
  Orderbook.orders_ s2 !! idB = None →
  step (Submit tyB idB sd p qB) s2 = Ok (trB, s3) →
  run ops2 s3 = Ok s4 →
  Forall (λ op, op_id op ≠ idA ∧ op_id op ≠ idB) ops2 →
  Order.GetSide o = other sd →
  Orderbook.AddOrder o s4 = Ok (trades, s5) →
  Orderbook.orders_ s4 !! idA = Some a →
  ∀ pre t post,
    trades = pre ++ t :: post →
    TradeInfo.orderId_ (side_trade sd t) = idB →
    filled_on sd idA pre = Order.GetRemainingQuantity a.
Proof.
  intros Hr Hne HnA HsA Hrun1 Hops1 HnB HsB Hrun2 Hops2 Hside Hadd Ha
    pre t post Heq Hid.
  pose proof (reachable_inv s0 Hr) as Hinv0.
  pose proof (step_inv_Ok _ _ _ _ Hinv0 HsA) as Hinv1.
  pose proof (run_inv _ _ _ Hinv1 Hrun1) as Hinv2.
  pose proof (step_inv_Ok _ _ _ _ Hinv2 HsB) as Hinv3.
  pose proof (run_inv _ _ _ Hinv3 Hrun2) as (Hwf4 & _).
  (* the order the trade [t] is on is a live order of the side *)
  assert (Hb : ∃ b, Orderbook.orders_ s4 !! idB = Some b).
  { destruct (AddOrder_cases o s4) as [H|(Hnone & _ & H)]; rewrite H in Hadd.
    { injection Hadd as <- <-. by destruct pre. }
    destruct (MatchOrders_run _ (insert_wf o s4 Hnone Hwf4))
      as (u1 & ts & u2 & u3 & Hm & _ & _ & _ & _ & Hrun & _).
    rewrite Hrun in Hadd. injection Hadd as -> ->.
    pose proof (matching_trade_ids sd _ _ _ Hm t) as Hin.
    rewrite Hid in Hin.
    assert (Hsame : side_map sd (Orderbook.insert o s4) = side_map sd s4).
    { replace sd with (other (Order.GetSide o)) by (rewrite Hside; by destruct sd).
      apply insert_other_side. }
    rewrite Hsame in Hin.
    apply list_elem_of_fmap in Hin as (b & Hbid & Hbin).
    2:{ rewrite Heq. rewrite elem_of_app, elem_of_cons. tauto. }
    exists b. destruct Hwf4 as (_ & _ & _ & Hix). apply Hix. split; [|done].
    unfold book_orders. apply elem_of_app. destruct sd; [by left | by right]. }
  destruct Hb as [b Hb].
  destruct (arrival_order_is_queue_order s0 tyA idA tyB idB sd p qA qB ops1 ops2
              trA s1 s2 trB s3 s4 a b) as (l1 & l2 & l3 & Hlv); try done.
  destruct Hwf4 as (Hwb & Hwa & Hnd & Hix).
  apply Hix in Ha as [_ Haid]. apply Hix in Hb as [_ Hbid].
  rewrite <- Haid. rewrite <- Hbid in Hid.
  by eapply (queue_order_is_fill_order sd p s4 l1 a l2 b l3 o trades s5).
Qed.

Lemma price_time_priority_witness :
  filled_on Buy 1 [Trade.mk (TradeInfo.mk 1 100 10) (TradeInfo.mk 4 99 10)]
  = Order.GetRemainingQuantity (Order.mk GoodTillCancel 1 Buy 100 10 10).
Proof.
  eapply (price_time_priority Orderbook.init GoodTillCancel 1 GoodTillCancel 2
            Buy 100 10 7 [] [Submit GoodTillCancel 3 Sell 105 7]
            _ _ _ _ _ _ (Order.new FillandKill 4 Sell 99 12) _ _
            (Order.mk GoodTillCancel 1 Buy 100 10 10))
    with (pre := [Trade.mk (TradeInfo.mk 1 100 10) (TradeInfo.mk 4 99 10)])
         (t := Trade.mk (TradeInfo.mk 2 100 2) (TradeInfo.mk 4 99 2))
         (post := []).
  - exists []. reflexivity.
  - lia.
  - vm_compute. reflexivity.
  - vm_compute. reflexivity.
  - vm_compute. reflexivity.
  - constructor.
  - vm_compute. reflexivity.
  - vm_compute. reflexivity.
  - vm_compute. reflexivity.
  - repeat constructor; simpl; lia.
  - reflexivity.
  - vm_compute. reflexivity.
  - vm_compute. reflexivity.
  - reflexivity.
  - reflexivity.
Defined.

(* ===================================================================== *)
(** ** The trades of a submission *)

(** C2: every trade returned by [AddOrder] is made by one step of the
    matching run that starts from the book with the order inserted: in the
    state the earlier trades lead to, [bid] and [ask] are the live front
    orders of the best bid level and of the best ask level, the price of
    the bid level is at least the price of the ask level, the bid record
    carries the identifier and the own price of [bid], the ask record those
    of [ask], and both carry the minimum of the two remaining
    quantities. *)
Theorem trade_records (s : Orderbook.t) (order : Order.t)
    (trades : list Trade.t) (s' : Orderbook.t) :
  reachable s →
  Orderbook.AddOrder order s = Ok (trades, s') →
  ∀ pre t post, trades = pre ++ t :: post →
  ∃ mid bidPrice bid bids rb askPrice ask asks ra,
    matching (Orderbook.insert order s) pre mid
    ∧ Orderbook.bids_ mid = (bidPrice, bid :: bids) :: rb
    ∧ Orderbook.asks_ mid = (askPrice, ask :: asks) :: ra
    ∧ Orderbook.orders_ mid !! Order.GetOrderId bid = Some bid
    ∧ Orderbook.orders_ mid !! Order.GetOrderId ask = Some ask
    ∧ Order.GetPrice bid = bidPrice ∧ Order.GetPrice ask = askPrice
    ∧ askPrice ≤ bidPrice
    ∧ Trade.GetBidTrade t
      = TradeInfo.mk (Order.GetOrderId bid) (Order.GetPrice bid)
          (N.min (Order.GetRemainingQuantity bid) (Order.GetRemainingQuantity ask))
    ∧ Trade.GetAskTrade t
      = TradeInfo.mk (Order.GetOrderId ask) (Order.GetPrice ask)
          (N.min (Order.GetRemainingQuantity bid) (Order.GetRemainingQuantity ask)).
Proof.
  intros Hr Ha pre t post Heq. destruct (reachable_inv s Hr) as (Hwf & _ & _).
  destruct (AddOrder_cases order s) as [H|(Hnone & _ & H)]; rewrite H in Ha.
  { injection Ha as <- <-. by destruct pre. }
  pose proof (insert_wf order s Hnone Hwf) as Hwfi.
  destruct (MatchOrders_run _ Hwfi) as (s1 & ts & s2 & s3 & Hm & _ & _ & _ & _ & Hrun & _).
  rewrite Hrun in Ha. injection Ha as -> ->.
  destruct (matching_split _ _ _ Hm pre t post Heq)
    as (mid & bp & bid & bids & rb & ap & ask & asks & ra & Hpre & Hb & Has & Hle & ->).
  pose proof (matching_wf _ _ _ Hpre Hwfi) as Hwfm.
  destruct (front_price Buy mid bp bid bids rb Hwfm Hb) as (Hpb & _ & Hib).
  destruct (front_price Sell mid ap ask asks ra Hwfm Has) as (Hpa & _ & Hia).
  exists mid, bp, bid, bids, rb, ap, ask, asks, ra. by repeat split.
Qed.

Lemma trade_records_witness :
  ∃ mid bidPrice bid bids rb askPrice ask asks ra,
    matching (Orderbook.insert (Order.new GoodTillCancel 3 Sell 95 20) book_hit) [] mid
    ∧ Orderbook.bids_ mid = (bidPrice, bid :: bids) :: rb
    ∧ Orderbook.asks_ mid = (askPrice, ask :: asks) :: ra
    ∧ Orderbook.orders_ mid !! Order.GetOrderId bid = Some bid
    ∧ Orderbook.orders_ mid !! Order.GetOrderId ask = Some ask
    ∧ Order.GetPrice bid = bidPrice ∧ Order.GetPrice ask = askPrice
    ∧ askPrice ≤ bidPrice
    ∧ Trade.GetBidTrade (Trade.mk (TradeInfo.mk 1 100 6) (TradeInfo.mk 3 95 6))
      = TradeInfo.mk (Order.GetOrderId bid) (Order.GetPrice bid)
          (N.min (Order.GetRemainingQuantity bid) (Order.GetRemainingQuantity ask))
    ∧ Trade.GetAskTrade (Trade.mk (TradeInfo.mk 1 100 6) (TradeInfo.mk 3 95 6))
      = TradeInfo.mk (Order.GetOrderId ask) (Order.GetPrice ask)
          (N.min (Order.GetRemainingQuantity bid) (Order.GetRemainingQuantity ask)).
Proof.
  apply (trade_records book_hit (Order.new GoodTillCancel 3 Sell 95 20)
           [Trade.mk (TradeInfo.mk 1 100 6) (TradeInfo.mk 3 95 6)]
           (Orderbook.mk [] [(95, [Order.mk GoodTillCancel 3 Sell 95 20 14])]
              {[ 3%N := Order.mk GoodTillCancel 3 Sell 95 20 14 ]}))
    with (post := []).
  - exists ops_hit. vm_compute. reflexivity.
  - vm_compute. reflexivity.
  - reflexivity.
Defined.

(* ===================================================================== *)
(** ** Further facts: the size of the index *)

Lemma index_values_perm s :
  book_wf s → (map_to_list (Orderbook.orders_ s)).*2 ≡ₚ book_orders s.
Proof.
  intros (_ & _ & Hnd & Hix). apply NoDup_Permutation.
  - apply NoDup_fmap_2_strong; [|apply NoDup_map_to_list].
    intros [i x] [j y] Hx Hy Heq. simpl in Heq. subst y.
    apply elem_of_map_to_list in Hx, Hy.
    apply Hix in Hx as [_ <-]. apply Hix in Hy as [_ <-]. done.
  - by apply NoDup_fmap_1 in Hnd.
  - intros x. split.
    + intros Hx. apply list_elem_of_fmap in Hx as ([i y] & -> & Hiy).
      apply elem_of_map_to_list in Hiy. by apply Hix in Hiy as [? _].
    + intros Hx. apply list_elem_of_fmap. exists (Order.GetOrderId x, x).
      split; [done |]. apply elem_of_map_to_list. by apply Hix.
Qed.

Lemma Size_length s : book_wf s → Orderbook.Size s = length (book_orders s).
Proof.
  intros Hwf. unfold Orderbook.Size.
  rewrite <- (Permutation_length (index_values_perm s Hwf)).
  by rewrite length_fmap, length_map_to_list.
Qed.

(* ===================================================================== *)
(** ** Further facts: submissions that do not cross *)

Lemma sweep_gtc m s :
  Forall is_gtc (side_orders m) → Orderbook.sweep m s = Ok s.
Proof.
  intros Hg. unfold Orderbook.sweep.
  destruct m as [|[p [|o q]] r]; simpl; [done | done |].
  rewrite side_orders_cons in Hg. simpl in Hg. apply Forall_cons in Hg as [Ho _].
  unfold is_gtc in Ho. by rewrite Ho.
Qed.

(** Nothing to match and nothing to sweep. *)
Lemma MatchOrders_quiet s :
  uncrossed s → Forall is_gtc (book_orders s) →
  Orderbook.MatchOrders s = Ok ([], s).
Proof.
  intros Hu Hg. unfold book_orders in Hg. apply Forall_app in Hg as [Hgb Hga].
  assert (Hloop : Orderbook.match_loop (Orderbook.loop_fuel s) s [] = Ok (s, [])).
  { unfold Orderbook.loop_fuel. rewrite match_loop_S. unfold uncrossed in Hu.
    destruct (Orderbook.bids_ s) as [|[bp qb] rb]; [done |].
    destruct (Orderbook.asks_ s) as [|[ap qa] ra]; [done |]. simpl.
    by replace (bp <? ap) with true by (symmetry; by apply Z.ltb_lt). }
  unfold Orderbook.MatchOrders. rewrite Hloop. simpl.
  rewrite (sweep_gtc _ _ Hgb). simpl. by rewrite (sweep_gtc _ _ Hga).
Qed.

Lemma apart_other sd a b : apart (other sd) a b ↔ apart sd b a.
Proof. by destruct sd. Qed.

(** Against a side in order, a price that does not reach the best price
    reaches none. *)
Lemma cannot_cross_all sd p s :
  book_wf s →
  cannot_cross sd p s ↔ ∀ k, k ∈ (side_map (other sd) s).*1 → apart sd p k.
Proof.
  intros Hwf. pose proof (book_wf_side (other sd) s Hwf) as Hside.
  unfold cannot_cross. destruct sd; simpl in *.
  - destruct (Orderbook.asks_ s) as [|[k q] r].
    + split; [intros _ ? H; by apply elem_of_nil in H | done].
    + apply side_wf_cons in Hside as (_ & Hall & _). rewrite Forall_forall in Hall.
      csimpl. split.
      * intros Hp k' Hk'. apply elem_of_cons in Hk' as [->|Hk']; [done |].
        specialize (Hall _ Hk'). simpl in Hall. lia.
      * intros H. apply H. left.
  - destruct (Orderbook.bids_ s) as [|[k q] r].
    + split; [intros _ ? H; by apply elem_of_nil in H | done].
    + apply side_wf_cons in Hside as (_ & Hall & _). rewrite Forall_forall in Hall.
      csimpl. split.
      * intros Hp k' Hk'. apply elem_of_cons in Hk' as [->|Hk']; [done |].
        specialize (Hall _ Hk'). simpl in Hall. lia.
      * intros H. apply H. left.
Qed.

Lemma all_uncrossed_sides s :
  all_uncrossed s ↔
  ∀ sd k k', k ∈ (side_map sd s).*1 → k' ∈ (side_map (other sd) s).*1 → apart sd k k'.
Proof.
  unfold all_uncrossed. split.
  - intros H sd k k' Hk Hk'. destruct sd; simpl in *; by apply H.
  - intros H bp ap Hb Ha. by apply (H Buy).
Qed.

Lemma subscript_keys sd p f (m : PriceMap.t) :
  StronglySorted (before sd) (m.*1) →
  (PriceMap.subscript (comp_of sd) p f m).*1 ⊆ p :: m.*1.
Proof.
  intros Hs.
  destruct (subscript_spec sd p f m Hs)
    as [(m1 & q & m2 & -> & _ & ->)|(m1 & m2 & -> & _ & -> & _)];
    rewrite !fmap_app; csimpl; set_solver.
Qed.

Lemma insert_uncrossed o s :
  book_wf s → uncrossed s →
  Orderbook.CanMatch (Order.GetSide o) (Order.GetPrice o) s = false →
  uncrossed (Orderbook.insert o s).
Proof.
  intros Hwf Hu Hc. apply all_uncrossed_uncrossed.
  pose proof (uncrossed_all s Hwf Hu) as Hall.
  rewrite all_uncrossed_sides in Hall. apply all_uncrossed_sides.
  apply cannot_cross_CanMatch in Hc. rewrite cannot_cross_all in Hc by done.
  assert (Hown : ∀ k k', k ∈ (side_map (Order.GetSide o) (Orderbook.insert o s)).*1 →
            k' ∈ (side_map (other (Order.GetSide o)) s).*1 →
            apart (Order.GetSide o) k k').
  { intros k k' Hk Hk'. rewrite insert_side in Hk.
    apply subscript_keys in Hk; [|by apply (book_wf_side _ s Hwf)].
    apply elem_of_cons in Hk as [->|Hk]; [by apply Hc | by apply Hall]. }
  intros sd k k' Hk Hk'.
  destruct (decide (sd = Order.GetSide o)) as [->|Hne].
  - rewrite insert_other_side in Hk'. by apply Hown.
  - assert (sd = other (Order.GetSide o)) as -> by (by destruct sd, (Order.GetSide o)).
    rewrite insert_other_side in Hk. apply apart_other.
    apply Hown; [|done]. by destruct (Order.GetSide o).
Qed.

Lemma insert_gtc o s :
  book_wf s → is_gtc o → Forall is_gtc (book_orders s) →
  Forall is_gtc (book_orders (Orderbook.insert o s)).
Proof. intros. by apply insert_kept. Qed.

(** A good-till-cancel order that cannot match is inserted, and that is
    all. *)
Lemma AddOrder_rests o s :
  book_inv s →
  Order.GetOrderType o = GoodTillCancel →
  Orderbook.orders_ s !! Order.GetOrderId o = None →
  Orderbook.CanMatch (Order.GetSide o) (Order.GetPrice o) s = false →
  Orderbook.AddOrder o s = Ok ([], Orderbook.insert o s).
Proof.
  intros (Hwf & Hu & Hg) Ht Hnone Hc.
  rewrite AddOrder_fresh; [|done | by rewrite Ht].
  apply MatchOrders_quiet; [by apply insert_uncrossed | by apply insert_gtc].
Qed.

Lemma Size_insert o s :
  Orderbook.orders_ s !! Order.GetOrderId o = None →
  Orderbook.Size (Orderbook.insert o s) = S (Orderbook.Size s).
Proof.
  intros Hnone. unfold Orderbook.Size. rewrite insert_index.
  unfold Orderbook.index_insert. rewrite Hnone. by apply map_size_insert_None.
Qed.

Lemma index_insert_lookup o s :
  Orderbook.orders_ s !! Order.GetOrderId o = None →
  Orderbook.orders_ (Orderbook.insert o s) !! Order.GetOrderId o = Some o.
Proof.
  intros Hnone. rewrite insert_index. unfold Orderbook.index_insert.
  rewrite Hnone. apply lookup_insert_eq.
Qed.

(** Cancelling the order just inserted gives the book back. *)
Lemma cancel_insert o s :
  book_wf s → Orderbook.orders_ s !! Order.GetOrderId o = None →
  Orderbook.CancelOrder (Order.GetOrderId o) (Orderbook.insert o s) = Ok s.
Proof.
  intros Hwf Hnone. unfold Orderbook.CancelOrder.
  rewrite (index_insert_lookup o s Hnone).
  assert (Hix : delete (Order.GetOrderId o) (Orderbook.orders_ (Orderbook.insert o s))
                = Orderbook.orders_ s).
  { rewrite insert_index. unfold Orderbook.index_insert. rewrite Hnone.
    by apply delete_insert_id. }
  rewrite Hix.
  assert (Hfresh : ∀ q, (Order.GetPrice o, q) ∈ side_map (Order.GetSide o) s →
            (Order.GetOrderId o ∉ ids q) ∧ q ≠ []).
  { intros q Hq. pose proof (book_wf_side (Order.GetSide o) s Hwf) as [_ Hl].
    rewrite Forall_forall in Hl. destruct (Hl _ Hq) as [Hne _]. split; [|done].
    intros Hin. apply list_elem_of_fmap in Hin as (x & Hid & Hx).
    assert (Hxin : x ∈ book_orders s).
    { apply (book_wf_elem_side (Order.GetSide o) s x Hwf).
      unfold side_orders. apply list_elem_of_join. exists q. split; [done |].
      apply list_elem_of_fmap. by exists (Order.GetPrice o, q). }
    destruct Hwf as (_ & _ & Hc).
    rewrite Hid, (consistent_lookup _ _ _ Hc Hxin) in Hnone. done. }
  assert (Hcancel :
    Orderbook.cancel_in (Order.GetOrderId o) (Order.GetPrice o)
      (side_map (Order.GetSide o) (Orderbook.insert o s))
    = Ok (side_map (Order.GetSide o) s)).
  { rewrite insert_side.
    destruct (book_wf_side (Order.GetSide o) s Hwf) as [Hs _].
    destruct (subscript_spec (Order.GetSide o) (Order.GetPrice o)
                (Orderbook.push_back o) _ Hs)
      as [(m1 & q & m2 & Hm & Hn & ->)|(m1 & m2 & Hm & Hn & -> & _)].
    - destruct (Hfresh q) as [Hq Hne].
      { rewrite Hm. apply elem_of_app. right. left. }
      unfold Orderbook.push_back.
      rewrite (cancel_in_split _ _ m1 q o [] m2 Hn Hq eq_refl).
      rewrite app_nil_r, Hm. by destruct q.
    - assert (Hn1 : Order.GetPrice o ∉ m1.*1).
      { rewrite Hm, fmap_app in Hn. by apply not_elem_of_app in Hn as [? _]. }
      unfold Orderbook.push_back. simpl.
      rewrite (cancel_in_split _ _ m1 [] o [] m2 Hn1); [by rewrite Hm | | done].
      apply not_elem_of_nil. }
  destruct s as [b a ix]. unfold Orderbook.insert in *. simpl in *.
  destruct (Order.GetSide o); simpl in *; by rewrite Hcancel.
Qed.

(* ===================================================================== *)
(** ** Further facts: properties kept along a history *)

Section HistoryKept.
Variable P : Order.t → Prop.
Hypothesis P_fill :
  ∀ quantity o, P o → Order.IsFilled (filled_by quantity o) = false →
                P (filled_by quantity o).

Lemma step_kept op s ts s' :
  book_wf s → op_submits P op → step op s = Ok (ts, s') →
  Forall P (book_orders s) → Forall P (book_orders s').
Proof using P_fill.
  intros Hwf Hop Hs HP.
  destruct op as [ty i sd p q|i|i sd p q]; simpl in *.
  - by eapply (AddOrder_kept P P_fill); [| |exact Hs |].
  - apply bind_Ok_inv in Hs as (s1 & Hc & [= <- <-]).
    by eapply CancelOrder_kept.
  - unfold Orderbook.MatchOrder in Hs.
    destruct (Orderbook.orders_ s !! _) as [e|]; [|by injection Hs as <- <-].
    apply bind_Ok_inv in Hs as (s1 & Hc & Ha).
    eapply (AddOrder_kept P P_fill); [ | | exact Ha | ].
    + by eapply CancelOrder_wf.
    + apply Hop.
    + by eapply CancelOrder_kept.
Qed.

Lemma run_kept ops :
  ∀ s s', book_inv s → Forall (op_submits P) ops → run ops s = Ok s' →
  Forall P (book_orders s) → Forall P (book_orders s').
Proof using P_fill.
  induction ops as [|op ops IH]; intros s s' Hinv Hops Hrun HP; simpl in Hrun.
  - by injection Hrun as <-.
  - apply Forall_cons in Hops as [Hop Hops].
    destruct (step_inv op s Hinv) as (ts & s1 & Hs & Hinv1).
    rewrite Hs in Hrun. simpl in Hrun.
    eapply IH; [exact Hinv1 | done | done |].
    destruct Hinv as (Hwf & _). by apply (step_kept op s ts s1).
Qed.
End HistoryKept.

(** What became of the order of an identifier, for an operation about
    another identifier. *)
Lemma fills_of_refl x : fills_of x x.
Proof. unfold fills_of. repeat split; lia. Qed.

Lemma fills_of_fill quantity x x' :
  fills_of x x' → fills_of x (filled_by quantity x').
Proof.
  intros (? & ? & ? & ? & ? & ?). unfold fills_of, filled_by in *.
  unfold Order.GetRemainingQuantity in *. simpl. repeat split; try done. lia.
Qed.

Lemma step_other_orders op s ts s' i x' :
  book_wf s → step op s = Ok (ts, s') → op_id op ≠ i →
  book_wf s' →
  Orderbook.orders_ s' !! i = Some x' →
  ∃ x, Orderbook.orders_ s !! i = Some x ∧ fills_of x x'.
Proof.
  intros Hwf Hs Hop Hwf' Hi.
  set (P := λ y : Order.t, Order.GetOrderId y = i →
              ∃ x, Orderbook.orders_ s !! i = Some x ∧ fills_of x y).
  assert (HP : Forall P (book_orders s')).
  { apply (step_kept P) with (op := op) (s := s) (ts := ts); try done.
    - intros quantity o Ho _ Hid. destruct (Ho Hid) as (x & Hx & Hf).
      exists x. split; [done |]. by apply fills_of_fill.
    - destruct op as [ty j sd p q|j|j sd p q]; unfold P; simpl in *; [done | done |].
      intros ? ?. done.
    - apply Forall_forall. intros y Hy Hid. exists y. split; [|apply fills_of_refl].
      destruct Hwf as (_ & _ & Hc). rewrite <- Hid.
      by eapply consistent_lookup. }
  destruct Hwf' as (_ & _ & _ & Hix). apply Hix in Hi as [Hin Hid].
  rewrite Forall_forall in HP. by apply (HP x' Hin).
Qed.

(* ===================================================================== *)
(** ** Further facts: the quantities of a submission *)

Lemma total_remaining_app l1 l2 :
  total_remaining (l1 ++ l2) = (total_remaining l1 + total_remaining l2)%N.
Proof. induction l1 as [|x l1 IH]; simpl; lia. Qed.

Lemma total_front_after x :
  total_remaining (front_after x) = Order.GetRemainingQuantity x.
Proof.
  unfold front_after, Order.IsFilled.
  destruct (N.eqb_spec (Order.GetRemainingQuantity x) 0) as [E|_]; simpl; lia.
Qed.

Lemma trades_quantity_app ts1 ts2 :
  trades_quantity (ts1 ++ ts2) = (trades_quantity ts1 + trades_quantity ts2)%N.
Proof. induction ts1 as [|t ts1 IH]; simpl; lia. Qed.

(** Each trade takes its quantity from one bid and from one ask. *)
Lemma matching_total s ts s' :
  matching s ts s' →
  total_remaining (book_orders s)
  = (total_remaining (book_orders s') + 2 * trades_quantity ts)%N.
Proof.
  induction 1 as [|s bp bid bids rb ap ask asks ra s1 t ts s3 Hb Ha Hle Hm Hrest IH];
    [simpl; lia |].
  destruct (matching_fill_inv _ _ _ _ _ _ _ _ _ _ _ Hb Ha Hm) as [Hs1 ->].
  change (trades_quantity (trade_of bid ask
            (N.min (Order.GetRemainingQuantity bid) (Order.GetRemainingQuantity ask))
            :: ts))
    with (N.min (Order.GetRemainingQuantity bid) (Order.GetRemainingQuantity ask)
          + trades_quantity ts)%N.
  enough (total_remaining (book_orders s)
          = (total_remaining (book_orders s1)
             + 2 * N.min (Order.GetRemainingQuantity bid)
                         (Order.GetRemainingQuantity ask))%N) by lia.
  clear IH Hrest Hm. rewrite Hs1.
  unfold book_orders. rewrite Hb, Ha. simpl Orderbook.bids_. simpl Orderbook.asks_.
  rewrite !side_orders_settle, !side_orders_cons.
  simpl. rewrite ?total_remaining_app, ?total_front_after.
  unfold filled_by, Order.GetRemainingQuantity. simpl.
  rewrite ?total_remaining_app. unfold Order.GetRemainingQuantity. lia.
Qed.

Lemma insert_perm o s :
  book_wf s → book_orders (Orderbook.insert o s) ≡ₚ o :: book_orders s.
Proof.
  intros Hwf. unfold book_orders.
  destruct (subscript_push_wf _ o _ eq_refl (book_wf_side (Order.GetSide o) s Hwf))
    as [_ Hp].
  rewrite <- insert_side in Hp. pose proof (insert_other_side o s) as Ho.
  destruct (Order.GetSide o); simpl in *; rewrite Hp, Ho; [done |].
  solve_Permutation.
Qed.

Lemma CancelOrder_perm s i o s' :
  book_wf s → Orderbook.orders_ s !! i = Some o →
  Orderbook.CancelOrder i s = Ok s' →
  book_orders s ≡ₚ o :: book_orders s'.
Proof.
  intros Hwf Hi Hc.
  destruct (CancelOrder_live _ _ _ Hwf Hi) as (m1 & q1 & q2 & m2 & Hm & _ & _ & Hr).
  rewrite Hr in Hc. injection Hc as <-. unfold book_orders, cancelled.
  destruct (Order.GetSide o); simpl in *; rewrite Hm;
    rewrite ?side_orders_app, ?side_orders_cons, ?side_orders_level_entry;
    solve_Permutation.
Qed.

Lemma CancelOrder_total s i s' :
  book_wf s → Orderbook.CancelOrder i s = Ok s' →
  (total_remaining (book_orders s') ≤ total_remaining (book_orders s))%N.
Proof.
  intros Hwf Hc. destruct (Orderbook.orders_ s !! i) as [o|] eqn:Hi.
  - rewrite (total_remaining_perm _ _ (CancelOrder_perm _ _ _ _ Hwf Hi Hc)).
    simpl. lia.
  - rewrite CancelOrder_unknown in Hc by done. injection Hc as <-. lia.
Qed.

Lemma sweep_total m s s' :
  book_wf s → Orderbook.sweep m s = Ok s' →
  (total_remaining (book_orders s') ≤ total_remaining (book_orders s))%N.
Proof.
  intros Hwf Hs. unfold Orderbook.sweep in Hs.
  destruct (PriceMap.begin m) as [[? [|o ?]]|]; try (injection Hs as <-; lia).
  destruct (Order.GetOrderType o); [injection Hs as <-; lia |].
  by eapply CancelOrder_total.
Qed.

Lemma is_gtc_fill quantity o :
  is_gtc o → Order.IsFilled (filled_by quantity o) = false →
  is_gtc (filled_by quantity o).
Proof. by intros H _. Qed.

Lemma AddOrder_total o s ts s' :
  book_inv s → Orderbook.AddOrder o s = Ok (ts, s') →
  (total_remaining (book_orders s') + 2 * trades_quantity ts
   ≤ total_remaining (book_orders s) + Order.GetRemainingQuantity o)%N
  ∧ (Order.GetOrderType o = GoodTillCancel →
     Orderbook.orders_ s !! Order.GetOrderId o = None →
     (total_remaining (book_orders s') + 2 * trades_quantity ts
      = total_remaining (book_orders s) + Order.GetRemainingQuantity o)%N).
Proof.
  intros (Hwf & Hu & Hg) Ha.
  assert (Hacc : Orderbook.orders_ s !! Order.GetOrderId o = None →
            Orderbook.MatchOrders (Orderbook.insert o s) = Ok (ts, s') →
            (total_remaining (book_orders s') + 2 * trades_quantity ts
             ≤ total_remaining (book_orders s) + Order.GetRemainingQuantity o)%N
            ∧ (Order.GetOrderType o = GoodTillCancel →
               (total_remaining (book_orders s') + 2 * trades_quantity ts
                = total_remaining (book_orders s) + Order.GetRemainingQuantity o)%N)).
  { intros Hnone Hmo. pose proof (insert_wf o s Hnone Hwf) as Hwfi.
    destruct (MatchOrders_run _ Hwfi)
      as (s1 & ts1 & s2 & s3 & Hm & Hwf1 & _ & Hs2 & Hs3 & Hrun & _).
    rewrite Hrun in Hmo. injection Hmo as -> ->.
    pose proof (matching_total _ _ _ Hm) as Ht.
    rewrite (total_remaining_perm _ _ (insert_perm o s Hwf)) in Ht. simpl in Ht.
    pose proof (sweep_total _ _ _ Hwf1 Hs2) as H2.
    pose proof (sweep_total _ _ _ (sweep_wf _ _ _ Hwf1 Hs2) Hs3) as H3.
    split; [lia |]. intros Hty.
    assert (Hg1 : Forall is_gtc (book_orders s1)).
    { eapply (matching_kept is_gtc is_gtc_fill); [exact Hm |].
      by apply insert_gtc. }
    unfold book_orders in Hg1. apply Forall_app in Hg1 as [Hgb Hga].
    rewrite (sweep_gtc _ _ Hgb) in Hs2. injection Hs2 as <-.
    rewrite (sweep_gtc _ _ Hga) in Hs3. injection Hs3 as <-. lia. }
  destruct (AddOrder_cases o s) as [H|(Hnone & _ & H)].
  - split.
    + rewrite H in Ha. injection Ha as <- <-. simpl. lia.
    + intros Hty Hnone. rewrite AddOrder_fresh in Ha; [|done | by rewrite Hty].
      by apply Hacc.
  - rewrite H in Ha. destruct (Hacc Hnone Ha) as [H1 H2]. split; [done |].
    intros Hty _. by apply H2.
Qed.

(* ===================================================================== *)
(** ** Further facts: what a match does to each resting order *)

Lemma fills_of_trans x y z : fills_of x y → fills_of y z → fills_of x z.
Proof.
  intros (? & ? & ? & ? & ? & ?) (? & ? & ? & ? & ? & ?).
  unfold fills_of. repeat split; try congruence. lia.
Qed.

(** Matching brings no identifier onto a side. *)
Lemma matching_ids sd s ts s' :
  matching s ts s' →
  ∀ i, i ∈ ids (side_orders (side_map sd s')) →
       i ∈ ids (side_orders (side_map sd s)).
Proof.
  induction 1 as [|s bp bid bids rb ap ask asks ra s1 t0 ts s3 Hb Ha Hle Hm Hrest IH];
    intros i Hi; [done |].
  destruct (step_side_view sd _ _ _ _ _ _ _ _ _ _ _ Hb Ha Hm)
    as (p0 & front & q0 & r0 & quantity & Hs & Hs1 & _ & _).
  apply IH in Hi. rewrite Hs1, side_orders_settle in Hi.
  rewrite Hs, side_orders_cons. unfold ids in *. rewrite fmap_app in Hi. csimpl.
  apply elem_of_app in Hi as [Hi|Hi].
  - unfold front_after in Hi. destruct (Order.IsFilled _);
      [by apply elem_of_nil in Hi |].
    apply list_elem_of_singleton in Hi. rewrite Hi. left.
  - by right.
Qed.

(** A resting order is, after the matching, either still queued with its
    remaining quantity reduced by what the trades executed on it, or gone
    with all of its remaining quantity executed. *)
Lemma matching_account sd s ts s' :
  matching s ts s' → book_wf s →
  ∀ x, x ∈ side_orders (side_map sd s) →
    (∃ x', x' ∈ side_orders (side_map sd s') ∧ fills_of x x'
           ∧ (Order.GetRemainingQuantity x' + filled_on sd (Order.GetOrderId x) ts
              = Order.GetRemainingQuantity x)%N)
    ∨ ((Order.GetOrderId x ∉ ids (side_orders (side_map sd s')))
       ∧ filled_on sd (Order.GetOrderId x) ts = Order.GetRemainingQuantity x).
Proof.
  induction 1 as [|s bp bid bids rb ap ask asks ra s1 t0 ts s3 Hb Ha Hle Hm Hrest IH];
    intros Hwf x Hx.
  { left. exists x. split; [done |]. split; [apply fills_of_refl |]. simpl. lia. }
  pose proof (match_front_wf _ _ _ _ _ _ _ _ _ _ _ _ Hb Ha Hm Hwf) as Hwf1.
  destruct (step_side_view sd _ _ _ _ _ _ _ _ _ _ _ Hb Ha Hm)
    as (p0 & front & q0 & r0 & quantity & Hs & Hs1 & Ht0 & Hq).
  pose proof (book_wf_side_NoDup sd s Hwf) as Hnd.
  rewrite Hs, side_orders_cons in Hnd. unfold ids in Hnd. csimpl in Hnd.
  apply NoDup_cons in Hnd as [Hfront Hnd]. fold (ids (q0 ++ side_orders r0)) in Hfront.
  rewrite Hs, side_orders_cons in Hx. simpl in Hx.
  simpl filled_on. rewrite Ht0. simpl TradeInfo.orderId_. simpl TradeInfo.quantity_.
  apply elem_of_cons in Hx as [->|Hx].
  - rewrite N.eqb_refl.
    destruct (Order.IsFilled (filled_by quantity front)) eqn:Efill.
    + right. split.
      * intros Hin. apply (matching_ids sd _ _ _ Hrest) in Hin.
        rewrite Hs1, side_orders_settle in Hin.
        unfold front_after in Hin. rewrite Efill in Hin. by simpl in Hin.
      * rewrite filled_on_absent.
        { unfold Order.IsFilled in Efill. apply N.eqb_eq in Efill.
          unfold filled_by, Order.GetRemainingQuantity in *. simpl in Efill. lia. }
        intros t' Ht' E.
        pose proof (matching_trade_ids sd _ _ _ Hrest t' Ht') as Hin.
        rewrite Hs1, side_orders_settle, E in Hin.
        unfold front_after in Hin. rewrite Efill in Hin. by simpl in Hin.
    + assert (Hx1 : filled_by quantity front ∈ side_orders (side_map sd s1)).
      { rewrite Hs1, side_orders_settle. unfold front_after. rewrite Efill. left. }
      destruct (IH Hwf1 _ Hx1) as [(x' & Hx' & Hf & Hacc)|[Hno Hacc]].
      * left. exists x'. split; [done |]. split.
        { eapply fills_of_trans; [|exact Hf]. apply fills_of_fill, fills_of_refl. }
        change (Order.GetOrderId (filled_by quantity front))
          with (Order.GetOrderId front) in Hacc.
        unfold filled_by, Order.GetRemainingQuantity in *. simpl in Hacc. lia.
      * right. split; [done |].
        change (Order.GetOrderId (filled_by quantity front))
          with (Order.GetOrderId front) in Hacc.
        unfold filled_by, Order.GetRemainingQuantity in *. simpl in Hacc. lia.
  - destruct (N.eqb_spec (Order.GetOrderId front) (Order.GetOrderId x)) as [E|_].
    { exfalso. apply Hfront. rewrite E. by apply ids_elem. }
    apply (IH Hwf1). rewrite Hs1, side_orders_settle. apply elem_of_app. by right.
Qed.

Lemma sweep_cases sd s s' :
  Orderbook.sweep (side_map sd s) s = Ok s' →
  s' = s
  ∨ ∃ f, f ∈ side_orders (side_map sd s)
         ∧ Order.GetOrderType f = FillandKill
         ∧ Orderbook.CancelOrder (Order.GetOrderId f) s = Ok s'.
Proof.
  unfold Orderbook.sweep. intros Hs.
  destruct (side_map sd s) as [|[p [|f q]] r]; simpl in Hs;
    try (left; by injection Hs).
  destruct (Order.GetOrderType f) eqn:Ety; [left; by injection Hs |].
  right. exists f. split; [|done]. rewrite side_orders_cons. left.
Qed.

(** The fill-and-kill check leaves the good-till-cancel orders queued and
    brings no identifier onto a side. *)
Lemma sweep_account sd0 s s' :
  book_wf s → Orderbook.sweep (side_map sd0 s) s = Ok s' →
  ∀ sd,
    (∀ x, x ∈ side_orders (side_map sd s) → is_gtc x →
          x ∈ side_orders (side_map sd s'))
    ∧ (∀ i, i ∈ ids (side_orders (side_map sd s')) →
            i ∈ ids (side_orders (side_map sd s))).
Proof.
  intros Hwf Hs sd.
  destruct (sweep_cases _ _ _ Hs) as [->|(f & Hf & Hty & Hc)]; [done |].
  split.
  - intros x Hx Hg. apply (CancelOrder_orders _ _ _ sd x Hwf Hc). split; [done |].
    intros E. apply (book_wf_elem_side sd0 s f Hwf) in Hf as [Hf _].
    apply (book_wf_elem_side sd s x Hwf) in Hx as [Hx _].
    destruct Hwf as (_ & _ & Hcons).
    assert (x = f) as -> by (by eapply consistent_id_inj).
    unfold is_gtc in Hg. congruence.
  - intros i Hi. unfold ids in *. apply list_elem_of_fmap in Hi as (y & -> & Hy).
    apply (CancelOrder_orders _ _ _ sd y Hwf Hc) in Hy as [Hy _].
    by apply list_elem_of_fmap_2.
Qed.

Lemma MatchOrders_account s ts s' :
  book_wf s → Orderbook.MatchOrders s = Ok (ts, s') →
  ∀ sd,
    (∀ x, x ∈ side_orders (side_map sd s) → is_gtc x →
      (∃ x', x' ∈ side_orders (side_map sd s') ∧ fills_of x x'
             ∧ (Order.GetRemainingQuantity x' + filled_on sd (Order.GetOrderId x) ts
                = Order.GetRemainingQuantity x)%N)
      ∨ ((Order.GetOrderId x ∉ ids (side_orders (side_map sd s')))
         ∧ filled_on sd (Order.GetOrderId x) ts = Order.GetRemainingQuantity x))
    ∧ (∀ i, i ∈ ids (side_orders (side_map sd s')) →
            i ∈ ids (side_orders (side_map sd s))).
Proof.
  intros Hwf Hmo sd.
  destruct (MatchOrders_run _ Hwf)
    as (s1 & ts1 & s2 & s3 & Hm & Hwf1 & _ & Hs2 & Hs3 & Hrun & _).
  pose proof (sweep_wf _ _ _ Hwf1 Hs2) as Hwf2.
  destruct (sweep_account Buy s1 s2 Hwf1 Hs2 sd) as [Hk2 Hi2].
  destruct (sweep_account Sell s2 s3 Hwf2 Hs3 sd) as [Hk3 Hi3].
  rewrite Hrun in Hmo. injection Hmo as -> ->.
  split.
  - intros x Hx Hg.
    destruct (matching_account sd _ _ _ Hm Hwf x Hx) as [(x' & Hx' & Hf & Hacc)|[Hno Hacc]].
    + left. exists x'. split; [|done]. apply Hk3; [apply Hk2 |]; try done.
      * unfold is_gtc in *. destruct Hf as (-> & _). done.
      * unfold is_gtc in *. destruct Hf as (-> & _). done.
    + right. split; [|done]. intros Hin. by apply Hno, Hi2, Hi3.
  - intros i Hi. by apply (matching_ids sd _ _ _ Hm), Hi2, Hi3.
Qed.

(** An identifier is queued on one side only. *)
Lemma book_wf_one_side sd s i :
  book_wf s → i ∈ ids (side_orders (side_map sd s)) →
  i ∉ ids (side_orders (side_map (other sd) s)).
Proof.
  intros (_ & _ & Hnd & _) Hi Ho. unfold book_orders, ids in Hnd.
  rewrite fmap_app in Hnd. apply NoDup_app in Hnd as (_ & Hd & _).
  destruct sd; simpl in *; by eapply Hd.
Qed.

Lemma AddOrder_account o s ts s' i x :
  book_inv s → Orderbook.AddOrder o s = Ok (ts, s') →
  Orderbook.orders_ s !! i = Some x →
  match Orderbook.orders_ s' !! i with
  | Some x' =>
      fills_of x x'
      ∧ (Order.GetRemainingQuantity x' + filled_on (Order.GetSide x) i ts
         = Order.GetRemainingQuantity x)%N
  | None => filled_on (Order.GetSide x) i ts = Order.GetRemainingQuantity x
  end.
Proof.
  intros (Hwf & Hu & Hg) Ha Hi.
  destruct (AddOrder_cases o s) as [H|(Hnone & _ & H)]; rewrite H in Ha.
  { injection Ha as <- <-. rewrite Hi. split; [apply fills_of_refl |]. simpl. lia. }
  pose proof (insert_wf o s Hnone Hwf) as Hwfi.
  assert (Hwf' : book_wf s').
  { destruct (MatchOrders_run _ Hwfi) as (? & ? & ? & ? & _ & _ & _ & _ & _ & Hr & ? & _).
    rewrite Hr in Ha. by injection Ha as <- <-. }
  pose proof Hwf as (_ & _ & _ & Hix). apply Hix in Hi as [Hin <-].
  assert (Hgx : is_gtc x) by (rewrite Forall_forall in Hg; by apply Hg).
  set (sd := Order.GetSide x).
  assert (Hxi : x ∈ side_orders (side_map sd (Orderbook.insert o s))).
  { apply book_wf_elem_side; [done |]. split; [|done].
    rewrite (insert_perm o s Hwf). by right. }
  destruct (MatchOrders_account _ _ _ Hwfi Ha sd) as [Hacc _].
  destruct (MatchOrders_account _ _ _ Hwfi Ha (other sd)) as [_ Hoth].
  pose proof Hwf' as (_ & _ & Hcons').
  destruct (Hacc x Hxi Hgx) as [(x' & Hx' & Hf & Hq)|[Hno Hq]].
  - apply (book_wf_elem_side sd s' x' Hwf') in Hx' as [Hx' _].
    pose proof (consistent_lookup _ _ _ Hcons' Hx') as Hl.
    pose proof Hf as (_ & Hid & _). rewrite Hid in Hl. by rewrite Hl.
  - destruct (Orderbook.orders_ s' !! Order.GetOrderId x) as [y|] eqn:Hy; [|done].
    exfalso. destruct Hcons' as [_ Hix']. apply Hix' in Hy as [Hy Hid].
    destruct (decide (Order.GetSide y = sd)) as [E|E].
    + apply Hno. rewrite <- Hid. apply ids_elem. by apply book_wf_elem_side.
    + apply side_map_other in E.
      assert (Hyo : Order.GetOrderId x
                    ∈ ids (side_orders (side_map (other sd) (Orderbook.insert o s)))).
      { apply Hoth. rewrite <- Hid. apply ids_elem. by apply book_wf_elem_side. }
      revert Hyo. apply book_wf_one_side; [done |]. by apply ids_elem.
Qed.

(* ===================================================================== *)
(** ** Further facts: priority across the levels of a side *)

(** The orders of a side are matched in the order of [side_orders]. *)
Lemma matching_sequence sd s ts s' :
  matching s ts s' → book_wf s →
  ∀ l1 a l2 b l3 pre t post,
    side_orders (side_map sd s) = l1 ++ a :: l2 ++ b :: l3 →
    ts = pre ++ t :: post →
    TradeInfo.orderId_ (side_trade sd t) = Order.GetOrderId b →
    filled_on sd (Order.GetOrderId a) pre = Order.GetRemainingQuantity a.
Proof.
  induction 1 as [|s bp bid bids rb ap ask asks ra s1 t0 ts s3 Hb Ha Hle Hm Hrest IH];
    intros Hwf l1 a l2 b l3 pre t post Hso Heq Hid; [by destruct pre |].
  pose proof (match_front_wf _ _ _ _ _ _ _ _ _ _ _ _ Hb Ha Hm Hwf) as Hwf1.
  destruct (step_side_view sd _ _ _ _ _ _ _ _ _ _ _ Hb Ha Hm)
    as (p0 & front & q0 & r0 & quantity & Hs & Hs1 & Ht0 & Hq).
  pose proof (book_wf_side_NoDup sd s Hwf) as Hnd.
  rewrite Hs, side_orders_cons in Hnd. unfold ids in Hnd. csimpl in Hnd.
  apply NoDup_cons in Hnd as [Hfront Hnd]. fold (ids (q0 ++ side_orders r0)) in Hfront.
  rewrite Hs, side_orders_cons in Hso. simpl in Hso.
  assert (Hs1o : side_orders (side_map sd s1)
                 = front_after (filled_by quantity front) ++ q0 ++ side_orders r0)
    by (rewrite Hs1; apply side_orders_settle).
  assert (Hb_behind : Order.GetOrderId b ∈ ids (q0 ++ side_orders r0)).
  { apply ids_elem. destruct l1 as [|x l1]; simpl in Hso; injection Hso as _ ->;
      rewrite ?elem_of_app, ?elem_of_cons, ?elem_of_app, ?elem_of_cons; tauto. }
  destruct pre as [|t1 pre]; simpl in Heq; injection Heq as -> ->.
  { exfalso. rewrite Ht0 in Hid. simpl in Hid. rewrite Hid in Hfront. done. }
  simpl. rewrite Ht0. simpl.
  destruct l1 as [|x l1]; simpl in Hso; injection Hso as -> Hso.
  - rewrite N.eqb_refl.
    destruct (Order.IsFilled (filled_by quantity a)) eqn:Efill.
    + rewrite filled_on_absent.
      { unfold Order.IsFilled in Efill. apply N.eqb_eq in Efill.
        unfold filled_by, Order.GetRemainingQuantity in *. simpl in Efill. lia. }
      intros t' Ht' E.
      assert (Hin' : t' ∈ pre ++ t :: post) by (apply elem_of_app; by left).
      pose proof (matching_trade_ids sd _ _ _ Hrest t' Hin') as Hin.
      rewrite Hs1o, E in Hin.
      unfold front_after in Hin. rewrite Efill in Hin. by simpl in Hin.
    + assert (Hpre : filled_on sd (Order.GetOrderId a) pre
                     = Order.GetRemainingQuantity (filled_by quantity a)).
      { apply (IH Hwf1 [] (filled_by quantity a) l2 b l3 pre t post); [|done | done].
        rewrite Hs1o, Hso. unfold front_after. by rewrite Efill. }
      rewrite Hpre. unfold filled_by, Order.GetRemainingQuantity in *. simpl. lia.
  - assert (Ha_behind : Order.GetOrderId a ∈ ids (q0 ++ side_orders r0)).
    { apply ids_elem. rewrite Hso, !elem_of_app, !elem_of_cons. tauto. }
    destruct (N.eqb_spec (Order.GetOrderId x) (Order.GetOrderId a)) as [E|_];
      [by rewrite E in Hfront |].
    apply (IH Hwf1 (front_after (filled_by quantity x) ++ l1) a l2 b l3 pre t post);
      [|done | done].
    by rewrite Hs1o, Hso, app_assoc.
Qed.

(** On a side in order, an order at a better price comes first. *)
Lemma side_wf_price_order sd m a b :
  side_wf sd m → NoDup (ids (side_orders m)) →
  a ∈ side_orders m → b ∈ side_orders m →
  before sd (Order.GetPrice a) (Order.GetPrice b) →
  ∃ l1 l2 l3, side_orders m = l1 ++ a :: l2 ++ b :: l3.
Proof.
  intros Hwf Hnd Ha Hb Hlt.
  destruct (side_wf_locate sd m a Hwf Hnd Ha) as (m1 & q1 & q2 & m2 & -> & _ & _ & _).
  rewrite side_orders_app, side_orders_cons in Hb |- *.
  destruct Hwf as [Hs Hl]. rewrite fmap_app in Hs. csimpl in Hs.
  apply StronglySorted_app in Hs as (Hord & _ & _).
  rewrite Forall_app, Forall_cons in Hl. destruct Hl as (Hl1 & [_ Hla] & _).
  simpl in Hla. rewrite Forall_forall in Hl1. rewrite Forall_forall in Hla.
  apply elem_of_app in Hb as [Hb|Hb]; [|apply elem_of_app in Hb as [Hb|Hb]].
  - exfalso. unfold side_orders in Hb. apply list_elem_of_join in Hb as (q & Hbq & Hq).
    apply list_elem_of_fmap in Hq as ([k q'] & -> & Hkq). simpl in Hbq.
    destruct (Hl1 _ Hkq) as [_ Hall]. simpl in Hall. rewrite Forall_forall in Hall.
    destruct (Hall _ Hbq) as [_ Hpb].
    assert (Hk : before sd k (Order.GetPrice a)).
    { apply Hord; [|left]. apply list_elem_of_fmap. by exists (k, q'). }
    rewrite Hpb in Hlt. apply (before_irrefl sd k). by eapply before_trans.
  - exfalso. destruct (Hla _ Hb) as [_ Hpb]. rewrite Hpb in Hlt.
    by apply (before_irrefl sd (Order.GetPrice a)).
  - apply list_elem_of_split in Hb as (y1 & y2 & ->).
    exists (side_orders m1 ++ q1), (q2 ++ y1), y2.
    by rewrite <- !app_assoc.
Qed.

(* ===================================================================== *)
(** ** Further facts: the trades of a submission are with the incoming order *)

Lemma settle_keys p o q (m : PriceMap.t) k :
  k ∈ (settle p o q m).*1 → k ∈ p :: m.*1.
Proof.
  unfold settle. destruct (Order.IsFilled o); [|done].
  destruct q; csimpl; [by right | done].
Qed.

Lemma side_orders_key sd m x :
  side_wf sd m → NoDup (ids (side_orders m)) → x ∈ side_orders m →
  Order.GetPrice x ∈ m.*1.
Proof.
  intros Hwf Hnd Hx.
  destruct (side_wf_locate sd m x Hwf Hnd Hx) as (m1 & q1 & q2 & m2 & -> & _).
  rewrite fmap_app. csimpl. apply elem_of_app. right. left.
Qed.

(** When every order of a side but one is out of reach of the opposite
    side, every trade is with that one. *)
Lemma matching_incoming sd i s ts s' :
  matching s ts s' → book_wf s →
  (∀ x, x ∈ side_orders (side_map sd s) →
        Order.GetOrderId x = i
        ∨ ∀ k, k ∈ (side_map (other sd) s).*1 → apart sd (Order.GetPrice x) k) →
  ∀ t, t ∈ ts → TradeInfo.orderId_ (side_trade sd t) = i.
Proof.
  induction 1 as [|s bp bid bids rb ap ask asks ra s1 t0 ts s3 Hb Ha Hle Hm Hrest IH];
    intros Hwf Hinv t Ht; [by apply elem_of_nil in Ht |].
  pose proof (match_front_wf _ _ _ _ _ _ _ _ _ _ _ _ Hb Ha Hm Hwf) as Hwf1.
  destruct (step_side_view sd _ _ _ _ _ _ _ _ _ _ _ Hb Ha Hm)
    as (p0 & front & q0 & r0 & quantity & Hs & Hs1 & Ht0 & _).
  destruct (step_side_view (other sd) _ _ _ _ _ _ _ _ _ _ _ Hb Ha Hm)
    as (p0' & front' & q0' & r0' & quantity' & Hs' & Hs1' & _ & _).
  destruct (front_price sd s _ _ _ _ Hwf Hs) as (Hp0 & _ & _).
  apply elem_of_cons in Ht as [->|Ht].
  - rewrite Ht0. simpl.
    destruct (Hinv front) as [E|Hap]; [rewrite Hs, side_orders_cons; left | done |].
    exfalso. specialize (Hap p0'). rewrite Hs' in Hap. csimpl in Hap.
    specialize (Hap ltac:(left)). rewrite Hp0 in Hap.
    destruct sd; simpl in *; rewrite Hb in *; rewrite Ha in *;
      injection Hs as -> _ _ _; injection Hs' as -> _ _ _; lia.
  - apply (IH Hwf1); [|done]. intros x Hx.
    assert (Hkeys : ∀ k, k ∈ (side_map (other sd) s1).*1 →
                         k ∈ (side_map (other sd) s).*1).
    { intros k Hk. rewrite Hs1' in Hk. apply settle_keys in Hk. by rewrite Hs'. }
    rewrite Hs1, side_orders_settle in Hx. apply elem_of_app in Hx as [Hx|Hx].
    + unfold front_after in Hx. destruct (Order.IsFilled _);
        [by apply elem_of_nil in Hx |].
      apply list_elem_of_singleton in Hx as ->.
      destruct (Hinv front) as [E|Hap]; [rewrite Hs, side_orders_cons; left | by left |].
      right. intros k Hk. by apply Hap, Hkeys.
    + destruct (Hinv x) as [E|Hap];
        [rewrite Hs, side_orders_cons; by right | by left |].
      right. intros k Hk. by apply Hap, Hkeys.
Qed.

Lemma AddOrder_incoming o s ts s' :
  book_inv s → Orderbook.AddOrder o s = Ok (ts, s') →
  ∀ t, t ∈ ts →
    TradeInfo.orderId_ (side_trade (Order.GetSide o) t) = Order.GetOrderId o.
Proof.
  intros (Hwf & Hu & Hg) Ha t Ht.
  destruct (AddOrder_cases o s) as [H|(Hnone & _ & H)]; rewrite H in Ha.
  { injection Ha as <- <-. by apply elem_of_nil in Ht. }
  pose proof (insert_wf o s Hnone Hwf) as Hwfi.
  destruct (MatchOrders_run _ Hwfi)
    as (s1 & ts1 & s2 & s3 & Hm & _ & _ & _ & _ & Hrun & _).
  rewrite Hrun in Ha. injection Ha as -> ->.
  apply (matching_incoming _ _ _ _ _ Hm Hwfi); [|done].
  intros x Hx. apply (book_wf_elem_side _ _ _ Hwfi) in Hx as [Hx Hsd].
  rewrite (insert_perm o s Hwf) in Hx. apply elem_of_cons in Hx as [->|Hx];
    [by left | right].
  intros k Hk. rewrite insert_other_side in Hk.
  pose proof (uncrossed_all s Hwf Hu) as Hall.
  rewrite all_uncrossed_sides in Hall. apply Hall; [|done].
  apply (side_orders_key (Order.GetSide o)).
  - by apply book_wf_side.
  - by apply book_wf_side_NoDup.
  - by apply book_wf_elem_side.
Qed.

(* ===================================================================== *)
(** ** Further facts: the queue of a level after a cancellation *)

Lemma filter_all {A} (P : A → Prop) `{∀ x, Decision (P x)} (l : list A) :
  (∀ x, x ∈ l → P x) → filter P l = l.
Proof.
  induction l as [|x l IH]; intros Hall; [done |].
  rewrite filter_cons_True by (apply Hall; left).
  f_equal. apply IH. intros y Hy. apply Hall. by right.
Qed.

Lemma level_orders sd p s q x :
  book_wf s → level sd p s = Some q → x ∈ q →
  x ∈ book_orders s ∧ Order.GetSide x = sd ∧ Order.GetPrice x = p.
Proof.
  intros Hwf Hlv Hx. unfold level in Hlv.
  pose proof (book_wf_side sd s Hwf) as Hs.
  apply find_Some_elem in Hlv.
  apply (level_elem sd _ _ _ x Hs Hlv) in Hx as [Hx Hp].
  apply (book_wf_elem_side sd s x Hwf) in Hx as [Hx Hsd]. done.
Qed.

(** The queue of every level after a cancellation is the queue before
    it without the cancelled order. *)
Lemma CancelOrder_level sd p s i s' :
  book_wf s → Orderbook.CancelOrder i s = Ok s' →
  default [] (level sd p s')
  = filter (λ y, Order.GetOrderId y ≠ i) (default [] (level sd p s)).
Proof.
  intros Hwf Hc.
  assert (Hsame : ∀ o, Orderbook.orders_ s !! i = Some o →
            ¬ (Order.GetSide o = sd ∧ Order.GetPrice o = p) →
            filter (λ y, Order.GetOrderId y ≠ i) (default [] (level sd p s))
            = default [] (level sd p s)).
  { intros o Hi Hne. apply filter_all. intros y Hy Hid.
    destruct (level sd p s) as [q|] eqn:Hlv; [|by apply elem_of_nil in Hy].
    destruct (level_orders sd p s q y Hwf Hlv Hy) as (Hyb & Hsd & Hp).
    destruct Hwf as (_ & _ & Hcons).
    pose proof (consistent_lookup _ _ _ Hcons Hyb) as Hl.
    rewrite Hid, Hi in Hl. injection Hl as ->. by apply Hne. }
  destruct (Orderbook.orders_ s !! i) as [o|] eqn:Hi.
  2:{ rewrite CancelOrder_unknown in Hc by done. injection Hc as <-.
      symmetry. apply filter_all. intros y Hy Hid.
      destruct (level sd p s) as [q|] eqn:Hlv; [|by apply elem_of_nil in Hy].
      destruct (level_orders sd p s q y Hwf Hlv Hy) as (Hyb & _).
      destruct Hwf as (_ & _ & Hcons).
      pose proof (consistent_lookup _ _ _ Hcons Hyb) as Hl.
      rewrite Hid, Hi in Hl. done. }
  destruct (CancelOrder_live _ _ _ Hwf Hi) as (m1 & q1 & q2 & m2 & Hm & Hn & Hid & Hr).
  rewrite Hr in Hc. injection Hc as <-.
  destruct (decide (sd = Order.GetSide o)) as [->|Hsd].
  2:{ rewrite (Hsame o eq_refl) by (intros [? _]; congruence).
      unfold level, cancelled. by destruct (Order.GetSide o), sd. }
  assert (Hmap : side_map (Order.GetSide o)
                   (cancelled (Order.GetSide o)
                      (m1 ++ level_entry (Order.GetPrice o) (q1 ++ q2) ++ m2) i s)
                 = m1 ++ level_entry (Order.GetPrice o) (q1 ++ q2) ++ m2).
  { unfold cancelled. by destruct (Order.GetSide o). }
  pose proof (book_wf_side (Order.GetSide o) s Hwf) as [Hs _].
  rewrite Hm in Hs. apply (sorted_NoDup (Order.GetSide o)) in Hs.
  rewrite fmap_app in Hs. csimpl in Hs.
  apply NoDup_app in Hs as (_ & _ & Hs). apply NoDup_cons in Hs as [Hn2 _].
  destruct (decide (p = Order.GetPrice o)) as [->|Hne].
  2:{ rewrite (Hsame o eq_refl) by (intros [_ ?]; congruence).
      unfold level. rewrite Hmap, Hm, !find_app.
      by rewrite find_cons_ne, find_level_entry_ne. }
  pose proof (book_wf_side_NoDup (Order.GetSide o) s Hwf) as Hnd.
  rewrite Hm, side_orders_app, side_orders_cons in Hnd. unfold ids in Hnd.
  rewrite !fmap_app in Hnd. apply NoDup_app in Hnd as (_ & _ & Hnd).
  apply NoDup_app in Hnd as (Hnd & _ & _). csimpl in Hnd.
  apply NoDup_app in Hnd as (_ & Hq1 & Hnd). apply NoDup_cons in Hnd as [Hq2 _].
  unfold level. rewrite Hmap, Hm, !find_app.
  rewrite (find_not_key _ _ Hn), find_cons_eq, find_level_entry_eq. simpl.
  rewrite filter_app, filter_cons_False by (intros Hf; by apply Hf).
  rewrite !filter_all.
  - destruct (q1 ++ q2) eqn:E; [|done]. by rewrite (find_not_key _ _ Hn2).
  - intros y Hy Hf. apply Hq2. rewrite Hid, <- Hf. by apply list_elem_of_fmap_2.
  - intros y Hy Hf. apply (Hq1 (Order.GetOrderId y)); [by apply list_elem_of_fmap_2 |].
    rewrite Hf, <- Hid. left.
Qed.

Lemma CancelOrder_cannot_cross sd p s i s' :
  book_wf s → Orderbook.CancelOrder i s = Ok s' →
  cannot_cross sd p s → cannot_cross sd p s'.
Proof.
  intros Hwf Hc Hcc. pose proof (CancelOrder_wf _ _ _ Hwf Hc) as Hwf'.
  rewrite cannot_cross_all in Hcc |- * by done.
  intros k Hk. apply Hcc. by apply (CancelOrder_keys _ _ _ _ Hwf Hc).
Qed.

Lemma CancelOrder_Size s i o s' :
  book_wf s → Orderbook.orders_ s !! i = Some o →
  Orderbook.CancelOrder i s = Ok s' →
  Orderbook.Size s = S (Orderbook.Size s').
Proof.
  intros Hwf Hi Hc. unfold Orderbook.Size.
  rewrite (CancelOrder_index _ _ _ Hwf Hc).
  pose proof (map_size_delete i (Orderbook.orders_ s)) as Hsz.
  rewrite Hi in Hsz. simpl in Hsz.
  assert (size (Orderbook.orders_ s) ≠ 0%nat).
  { intros H0. apply map_size_empty_inv in H0. by rewrite H0, lookup_empty in Hi. }
  lia.
Qed.

(* ===================================================================== *)
(** ** Further facts: a submission is matched as far as its limit *)

Lemma sweep_keys sd0 s s' :
  book_wf s → Orderbook.sweep (side_map sd0 s) s = Ok s' →
  ∀ sd, (side_map sd s').*1 ⊆ (side_map sd s).*1.
Proof.
  intros Hwf Hs sd.
  destruct (sweep_cases _ _ _ Hs) as [->|(f & _ & _ & Hc)]; [done |].
  by eapply CancelOrder_keys.
Qed.

Lemma insert_elem o s :
  book_wf s → Orderbook.orders_ s !! Order.GetOrderId o = None →
  o ∈ side_orders (side_map (Order.GetSide o) (Orderbook.insert o s)).
Proof.
  intros Hwf Hnone. apply book_wf_elem_side; [by apply insert_wf |].
  split; [|done]. rewrite (insert_perm o s Hwf). left.
Qed.

Lemma AddOrder_limit o s ts s' :
  book_inv s → Orderbook.orders_ s !! Order.GetOrderId o = None →
  Orderbook.AddOrder o s = Ok (ts, s') →
  (filled_on (Order.GetSide o) (Order.GetOrderId o) ts
   ≤ Order.GetRemainingQuantity o)%N
  ∧ (filled_on (Order.GetSide o) (Order.GetOrderId o) ts
     = Order.GetRemainingQuantity o
     ∨ cannot_cross (Order.GetSide o) (Order.GetPrice o) s').
Proof.
  intros (Hwf & Hu & Hg) Hnone Ha.
  destruct (Orderbook.CanMatch (Order.GetSide o) (Order.GetPrice o) s) eqn:Hcm,
           (Order.GetOrderType o) eqn:Hty.
  4:{ (* a fill-and-kill order that cannot cross is turned away *)
      unfold Orderbook.AddOrder in Ha.
      rewrite bool_decide_eq_false_2 in Ha by (rewrite Hnone; by intros [? ?]).
      rewrite Hty, Hcm in Ha. simpl in Ha. injection Ha as <- <-.
      split; [simpl; lia |]. right. by apply cannot_cross_CanMatch. }
  all: rewrite AddOrder_fresh in Ha by (done || by rewrite Hty).
  all: pose proof (insert_wf o s Hnone Hwf) as Hwfi.
  all: destruct (MatchOrders_run _ Hwfi)
         as (s1 & ts1 & s2 & s3 & Hm & Hwf1 & Hu1 & Hs2 & Hs3 & Hrun & Hwf3 & _).
  all: pose proof (sweep_wf _ _ _ Hwf1 Hs2) as Hwf2.
  all: pose proof (sweep_keys Buy _ _ Hwf1 Hs2 (other (Order.GetSide o))) as Hk2.
  all: pose proof (sweep_keys Sell _ _ Hwf2 Hs3 (other (Order.GetSide o))) as Hk3.
  all: rewrite Hrun in Ha; injection Ha as -> ->.
  all: destruct (matching_account (Order.GetSide o) _ _ _ Hm Hwfi o
                   (insert_elem o s Hwf Hnone))
         as [(o' & Ho' & Hf & Hacc)|[_ Hacc]]; [|split; [lia | by left]].
  all: split; [lia | right].
  all: apply cannot_cross_all; [done |]; intros k Hk.
  all: apply Hk3, Hk2 in Hk.
  all: pose proof (uncrossed_all s1 Hwf1 Hu1) as Hall.
  all: rewrite all_uncrossed_sides in Hall.
  all: apply Hall; [|done].
  all: destruct Hf as (_ & _ & _ & <- & _).
  all: apply (side_orders_key (Order.GetSide o));
         [by apply book_wf_side | by apply book_wf_side_NoDup | done].
Qed.

(** A submission brings no identifier but its own into the book. *)
Lemma AddOrder_ids o s ts s' :
  book_inv s → Orderbook.AddOrder o s = Ok (ts, s') →
  ∀ i, i ∈ ids (book_orders s') →
       i = Order.GetOrderId o ∨ i ∈ ids (book_orders s).
Proof.
  intros (Hwf & Hu & Hg) Ha i Hi.
  destruct (AddOrder_cases o s) as [H|(Hnone & _ & H)]; rewrite H in Ha.
  { injection Ha as <- <-. by right. }
  pose proof (insert_wf o s Hnone Hwf) as Hwfi.
  assert (Hin : i ∈ ids (book_orders (Orderbook.insert o s))).
  { unfold book_orders, ids in *. rewrite fmap_app, elem_of_app in *.
    destruct Hi as [Hi|Hi]; [left | right].
    - by apply (MatchOrders_account _ _ _ Hwfi Ha Buy).
    - by apply (MatchOrders_account _ _ _ Hwfi Ha Sell). }
  unfold ids in Hin. rewrite (insert_perm o s Hwf) in Hin. csimpl in Hin.
  by apply elem_of_cons in Hin.
Qed.

Lemma AddOrder_fill_and_kill o s ts s' :
  book_inv s → Order.GetOrderType o = FillandKill →
  Orderbook.orders_ s !! Order.GetOrderId o = None →
  Orderbook.AddOrder o s = Ok (ts, s') →
  Orderbook.orders_ s' !! Order.GetOrderId o = None
  ∧ (Orderbook.Size s' ≤ Orderbook.Size s)%nat.
Proof.
  intros Hinv Hty Hnone Ha. pose proof Hinv as (Hwf & _ & _).
  destruct (AddOrder_inv o s Hinv) as (ts0 & s0 & Ha0 & Hinv').
  rewrite Ha in Ha0. injection Ha0 as <- <-.
  pose proof Hinv' as (Hwf' & _ & Hg').
  assert (Hgone : Orderbook.orders_ s' !! Order.GetOrderId o = None).
  { destruct (Orderbook.orders_ s' !! Order.GetOrderId o) as [y|] eqn:Hy; [|done].
    exfalso. pose proof Hwf' as (_ & _ & _ & Hix'). apply Hix' in Hy as [Hy Hid].
    set (P := λ x : Order.t, Order.GetOrderId x = Order.GetOrderId o →
                Order.GetOrderType x = FillandKill).
    assert (HP : Forall P (book_orders s')).
    { apply (AddOrder_kept P) with (o := o) (s := s) (ts := ts); try done.
      - intros _. exact Hty.
      - apply Forall_forall. intros x Hx Hidx. exfalso.
        destruct Hwf as (_ & _ & Hcons).
        pose proof (consistent_lookup _ _ _ Hcons Hx) as Hl.
        rewrite Hidx, Hnone in Hl. done. }
    rewrite Forall_forall in HP, Hg'.
    specialize (HP y Hy Hid). specialize (Hg' y Hy). unfold is_gtc in Hg'. congruence. }
  split; [done |]. rewrite !Size_length by done.
  rewrite <- (length_fmap Order.GetOrderId (book_orders s')).
  rewrite <- (length_fmap Order.GetOrderId (book_orders s)).
  apply submseteq_length, NoDup_submseteq.
  - by destruct Hwf' as (_ & _ & ? & _).
  - intros i Hi. destruct (AddOrder_ids o s ts s' Hinv Ha i Hi) as [->|H]; [|done].
    exfalso. apply list_elem_of_fmap in Hi as (y & Hid & Hy).
    destruct Hwf' as (_ & _ & Hcons').
    pose proof (consistent_lookup _ _ _ Hcons' Hy) as Hl.
    rewrite <- Hid, Hgone in Hl. done.
Qed.

(* ===================================================================== *)
(** ** Further facts: quantities within [Quantity] *)

Lemma GetFilledQuantity_in_range o :
  (Order.GetRemainingQuantity o ≤ Order.GetInitialQuantity o)%N →
  (Order.GetInitialQuantity o < 2 ^ 32)%N →
  Order.GetFilledQuantity o
  = (Order.GetInitialQuantity o - Order.GetRemainingQuantity o)%N.
Proof.
  intros Hle Hlt. unfold Order.GetFilledQuantity, Quantity_wrap.
  replace (Order.GetInitialQuantity o + 2 ^ 32 - Order.GetRemainingQuantity o)%N
    with (Order.GetInitialQuantity o - Order.GetRemainingQuantity o + 1 * 2 ^ 32)%N
    by lia.
  rewrite N.Div0.mod_add. apply N.mod_small. lia.
Qed.

Lemma in_range_fill quantity o :
  (Order.GetRemainingQuantity o ≤ Order.GetInitialQuantity o
   ∧ Order.GetInitialQuantity o < 2 ^ 32)%N →
  Order.IsFilled (filled_by quantity o) = false →
  (Order.GetRemainingQuantity (filled_by quantity o)
   ≤ Order.GetInitialQuantity (filled_by quantity o)
   ∧ Order.GetInitialQuantity (filled_by quantity o) < 2 ^ 32)%N.
Proof.
  intros [H1 H2] _. unfold filled_by, Order.GetRemainingQuantity,
    Order.GetInitialQuantity in *. simpl. lia.
Qed.

Lemma quantity_in_range_submits op :
  quantity_in_range op →
  op_submits (λ o, (Order.GetRemainingQuantity o ≤ Order.GetInitialQuantity o
                    ∧ Order.GetInitialQuantity o < 2 ^ 32)%N) op.
Proof.
  destruct op as [ty i sd p q|i|i sd p q]; simpl; [|done |];
    unfold Order.GetRemainingQuantity, Order.GetInitialQuantity; simpl; intros; lia.
Qed.

(* ===================================================================== *)
(** ** Further facts: the two orders of a trade *)

(** Each trade of a matching run is between two orders that have every
    property the fills keep, the bid priced at or above the ask. *)
Lemma matching_trade_orders (P : Order.t → Prop) s ts s' t :
  (∀ quantity o, P o → Order.IsFilled (filled_by quantity o) = false →
                 P (filled_by quantity o)) →
  matching s ts s' → book_wf s → Forall P (book_orders s) → t ∈ ts →
  ∃ bid ask,
    P bid ∧ P ask ∧ Order.GetPrice ask ≤ Order.GetPrice bid
    ∧ t = trade_of bid ask
            (N.min (Order.GetRemainingQuantity bid) (Order.GetRemainingQuantity ask)).
Proof.
  intros P_fill Hm Hwf HP Ht.
  apply list_elem_of_split in Ht as (pre & post & Heq).
  destruct (matching_split _ _ _ Hm pre t post Heq)
    as (mid & bp & bid & bids & rb & ap & ask & asks & ra & Hpre & Hb & Ha & Hle & ->).
  pose proof (matching_wf _ _ _ Hpre Hwf) as Hwfm.
  pose proof (matching_kept P P_fill _ _ _ Hpre HP) as HPm.
  destruct (front_price Buy mid _ _ _ _ Hwfm Hb) as (Hpb & _ & _).
  destruct (front_price Sell mid _ _ _ _ Hwfm Ha) as (Hpa & _ & _).
  rewrite Forall_forall in HPm. exists bid, ask.
  split; [|split; [|split; [lia | done]]]; apply HPm; unfold book_orders;
    rewrite Hb, Ha, !side_orders_cons, elem_of_app; [left | right]; left.
Qed.

Lemma AddOrder_within_limit o s ts s' t :
  book_inv s → Orderbook.AddOrder o s = Ok (ts, s') → t ∈ ts →
  TradeInfo.price_ (side_trade (Order.GetSide o) t) = Order.GetPrice o
  ∧ TradeInfo.price_ (Trade.GetAskTrade t) ≤ TradeInfo.price_ (Trade.GetBidTrade t).
Proof.
  intros Hinv Ha Ht. pose proof (AddOrder_incoming o s ts s' Hinv Ha t Ht) as Hid.
  destruct Hinv as (Hwf & Hu & Hg).
  destruct (AddOrder_cases o s) as [H|(Hnone & _ & H)]; rewrite H in Ha.
  { injection Ha as <- <-. by apply elem_of_nil in Ht. }
  pose proof (insert_wf o s Hnone Hwf) as Hwfi.
  destruct (MatchOrders_run _ Hwfi)
    as (s1 & ts1 & s2 & s3 & Hm & _ & _ & _ & _ & Hrun & _).
  rewrite Hrun in Ha. injection Ha as -> ->.
  set (P := λ x : Order.t, Order.GetOrderId x = Order.GetOrderId o →
              Order.GetPrice x = Order.GetPrice o).
  assert (P_fill : ∀ quantity x, P x → Order.IsFilled (filled_by quantity x) = false →
                     P (filled_by quantity x)) by (intros quantity x Hx _; exact Hx).
  assert (HP : Forall P (book_orders (Orderbook.insert o s))).
  { apply Forall_forall. intros x Hx Hidx.
    rewrite (insert_perm o s Hwf) in Hx. apply elem_of_cons in Hx as [->|Hx]; [done |].
    exfalso. destruct Hwf as (_ & _ & Hcons).
    pose proof (consistent_lookup _ _ _ Hcons Hx) as Hl.
    rewrite Hidx, Hnone in Hl. done. }
  destruct (matching_trade_orders P _ _ _ t P_fill Hm Hwfi HP Ht)
    as (bid & ask & Hbid & Hask & Hle & ->).
  split; [|done].
  destruct (Order.GetSide o); simpl in *; [by apply Hbid | by apply Hask].
Qed.

Lemma AddOrder_positive_trades o s ts s' t :
  book_inv s →
  Forall (λ x, Order.GetRemainingQuantity x ≠ 0%N) (book_orders s) →
  Order.GetRemainingQuantity o ≠ 0%N →
  Orderbook.AddOrder o s = Ok (ts, s') → t ∈ ts →
  (0 < TradeInfo.quantity_ (Trade.GetBidTrade t))%N
  ∧ TradeInfo.quantity_ (Trade.GetAskTrade t) = TradeInfo.quantity_ (Trade.GetBidTrade t).
Proof.
  intros (Hwf & Hu & Hg) HP Ho Ha Ht.
  destruct (AddOrder_cases o s) as [H|(Hnone & _ & H)]; rewrite H in Ha.
  { injection Ha as <- <-. by apply elem_of_nil in Ht. }
  pose proof (insert_wf o s Hnone Hwf) as Hwfi.
  destruct (MatchOrders_run _ Hwfi)
    as (s1 & ts1 & s2 & s3 & Hm & _ & _ & _ & _ & Hrun & _).
  rewrite Hrun in Ha. injection Ha as -> ->.
  assert (HPi : Forall (λ x, Order.GetRemainingQuantity x ≠ 0%N)
                  (book_orders (Orderbook.insert o s))) by (by apply insert_kept).
  destruct (matching_trade_orders _ _ _ _ t positive_fill Hm Hwfi HPi Ht)
    as (bid & ask & Hbid & Hask & _ & ->).
  simpl. split; [lia | done].
Qed.

(* ===================================================================== *)
(** * Further properties of the book *)

Lemma run_ops_spread : run ops_spread Orderbook.init = Ok book_spread.
Proof. vm_compute. reflexivity. Qed.

Lemma run_ops_levels : run ops_levels Orderbook.init = Ok book_levels.
Proof. vm_compute. reflexivity. Qed.

Lemma sell_book_hit :
  Orderbook.AddOrder (Order.new GoodTillCancel 2 Sell 100 4) book_hit
  = Ok (trades_hit_sold, book_hit_sold).
Proof. vm_compute. reflexivity. Qed.

Lemma sell_book_levels :
  Orderbook.AddOrder (Order.new GoodTillCancel 3 Sell 100 8) book_levels
  = Ok (trades_levels_sold, book_levels_sold).
Proof. vm_compute. reflexivity. Qed.

(* ===================================================================== *)
(** ** The shape of a reachable book *)

(** X1: in every reachable state the levels of each side are in strict
    priority order of their prices (bids descending, asks ascending), no
    level is empty, and every order of a level has the side and the price
    of the level. *)
Theorem levels_ordered_and_uniform (s : Orderbook.t) (sd : Side) :
  reachable s →
  StronglySorted (before sd) ((side_map sd s).*1)
  ∧ ∀ price queue, level sd price s = Some queue →
      queue ≠ []
      ∧ Forall (λ o, Order.GetSide o = sd ∧ Order.GetPrice o = price) queue.
Proof.
  intros Hr. destruct (reachable_inv s Hr) as (Hwf & _).
  destruct (book_wf_side sd s Hwf) as [Hs Hl]. split; [done |].
  intros p q Hlv. unfold level in Hlv. apply find_Some_elem in Hlv.
  rewrite Forall_forall in Hl. apply (Hl _ Hlv).
Qed.

Lemma levels_ordered_and_uniform_witness :
  StronglySorted (before Buy) ((side_map Buy book_levels).*1)
  ∧ ∀ price queue, level Buy price book_levels = Some queue →
      queue ≠ []
      ∧ Forall (λ o, Order.GetSide o = Buy ∧ Order.GetPrice o = price) queue.
Proof.
  apply (levels_ordered_and_uniform book_levels Buy).
  exists ops_levels. vm_compute. reflexivity.
Defined.

(** X2: in every reachable state the index and the queues hold the same
    orders: no identifier is queued twice, an identifier is in the index
    with an order exactly when that order is queued, and [Size] is the
    number of queued orders. *)
Theorem index_matches_queues (s : Orderbook.t) :
  reachable s →
  NoDup (ids (book_orders s))
  ∧ (∀ i o, Orderbook.orders_ s !! i = Some o
            ↔ o ∈ book_orders s ∧ Order.GetOrderId o = i)
  ∧ Orderbook.Size s = length (book_orders s).
Proof.
  intros Hr. destruct (reachable_inv s Hr) as (Hwf & _).
  pose proof Hwf as (_ & _ & Hnd & Hix).
  split; [done |]. split; [done |]. by apply Size_length.
Qed.

Lemma index_matches_queues_witness :
  NoDup (ids (book_orders book_spread))
  ∧ (∀ i o, Orderbook.orders_ book_spread !! i = Some o
            ↔ o ∈ book_orders book_spread ∧ Order.GetOrderId o = i)
  ∧ Orderbook.Size book_spread = length (book_orders book_spread).
Proof.
  apply (index_matches_queues book_spread).
  exists ops_spread. vm_compute. reflexivity.
Defined.

(** X3: a reachable book is never crossed: every bid price is below every
    ask price. *)
Theorem book_never_crossed (s : Orderbook.t) (bidPrice askPrice : Price) :
  reachable s →
  bidPrice ∈ (Orderbook.bids_ s).*1 → askPrice ∈ (Orderbook.asks_ s).*1 →
  bidPrice < askPrice.
Proof.
  intros Hr. destruct (reachable_inv s Hr) as (Hwf & Hu & _).
  apply (uncrossed_all s Hwf Hu).
Qed.

Lemma book_never_crossed_witness :
  reachable book_spread
  ∧ 100 ∈ (Orderbook.bids_ book_spread).*1
  ∧ 102 ∈ (Orderbook.asks_ book_spread).*1
  ∧ 100 < 102.
Proof.
  assert (Hr : reachable book_spread) by (exists ops_spread; vm_compute; reflexivity).
  assert (Hb : 100 ∈ (Orderbook.bids_ book_spread).*1) by (simpl; left).
  assert (Ha : 102 ∈ (Orderbook.asks_ book_spread).*1) by (simpl; left).
  split; [exact Hr |]. split; [exact Hb |]. split; [exact Ha |].
  exact (book_never_crossed book_spread 100 102 Hr Hb Ha).
Defined.

(** X4: on a reachable book the matching procedure finds nothing to do:
    [MatchOrders] returns no trade and the state as it was. *)
Theorem matching_at_rest_changes_nothing (s : Orderbook.t) :
  reachable s → Orderbook.MatchOrders s = Ok ([], s).
Proof.
  intros Hr. destruct (reachable_inv s Hr) as (_ & Hu & Hg).
  by apply MatchOrders_quiet.
Qed.

Lemma matching_at_rest_changes_nothing_witness :
  Orderbook.MatchOrders book_spread = Ok ([], book_spread).
Proof.
  apply (matching_at_rest_changes_nothing book_spread).
  exists ops_spread. vm_compute. reflexivity.
Defined.

(* ===================================================================== *)
(** ** Submissions *)

(** X5: a submission under an identifier that is not live returns trades
    exactly when [CanMatch] holds for its side and price. *)
Theorem trades_iff_crossing (s : Orderbook.t) (o : Order.t)
    (trades : list Trade.t) (s' : Orderbook.t) :
  reachable s →
  Orderbook.orders_ s !! Order.GetOrderId o = None →
  Orderbook.AddOrder o s = Ok (trades, s') →
  trades ≠ [] ↔ Orderbook.CanMatch (Order.GetSide o) (Order.GetPrice o) s = true.
Proof.
  intros Hr Hnone Ha. pose proof (reachable_inv s Hr) as Hinv.
  split.
  - intros Hts.
    destruct (Orderbook.CanMatch (Order.GetSide o) (Order.GetPrice o) s) eqn:Hcm;
      [done |].
    exfalso. apply Hts. destruct (Order.GetOrderType o) eqn:Hty.
    + rewrite (AddOrder_rests o s Hinv Hty Hnone Hcm) in Ha. by injection Ha as <- _.
    + unfold Orderbook.AddOrder in Ha.
      rewrite bool_decide_eq_false_2 in Ha by (rewrite Hnone; by intros [? ?]).
      rewrite Hty, Hcm in Ha. simpl in Ha. by injection Ha as <- _.
  - intros Hcm. by eapply AddOrder_crossing_trades.
Qed.

Lemma trades_iff_crossing_witness :
  trades_hit_sold ≠ [] ↔ Orderbook.CanMatch Sell 100 book_hit = true.
Proof.
  apply (trades_iff_crossing book_hit (Order.new GoodTillCancel 2 Sell 100 4)
           trades_hit_sold book_hit_sold).
  - exists ops_hit. vm_compute. reflexivity.
  - vm_compute. reflexivity.
  - vm_compute. reflexivity.
Defined.

(** X6: a good-till-cancel order under an identifier that is not live and
    at a price that cannot cross is accepted without a trade and rests at
    the tail of the queue of its price on its side (a new level when there
    was none); the other levels stay as they were, the index gains the
    order under its identifier and [Size] grows by one. *)
Theorem resting_order_joins_tail (s : Orderbook.t) (o : Order.t) :
  reachable s →
  Order.GetOrderType o = GoodTillCancel →
  Orderbook.orders_ s !! Order.GetOrderId o = None →
  cannot_cross (Order.GetSide o) (Order.GetPrice o) s →
  ∃ s',
    Orderbook.AddOrder o s = Ok ([], s')
    ∧ level (Order.GetSide o) (Order.GetPrice o) s'
      = Some (default [] (level (Order.GetSide o) (Order.GetPrice o) s) ++ [o])
    ∧ (∀ sd price, ¬ (Order.GetSide o = sd ∧ Order.GetPrice o = price) →
                   level sd price s' = level sd price s)
    ∧ Orderbook.orders_ s' = <[Order.GetOrderId o := o]> (Orderbook.orders_ s)
    ∧ Orderbook.Size s' = S (Orderbook.Size s).
Proof.
  intros Hr Hty Hnone Hcc. pose proof (reachable_inv s Hr) as Hinv.
  pose proof Hinv as (Hwf & _). apply cannot_cross_CanMatch in Hcc.
  exists (Orderbook.insert o s). split; [by apply AddOrder_rests |].
  split; [|split; [|split]].
  - rewrite insert_level by done. by rewrite decide_True.
  - intros sd p Hne. rewrite insert_level by done. by rewrite decide_False.
  - rewrite insert_index. unfold Orderbook.index_insert. by rewrite Hnone.
  - by apply Size_insert.
Qed.

Lemma resting_order_joins_tail_witness :
  ∃ s',
    Orderbook.AddOrder (Order.new GoodTillCancel 2 Buy 100 3) book_hit = Ok ([], s')
    ∧ level Buy 100 s'
      = Some (default [] (level Buy 100 book_hit)
              ++ [Order.new GoodTillCancel 2 Buy 100 3])
    ∧ (∀ sd price, ¬ (Buy = sd ∧ 100 = price) →
                   level sd price s' = level sd price book_hit)
    ∧ Orderbook.orders_ s'
      = <[2%N := Order.new GoodTillCancel 2 Buy 100 3]> (Orderbook.orders_ book_hit)
    ∧ Orderbook.Size s' = S (Orderbook.Size book_hit).
Proof.
  apply (resting_order_joins_tail book_hit (Order.new GoodTillCancel 2 Buy 100 3)).
  - exists ops_hit. vm_compute. reflexivity.
  - reflexivity.
  - vm_compute. reflexivity.
  - exact I.
Defined.

(** X7: submitting such an order and then cancelling its identifier gives
    back the state before the submission. *)
Theorem submit_then_cancel_restores (s : Orderbook.t) (o : Order.t) :
  reachable s →
  Order.GetOrderType o = GoodTillCancel →
  Orderbook.orders_ s !! Order.GetOrderId o = None →
  cannot_cross (Order.GetSide o) (Order.GetPrice o) s →
  ∃ s',
    Orderbook.AddOrder o s = Ok ([], s')
    ∧ Orderbook.CancelOrder (Order.GetOrderId o) s' = Ok s.
Proof.
  intros Hr Hty Hnone Hcc. pose proof (reachable_inv s Hr) as Hinv.
  pose proof Hinv as (Hwf & _). apply cannot_cross_CanMatch in Hcc.
  exists (Orderbook.insert o s). split; [by apply AddOrder_rests |].
  by apply cancel_insert.
Qed.

Lemma submit_then_cancel_restores_witness :
  ∃ s',
    Orderbook.AddOrder (Order.new GoodTillCancel 3 Sell 101 7) book_spread
    = Ok ([], s')
    ∧ Orderbook.CancelOrder 3 s' = Ok book_spread.
Proof.
  apply (submit_then_cancel_restores book_spread
           (Order.new GoodTillCancel 3 Sell 101 7)).
  - exists ops_spread. vm_compute. reflexivity.
  - reflexivity.
  - vm_compute. reflexivity.
  - vm_compute. reflexivity.
Defined.

(** X8: after the submission of a fill-and-kill order under an identifier
    that is not live, that identifier is not live, whatever part of the
    order was executed, and [Size] has not grown. *)
Theorem fill_and_kill_leaves_no_order (s : Orderbook.t) (o : Order.t)
    (trades : list Trade.t) (s' : Orderbook.t) :
  reachable s →
  Order.GetOrderType o = FillandKill →
  Orderbook.orders_ s !! Order.GetOrderId o = None →
  Orderbook.AddOrder o s = Ok (trades, s') →
  Orderbook.orders_ s' !! Order.GetOrderId o = None
  ∧ (Orderbook.Size s' ≤ Orderbook.Size s)%nat.
Proof.
  intros Hr Hty Hnone Ha.
  by apply (AddOrder_fill_and_kill o s trades s' (reachable_inv s Hr)).
Qed.

Lemma fill_and_kill_leaves_no_order_witness :
  Orderbook.orders_ book_spread_sold !! 3%N = None
  ∧ (Orderbook.Size book_spread_sold ≤ Orderbook.Size book_spread)%nat.
Proof.
  apply (fill_and_kill_leaves_no_order book_spread
           (Order.new FillandKill 3 Sell 100 9)
           trades_spread_sold book_spread_sold).
  - exists ops_spread. vm_compute. reflexivity.
  - reflexivity.
  - vm_compute. reflexivity.
  - vm_compute. reflexivity.
Defined.

(* ===================================================================== *)
(** ** What an operation does to the orders of the book *)

(** X9: an operation about one identifier changes the live order of
    another identifier by fills only: an order that is live after the
    operation was live before it, with the same type, side, price and
    initial quantity, and with at least the remaining quantity it has
    now. *)
Theorem other_orders_only_filled (s : Orderbook.t) (op : Op)
    (trades : list Trade.t) (s' : Orderbook.t) (i : OrderId) (x' : Order.t) :
  reachable s →
  step op s = Ok (trades, s') →
  op_id op ≠ i →
  Orderbook.orders_ s' !! i = Some x' →
  ∃ x, Orderbook.orders_ s !! i = Some x ∧ fills_of x x'.
Proof.
  intros Hr Hs Hne Hi. pose proof (reachable_inv s Hr) as Hinv.
  destruct (step_inv_Ok op s trades s' Hinv Hs) as (Hwf' & _).
  destruct Hinv as (Hwf & _).
  by apply (step_other_orders op s trades s' i x').
Qed.

Lemma other_orders_only_filled_witness :
  ∃ x, Orderbook.orders_ book_hit !! 1%N = Some x
       ∧ fills_of x (Order.mk GoodTillCancel 1 Buy 100 10 2).
Proof.
  apply (other_orders_only_filled book_hit (Submit GoodTillCancel 2 Sell 100 4)
           trades_hit_sold book_hit_sold 1 (Order.mk GoodTillCancel 1 Buy 100 10 2)).
  - exists ops_hit. vm_compute. reflexivity.
  - vm_compute. reflexivity.
  - discriminate.
  - vm_compute. reflexivity.
Defined.

(** X10: a submission creates no quantity: the remaining quantities of
    the book after it, plus twice the executed quantities of its trades
    (each trade takes its quantity from a bid and from an ask), are at
    most the remaining quantities of the book before it plus the quantity
    of the order; they are equal for a good-till-cancel order under an
    identifier that is not live. *)
Theorem quantity_conserved (s : Orderbook.t) (o : Order.t)
    (trades : list Trade.t) (s' : Orderbook.t) :
  reachable s →
  Orderbook.AddOrder o s = Ok (trades, s') →
  (total_remaining (book_orders s') + 2 * trades_quantity trades
   ≤ total_remaining (book_orders s) + Order.GetRemainingQuantity o)%N
  ∧ (Order.GetOrderType o = GoodTillCancel →
     Orderbook.orders_ s !! Order.GetOrderId o = None →
     (total_remaining (book_orders s') + 2 * trades_quantity trades
      = total_remaining (book_orders s) + Order.GetRemainingQuantity o)%N).
Proof.
  intros Hr Ha. by apply (AddOrder_total o s trades s' (reachable_inv s Hr)).
Qed.

Lemma quantity_conserved_witness :
  (total_remaining (book_orders book_levels_sold)
   + 2 * trades_quantity trades_levels_sold
   ≤ total_remaining (book_orders book_levels) + 8)%N
  ∧ (GoodTillCancel = GoodTillCancel →
     Orderbook.orders_ book_levels !! 3%N = None →
     (total_remaining (book_orders book_levels_sold)
      + 2 * trades_quantity trades_levels_sold
      = total_remaining (book_orders book_levels) + 8)%N).
Proof.
  apply (quantity_conserved book_levels (Order.new GoodTillCancel 3 Sell 100 8)
           trades_levels_sold book_levels_sold).
  - exists ops_levels. vm_compute. reflexivity.
  - vm_compute. reflexivity.
Defined.

(** X11: a submission takes from a resting order what its trades record
    on it, and no more than it had: when the order is still live after
    the submission, its remaining quantity plus the quantities of the
    trades on it is its remaining quantity before; when it is no longer
    live, the trades on it add up to its whole remaining quantity. *)
Theorem resting_order_accounted (s : Orderbook.t) (o : Order.t)
    (trades : list Trade.t) (s' : Orderbook.t) (i : OrderId) (x : Order.t) :
  reachable s →
  Orderbook.AddOrder o s = Ok (trades, s') →
  Orderbook.orders_ s !! i = Some x →
  match Orderbook.orders_ s' !! i with
  | Some x' =>
      fills_of x x'
      ∧ (Order.GetRemainingQuantity x' + filled_on (Order.GetSide x) i trades
         = Order.GetRemainingQuantity x)%N
  | None => filled_on (Order.GetSide x) i trades = Order.GetRemainingQuantity x
  end.
Proof.
  intros Hr Ha Hi. by apply (AddOrder_account o s trades s' i x (reachable_inv s Hr)).
Qed.

Lemma resting_order_accounted_witness :
  filled_on Buy 2 trades_levels_sold = 5%N
  ∧ match Orderbook.orders_ book_levels_sold !! 1%N with
    | Some x' =>
        fills_of (Order.mk GoodTillCancel 1 Buy 100 5 5) x'
        ∧ (Order.GetRemainingQuantity x' + filled_on Buy 1 trades_levels_sold = 5)%N
    | None => filled_on Buy 1 trades_levels_sold = 5%N
    end.
Proof.
  split.
  - apply (resting_order_accounted book_levels (Order.new GoodTillCancel 3 Sell 100 8)
             trades_levels_sold book_levels_sold 2
             (Order.mk GoodTillCancel 2 Buy 101 5 5)).
    + exists ops_levels. vm_compute. reflexivity.
    + vm_compute. reflexivity.
    + vm_compute. reflexivity.
  - apply (resting_order_accounted book_levels (Order.new GoodTillCancel 3 Sell 100 8)
             trades_levels_sold book_levels_sold 1
             (Order.mk GoodTillCancel 1 Buy 100 5 5)).
    + exists ops_levels. vm_compute. reflexivity.
    + vm_compute. reflexivity.
    + vm_compute. reflexivity.
Defined.

(** X12: every trade of a submission is with the submitted order: on the
    side of the order, each trade carries its identifier. *)
Theorem trades_are_with_incoming (s : Orderbook.t) (o : Order.t)
    (trades : list Trade.t) (s' : Orderbook.t) (t : Trade.t) :
  reachable s →
  Orderbook.AddOrder o s = Ok (trades, s') →
  t ∈ trades →
  TradeInfo.orderId_ (side_trade (Order.GetSide o) t) = Order.GetOrderId o.
Proof.
  intros Hr Ha Ht. by apply (AddOrder_incoming o s trades s' (reachable_inv s Hr)).
Qed.

Lemma trades_are_with_incoming_witness :
  TradeInfo.orderId_
    (side_trade Sell (Trade.mk (TradeInfo.mk 1 100 3) (TradeInfo.mk 3 100 3)))
  = 3%N.
Proof.
  apply (trades_are_with_incoming book_levels (Order.new GoodTillCancel 3 Sell 100 8)
           trades_levels_sold book_levels_sold).
  - exists ops_levels. vm_compute. reflexivity.
  - vm_compute. reflexivity.
  - unfold trades_levels_sold. right. left.
Defined.

(** X13: a submission under an identifier that is not live is executed
    as far as its limit price allows: its trades never take more than its
    quantity, and either they take all of it, or the book it leaves has no
    opposite level within its limit. *)
Theorem submission_filled_to_limit (s : Orderbook.t) (o : Order.t)
    (trades : list Trade.t) (s' : Orderbook.t) :
  reachable s →
  Orderbook.orders_ s !! Order.GetOrderId o = None →
  Orderbook.AddOrder o s = Ok (trades, s') →
  (filled_on (Order.GetSide o) (Order.GetOrderId o) trades
   ≤ Order.GetRemainingQuantity o)%N
  ∧ (filled_on (Order.GetSide o) (Order.GetOrderId o) trades
     = Order.GetRemainingQuantity o
     ∨ cannot_cross (Order.GetSide o) (Order.GetPrice o) s').
Proof.
  intros Hr Hnone Ha. by apply (AddOrder_limit o s trades s' (reachable_inv s Hr)).
Qed.

Lemma submission_filled_to_limit_witness :
  (filled_on Sell 3 trades_spread_sold ≤ 9)%N
  ∧ (filled_on Sell 3 trades_spread_sold = 9%N
     ∨ cannot_cross Sell 100 book_spread_sold).
Proof.
  apply (submission_filled_to_limit book_spread (Order.new FillandKill 3 Sell 100 9)
           trades_spread_sold book_spread_sold).
  - exists ops_spread. vm_compute. reflexivity.
  - vm_compute. reflexivity.
  - vm_compute. reflexivity.
Defined.

(** X14: price priority: of two live orders of one side, the one at the
    better price (higher for bids, lower for asks) is executed first: in
    the trades of a submission, a trade on the order at the worse price
    comes only after trades that take the whole remaining quantity of the
    order at the better price. *)
Theorem better_price_fills_first (s : Orderbook.t) (o : Order.t)
    (trades : list Trade.t) (s' : Orderbook.t) (a b : Order.t)
    (pre : list Trade.t) (t : Trade.t) (post : list Trade.t) :
  reachable s →
  Orderbook.orders_ s !! Order.GetOrderId a = Some a →
  Orderbook.orders_ s !! Order.GetOrderId b = Some b →
  Order.GetSide b = Order.GetSide a →
  before (Order.GetSide a) (Order.GetPrice a) (Order.GetPrice b) →
  Orderbook.AddOrder o s = Ok (trades, s') →
  trades = pre ++ t :: post →
  TradeInfo.orderId_ (side_trade (Order.GetSide a) t) = Order.GetOrderId b →
  filled_on (Order.GetSide a) (Order.GetOrderId a) pre = Order.GetRemainingQuantity a.
Proof.
  intros Hr Hia Hib Hside Hlt Hadd Heq Hid.
  destruct (reachable_inv s Hr) as (Hwf & _ & _).
  destruct (AddOrder_cases o s) as [H|(Hnone & _ & H)]; rewrite H in Hadd.
  { injection Hadd as <- _. by destruct pre. }
  pose proof (insert_wf o s Hnone Hwf) as Hwfi.
  destruct (MatchOrders_run _ Hwfi)
    as (s1 & ts1 & s2 & s3 & Hm & _ & _ & _ & _ & Hrun & _).
  rewrite Hrun in Hadd. injection Hadd as -> _.
  pose proof Hwf as (_ & _ & _ & Hix).
  apply Hix in Hia as [Hina _]. apply Hix in Hib as [Hinb _].
  assert (Ha : a ∈ side_orders (side_map (Order.GetSide a) (Orderbook.insert o s))).
  { apply book_wf_elem_side; [done |]. split; [|done].
    rewrite (insert_perm o s Hwf). by right. }
  assert (Hb : b ∈ side_orders (side_map (Order.GetSide a) (Orderbook.insert o s))).
  { apply book_wf_elem_side; [done |]. split; [|done].
    rewrite (insert_perm o s Hwf). by right. }
  destruct (side_wf_price_order (Order.GetSide a) _ a b
              (book_wf_side _ _ Hwfi) (book_wf_side_NoDup _ _ Hwfi) Ha Hb Hlt)
    as (l1 & l2 & l3 & Hso).
  by apply (matching_sequence (Order.GetSide a) _ _ _ Hm Hwfi l1 a l2 b l3 pre t post).
Qed.

Lemma better_price_fills_first_witness :
  filled_on Buy 2 [Trade.mk (TradeInfo.mk 2 101 5) (TradeInfo.mk 3 100 5)] = 5%N.
Proof.
  apply (better_price_fills_first book_levels (Order.new GoodTillCancel 3 Sell 100 8)
           trades_levels_sold book_levels_sold
           (Order.mk GoodTillCancel 2 Buy 101 5 5)
           (Order.mk GoodTillCancel 1 Buy 100 5 5)
           [Trade.mk (TradeInfo.mk 2 101 5) (TradeInfo.mk 3 100 5)]
           (Trade.mk (TradeInfo.mk 1 100 3) (TradeInfo.mk 3 100 3)) []).
  - exists ops_levels. vm_compute. reflexivity.
  - vm_compute. reflexivity.
  - vm_compute. reflexivity.
  - reflexivity.
  - vm_compute. reflexivity.
  - vm_compute. reflexivity.
  - reflexivity.
  - reflexivity.
Defined.

(* ===================================================================== *)
(** ** Quantities *)

(** X15: when every submitted or modified quantity is a 32-bit value,
    every live order has a remaining quantity that is at most its initial
    quantity, and [GetFilledQuantity] is their difference: no wrap-around
    occurs in its subtraction. *)
Theorem quantities_in_range (ops : list Op) (s : Orderbook.t)
    (i : OrderId) (o : Order.t) :
  Forall quantity_in_range ops →
  run ops Orderbook.init = Ok s →
  Orderbook.orders_ s !! i = Some o →
  (Order.GetRemainingQuantity o ≤ Order.GetInitialQuantity o)%N
  ∧ (Order.GetInitialQuantity o < 2 ^ 32)%N
  ∧ (Order.GetFilledQuantity o + Order.GetRemainingQuantity o
     = Order.GetInitialQuantity o)%N.
Proof.
  intros Hops Hrun Hi.
  set (P := λ o : Order.t,
         (Order.GetRemainingQuantity o ≤ Order.GetInitialQuantity o
          ∧ Order.GetInitialQuantity o < 2 ^ 32)%N).
  assert (HP : Forall P (book_orders s)).
  { apply (run_kept P in_range_fill ops Orderbook.init s init_inv); [|done | constructor].
    eapply Forall_impl; [exact Hops |]. apply quantity_in_range_submits. }
  destruct (run_inv ops _ _ init_inv Hrun) as ((_ & _ & _ & Hix) & _).
  apply Hix in Hi as [Hin _]. rewrite Forall_forall in HP.
  destruct (HP o Hin) as [H1 H2]. split; [done |]. split; [done |].
  rewrite GetFilledQuantity_in_range by done. lia.
Qed.

Lemma quantities_in_range_witness :
  (6 ≤ 10)%N ∧ (10 < 2 ^ 32)%N
  ∧ (Order.GetFilledQuantity (Order.mk GoodTillCancel 1 Buy 100 10 6) + 6 = 10)%N.
Proof.
  apply (quantities_in_range ops_hit book_hit 1 (Order.mk GoodTillCancel 1 Buy 100 10 6)).
  - repeat constructor.
  - vm_compute. reflexivity.
  - vm_compute. reflexivity.
Defined.

(** X16: [Fill] moves the quantity from remaining to filled: on an order
    whose remaining quantity is at most its initial quantity, a 32-bit
    value, a call that returns was given at most the remaining quantity,
    lowers the remaining quantity by the quantity given, raises
    [GetFilledQuantity] by it and keeps the initial quantity. *)
Theorem fill_moves_quantity (o : Order.t) (quantity : Quantity) (o' : Order.t) :
  (Order.GetRemainingQuantity o ≤ Order.GetInitialQuantity o)%N →
  (Order.GetInitialQuantity o < 2 ^ 32)%N →
  Order.Fill quantity o = Ok o' →
  (quantity ≤ Order.GetRemainingQuantity o)%N
  ∧ (Order.GetRemainingQuantity o' + quantity = Order.GetRemainingQuantity o)%N
  ∧ Order.GetFilledQuantity o' = (Order.GetFilledQuantity o + quantity)%N
  ∧ Order.GetInitialQuantity o' = Order.GetInitialQuantity o.
Proof.
  intros Hle Hlt Hf. unfold Order.Fill in Hf.
  destruct (N.ltb_spec (Order.GetRemainingQuantity o) quantity) as [|Hq]; [done |].
  injection Hf as <-.
  rewrite !GetFilledQuantity_in_range;
    unfold Order.GetRemainingQuantity, Order.GetInitialQuantity in *; simpl; lia.
Qed.

Lemma fill_moves_quantity_witness :
  (4 ≤ 6)%N ∧ (2 + 4 = 6)%N
  ∧ Order.GetFilledQuantity (Order.mk GoodTillCancel 1 Buy 100 10 2)
    = (Order.GetFilledQuantity (Order.mk GoodTillCancel 1 Buy 100 10 6) + 4)%N
  ∧ 10%N = 10%N.
Proof.
  apply (fill_moves_quantity (Order.mk GoodTillCancel 1 Buy 100 10 6) 4
           (Order.mk GoodTillCancel 1 Buy 100 10 2)).
  - vm_compute. discriminate.
  - vm_compute. reflexivity.
  - reflexivity.
Defined.

(* ===================================================================== *)
(** ** Modification *)

(** X17: a modification loses the time priority: when the new side and
    price cannot cross, the modification of a live order returns no trade
    and leaves the order, with its new quantity, at the tail of the queue
    of the new price, behind the orders that were queued there; [Size] is
    as before. *)
Theorem modify_requeues_at_tail (s : Orderbook.t) (orderId : OrderId)
    (existingOrder : Order.t) (side : Side) (price : Price) (quantity : Quantity) :
  reachable s →
  Orderbook.orders_ s !! orderId = Some existingOrder →
  cannot_cross side price s →
  ∃ s',
    Orderbook.MatchOrder (OrderModify.new orderId side price quantity) s = Ok ([], s')
    ∧ level side price s'
      = Some (filter (λ y, Order.GetOrderId y ≠ orderId)
                (default [] (level side price s))
              ++ [Order.new GoodTillCancel orderId side price quantity])
    ∧ Orderbook.Size s' = Orderbook.Size s.
Proof.
  intros Hr Hi Hcc. pose proof (reachable_inv s Hr) as Hinv.
  pose proof Hinv as (Hwf & _ & Hg).
  destruct (CancelOrder_inv orderId s Hinv) as (s1 & Hc & Hinv1).
  pose proof Hinv1 as (Hwf1 & _).
  assert (Hty : Order.GetOrderType existingOrder = GoodTillCancel).
  { pose proof Hwf as (_ & _ & _ & Hix). apply Hix in Hi as [Hin _].
    rewrite Forall_forall in Hg. by apply Hg. }
  set (o := Order.new GoodTillCancel orderId side price quantity).
  assert (Hnone : Orderbook.orders_ s1 !! Order.GetOrderId o = None).
  { rewrite (CancelOrder_index _ _ _ Hwf Hc). apply lookup_delete_eq. }
  assert (Hcm : Orderbook.CanMatch (Order.GetSide o) (Order.GetPrice o) s1 = false).
  { apply cannot_cross_CanMatch. by apply (CancelOrder_cannot_cross side price s orderId). }
  exists (Orderbook.insert o s1). split; [|split].
  - unfold Orderbook.MatchOrder.
    change (OrderModify.GetOrderId (OrderModify.new orderId side price quantity))
      with orderId.
    rewrite Hi, Hc. simpl. rewrite Hty. by apply (AddOrder_rests o s1).
  - rewrite insert_level by done. rewrite decide_True by done.
    by rewrite (CancelOrder_level side price s orderId s1 Hwf Hc).
  - rewrite (Size_insert o s1 Hnone). symmetry.
    by apply (CancelOrder_Size s orderId existingOrder s1).
Qed.

Lemma modify_requeues_at_tail_witness :
  ∃ s',
    Orderbook.MatchOrder (OrderModify.new 1 Buy 100 7) book_large = Ok ([], s')
    ∧ level Buy 100 s'
      = Some (filter (λ y, Order.GetOrderId y ≠ 1%N)
                (default [] (level Buy 100 book_large))
              ++ [Order.new GoodTillCancel 1 Buy 100 7])
    ∧ Orderbook.Size s' = Orderbook.Size book_large.
Proof.
  apply (modify_requeues_at_tail book_large 1
           (Order.mk GoodTillCancel 1 Buy 100 2147483648 2147483648) Buy 100 7).
  - exists ops_large. vm_compute. reflexivity.
  - vm_compute. reflexivity.
  - exact I.
Defined.

(* ===================================================================== *)
(** ** The prices and quantities of the trades *)

(** X18: a submission never trades beyond its limit: in each of its
    trades the record of its side carries its own price, and the ask
    record is priced at or below the bid record, so a buy pays at most its
    price on the ask side and a sell receives at least its price on the
    bid side. *)
Theorem trades_within_limit (s : Orderbook.t) (o : Order.t)
    (trades : list Trade.t) (s' : Orderbook.t) (t : Trade.t) :
  reachable s →
  Orderbook.AddOrder o s = Ok (trades, s') →
  t ∈ trades →
  TradeInfo.price_ (side_trade (Order.GetSide o) t) = Order.GetPrice o
  ∧ TradeInfo.price_ (Trade.GetAskTrade t) ≤ TradeInfo.price_ (Trade.GetBidTrade t).
Proof.
  intros Hr Ha Ht. by apply (AddOrder_within_limit o s trades s' t (reachable_inv s Hr)).
Qed.

Lemma trades_within_limit_witness :
  TradeInfo.price_
    (side_trade Sell (Trade.mk (TradeInfo.mk 2 101 5) (TradeInfo.mk 3 100 5))) = 100
  ∧ TradeInfo.price_
      (Trade.GetAskTrade (Trade.mk (TradeInfo.mk 2 101 5) (TradeInfo.mk 3 100 5)))
    ≤ TradeInfo.price_
        (Trade.GetBidTrade (Trade.mk (TradeInfo.mk 2 101 5) (TradeInfo.mk 3 100 5))).
Proof.
  apply (trades_within_limit book_levels (Order.new GoodTillCancel 3 Sell 100 8)
           trades_levels_sold book_levels_sold).
  - exists ops_levels. vm_compute. reflexivity.
  - vm_compute. reflexivity.
  - unfold trades_levels_sold. left.
Defined.

(** X19: no empty trade: on a book built by submissions and
    modifications of positive quantity (and cancellations), every trade of
    a submission of positive quantity executes a positive quantity, the
    same on its two records. *)
Theorem trades_have_positive_quantity (ops : list Op) (s : Orderbook.t)
    (o : Order.t) (trades : list Trade.t) (s' : Orderbook.t) (t : Trade.t) :
  Forall positive_quantity ops →
  run ops Orderbook.init = Ok s →
  (0 < Order.GetRemainingQuantity o)%N →
  Orderbook.AddOrder o s = Ok (trades, s') →
  t ∈ trades →
  (0 < TradeInfo.quantity_ (Trade.GetBidTrade t))%N
  ∧ TradeInfo.quantity_ (Trade.GetAskTrade t) = TradeInfo.quantity_ (Trade.GetBidTrade t).
Proof.
  intros Hops Hrun Ho Ha Ht.
  apply (AddOrder_positive_trades o s trades s' t); try done.
  - by apply (run_inv ops Orderbook.init s init_inv).
  - apply (run_positive ops Orderbook.init s init_inv Hops Hrun). constructor.
  - lia.
Qed.

Lemma trades_have_positive_quantity_witness :
  (0 < TradeInfo.quantity_
         (Trade.GetBidTrade (Trade.mk (TradeInfo.mk 1 100 3) (TradeInfo.mk 3 100 3))))%N
  ∧ TradeInfo.quantity_
      (Trade.GetAskTrade (Trade.mk (TradeInfo.mk 1 100 3) (TradeInfo.mk 3 100 3)))
    = TradeInfo.quantity_
        (Trade.GetBidTrade (Trade.mk (TradeInfo.mk 1 100 3) (TradeInfo.mk 3 100 3))).
Proof.
  apply (trades_have_positive_quantity ops_levels book_levels
           (Order.new GoodTillCancel 3 Sell 100 8)
           trades_levels_sold book_levels_sold).
  - repeat constructor.
  - vm_compute. reflexivity.
  - reflexivity.
  - vm_compute. reflexivity.
  - unfold trades_levels_sold. right. left.
Defined.
